(** * Canvas instruction pipeline and WebGL helper of the vector renderer

    A shallow embedding of the Builder -> Instruction -> Executor pipeline
    (ol/render/canvas/Builder, LineStringBuilder, BuilderGroup, Executor,
    ExecutorGroup) and of the WebGL resource helper (ol/webgl/Helper),
    followed by the properties established about them.

    JavaScript numbers that are used as array indices or counters are
    integers ([Z]); coordinates are rationals ([Q]); [undefined] and [null]
    are [None]. *)

From Stdlib Require Import ZArith QArith Qround.
From stdpp Require Import gmap strings list fin_maps sorting pretty.

Local Open Scope Z_scope.

(** ** Outcomes of JavaScript code

    A call either returns, throws, or (for a loop whose exit depends on the
    data) exceeds the number of iterations the model was given. *)

Inductive JsError := TypeError | RangeError.

Inductive Result (A : Type) :=
| Ret (a : A)
| Throw (e : JsError)
| OutOfFuel.
Arguments Ret {A} a.
Arguments Throw {A} e.
Arguments OutOfFuel {A}.

Definition rbind {A B} (m : Result A) (k : A -> Result B) : Result B :=
  match m with
  | Ret a => k a
  | Throw e => Throw e
  | OutOfFuel => OutOfFuel
  end.

Notation "x <-- m ;; k" := (rbind m (fun x => k))
  (at level 100, m at next level, right associativity).

(** Reading [arr[i]] for a number [i]: [None] is JavaScript's [undefined]. *)
Definition zlookup {A} (arr : list A) (i : Z) : option A :=
  if decide (0 <= i) then arr !! Z.to_nat i else None.

(** Writing [arr[i] = v] on a JavaScript array of possibly-undefined
    entries: inside the array the entry is replaced; at or past the end the
    array grows, the gap being holes; a negative [i] sets a property and
    leaves the elements alone. *)
Definition array_set {A} (arr : list (option A)) (i : Z) (v : option A)
  : list (option A) :=
  if decide (i < 0) then arr
  else if decide (Z.to_nat i < length arr)%nat then <[Z.to_nat i := v]> arr
  else arr ++ replicate (Z.to_nat i - length arr) None ++ [v].

(** ** Features and geometries (external collaborators) *)

Definition Extent : Type := Q * Q * Q * Q.

Inductive GeometryType :=
| POINT | LINE_STRING_GEOM | POLYGON_GEOM | MULTI_POINT
| MULTI_LINE_STRING | MULTI_POLYGON | CIRCLE_GEOM.

Record Geometry := {
  getType : GeometryType;
  getFlatCoordinates : list Q;
  getStride : Z;
  getEnds : list Z;
  getExtent : Extent
}.

(** A feature is an opaque handle: its unique id ([getUid]) and its
    geometry, if any. *)
Record Feature := {
  getUid : string;
  getGeometry : option Geometry
}.

(** ** Instructions (ol/render/canvas/Instruction) *)

Inductive CanvasInstruction :=
| BEGIN_GEOMETRY | BEGIN_PATH | CIRCLE | CLOSE_PATH | CUSTOM | DRAW_CHARS
| DRAW_IMAGE | END_GEOMETRY | FILL | MOVE_TO_LINE_TO | SET_FILL_STYLE
| SET_STROKE_STYLE | STROKE.

Global Instance CanvasInstruction_eq_dec : EqDecision CanvasInstruction.
Proof. solve_decision. Defined.

(** The payload of a SET_STROKE_STYLE instruction, positions 1 to 7. *)
Record StrokePayload := {
  sp_strokeStyle : option string;
  sp_lineWidth : option Q;
  sp_lineCap : option string;
  sp_lineJoin : option string;
  sp_miterLimit : option Q;
  sp_lineDash : option (list Q);
  sp_lineDashOffset : option Q
}.

(** An instruction is the array [[opcode, payload...]]; one constructor per
    opcode, the arguments being the payload positions the replay reads.
    [IOther] stands for an array whose first entry is no known opcode. *)
Inductive Instruction :=
| IBeginGeometry (feature : Feature) (skip : Z)
| IBeginPath
| ICircle (d : Z)
| IClosePath
| ICustom (d : Z)
| IDrawChars (begin end_ : Z)
| IDrawImage (d dd : Z)
| IEndGeometry (feature : Feature)
| IFill
| IMoveToLineTo (d dd : Z)
| ISetFillStyle (fillStyle : option string) (alignFill : bool)
| ISetStrokeStyle (payload : StrokePayload)
| IStroke
| IOther.

(** [instruction[0]]. *)
Definition itype (ins : Instruction) : option CanvasInstruction :=
  match ins with
  | IBeginGeometry _ _ => Some BEGIN_GEOMETRY
  | IBeginPath => Some BEGIN_PATH
  | ICircle _ => Some CIRCLE
  | IClosePath => Some CLOSE_PATH
  | ICustom _ => Some CUSTOM
  | IDrawChars _ _ => Some DRAW_CHARS
  | IDrawImage _ _ => Some DRAW_IMAGE
  | IEndGeometry _ => Some END_GEOMETRY
  | IFill => Some FILL
  | IMoveToLineTo _ _ => Some MOVE_TO_LINE_TO
  | ISetFillStyle _ _ => Some SET_FILL_STYLE
  | ISetStrokeStyle _ => Some SET_STROKE_STYLE
  | IStroke => Some STROKE
  | IOther => None
  end.

(** [instruction[2] = i] on a BEGIN_GEOMETRY instruction. *)
Definition set_skip (ins : Instruction) (i : Z) : Instruction :=
  match ins with
  | IBeginGeometry f _ => IBeginGeometry f i
  | _ => ins
  end.

(** ** Reversal of the hit-detection stream *)

(** Modelled from the spec: [reverseSubArray] of ol/array.js is not among
    the sources.  It re-reverses the sub-range [begin..end] (both ends
    included) of the array in place.  A range that is empty, a single
    element, or not inside the array leaves the model's array as it is. *)
Definition reverseSubArray {A} (arr : list A) (begin end_ : Z) : list A :=
  if decide (0 <= begin /\ begin < end_ /\ end_ < Z.of_nat (length arr)) then
    let b := Z.to_nat begin in
    let e := Z.to_nat end_ in
    take b arr ++ reverse (take (S e - b) (drop b arr)) ++ drop (S e) arr
  else arr.

(** Step 2 of [reverseHitDetectionInstructions]: the loop
    [for (i = 0; i < n; ++i)], with [todo = n - i] iterations left. *)
Fixpoint reverse_blocks_loop (todo : nat) (i : Z) (begin : Z)
    (arr : list Instruction) : list Instruction :=
  match todo with
  | O => arr
  | S todo' =>
    match zlookup arr i with
    | None => arr
    | Some instruction =>
      match itype instruction with
      | Some END_GEOMETRY => reverse_blocks_loop todo' (i + 1) i arr
      | Some BEGIN_GEOMETRY =>
        let arr1 := <[Z.to_nat i := set_skip instruction i]> arr in
        let arr2 := reverseSubArray arr1 begin i in
        reverse_blocks_loop todo' (i + 1) (-1) arr2
      | _ => reverse_blocks_loop todo' (i + 1) begin arr
      end
    end
  end.

(** [reverseHitDetectionInstructions], identical in Builder and Executor:
    step 1 reverses the array, step 2 restores the order inside each
    geometry block and patches the skip index of its BEGIN_GEOMETRY. *)
Definition reverseHitDetectionInstructions
    (hitDetectionInstructions : list Instruction) : list Instruction :=
  let reversed := reverse hitDetectionInstructions in
  reverse_blocks_loop (length reversed) 0 (-1) reversed.

(** A feature block of the hit-detection stream:
    BEGIN_GEOMETRY, the drawing instructions, END_GEOMETRY. *)
Record Block := {
  b_feature : Feature;
  b_skip : Z;
  b_body : list Instruction;
  b_end_feature : Feature
}.

Definition block_instructions (b : Block) : list Instruction :=
  IBeginGeometry (b_feature b) (b_skip b) :: b_body b ++ [IEndGeometry (b_end_feature b)].

Definition stream_of_blocks (bs : list Block) : list Instruction :=
  concat (block_instructions <$> bs).

(** Neither BEGIN_GEOMETRY nor END_GEOMETRY. *)
Definition is_drawing (ins : Instruction) : bool :=
  match itype ins with
  | Some BEGIN_GEOMETRY | Some END_GEOMETRY => false
  | _ => true
  end.

Definition block_ok (b : Block) : Prop :=
  Forall (fun ins => is_drawing ins = true) (b_body b).

(** The blocks [bs] laid out from index [off] on, each BEGIN_GEOMETRY
    pointing at the index of its own END_GEOMETRY. *)
Fixpoint relocate (off : Z) (bs : list Block) : list Block :=
  match bs with
  | [] => []
  | b :: rest =>
    {| b_feature := b_feature b;
       b_skip := off + Z.of_nat (length (b_body b)) + 1;
       b_body := b_body b;
       b_end_feature := b_end_feature b |}
    :: relocate (off + Z.of_nat (length (b_body b)) + 2) rest
  end.

(** What a block is apart from its skip index. *)
Definition block_content (b : Block) : Feature * list Instruction * Feature :=
  (b_feature b, b_body b, b_end_feature b).

(** A block as it lies in the array after step 1. *)
Definition reversed_block (b : Block) : list Instruction :=
  IEndGeometry (b_end_feature b) :: reverse (b_body b) ++ [IBeginGeometry (b_feature b) (b_skip b)].

(** ** External operations on extents (ol/extent.js, ol/extent/Relationship.js)

    Consumed through their interface only: [createEmpty] is the empty
    extent, [extendCoordinate] grows an extent to include a coordinate,
    [buffer] grows an extent by a margin, [coordinateRelationship]
    classifies a coordinate against an extent, [intersects] tests two
    extents for overlap, and [Relationship_INTERSECTING] is the
    classification of a coordinate lying inside the extent. *)
Class ExtentOps := {
  createEmpty : Extent;
  extendCoordinate : Extent -> Q * Q -> Extent;
  buffer : Extent -> Q -> Extent;
  coordinateRelationship : Extent -> option Q * option Q -> Z;
  intersects : Extent -> Extent -> bool;
  Relationship_INTERSECTING : Z
}.

(** ** The fill/stroke state of a builder (ol/render/canvas, FillStrokeState) *)

Record FillStrokeState := {
  currentFillStyle : option string;
  currentStrokeStyle : option string;
  currentLineCap : option string;
  currentLineDash : option (list Q);
  currentLineDashOffset : option Q;
  currentLineJoin : option string;
  currentLineWidth : option Q;
  currentMiterLimit : option Q;
  lastStroke : option Z;
  fillStyle : option string;
  strokeStyle : option string;
  lineCap : option string;
  lineDash : option (list Q);
  lineDashOffset : option Q;
  lineJoin : option string;
  lineWidth : option Q;
  miterLimit : option Q
}.

(** [this.state = {}]. *)
Definition empty_state : FillStrokeState :=
  {| currentFillStyle := None; currentStrokeStyle := None;
     currentLineCap := None; currentLineDash := None;
     currentLineDashOffset := None; currentLineJoin := None;
     currentLineWidth := None; currentMiterLimit := None;
     lastStroke := None; fillStyle := None; strokeStyle := None;
     lineCap := None; lineDash := None; lineDashOffset := None;
     lineJoin := None; lineWidth := None; miterLimit := None |}.

(** The seven assignments [state.currentX = x] of [updateStrokeStyle]. *)
Definition set_current_stroke (s : FillStrokeState) : FillStrokeState :=
  {| currentFillStyle := currentFillStyle s;
     currentStrokeStyle := strokeStyle s;
     currentLineCap := lineCap s;
     currentLineDash := lineDash s;
     currentLineDashOffset := lineDashOffset s;
     currentLineJoin := lineJoin s;
     currentLineWidth := lineWidth s;
     currentMiterLimit := miterLimit s;
     lastStroke := lastStroke s; fillStyle := fillStyle s;
     strokeStyle := strokeStyle s; lineCap := lineCap s;
     lineDash := lineDash s; lineDashOffset := lineDashOffset s;
     lineJoin := lineJoin s; lineWidth := lineWidth s;
     miterLimit := miterLimit s |}.

(** [state.lastStroke = v]. *)
Definition set_lastStroke (s : FillStrokeState) (v : option Z) : FillStrokeState :=
  {| currentFillStyle := currentFillStyle s;
     currentStrokeStyle := currentStrokeStyle s;
     currentLineCap := currentLineCap s;
     currentLineDash := currentLineDash s;
     currentLineDashOffset := currentLineDashOffset s;
     currentLineJoin := currentLineJoin s;
     currentLineWidth := currentLineWidth s;
     currentMiterLimit := currentMiterLimit s;
     lastStroke := v; fillStyle := fillStyle s;
     strokeStyle := strokeStyle s; lineCap := lineCap s;
     lineDash := lineDash s; lineDashOffset := lineDashOffset s;
     lineJoin := lineJoin s; lineWidth := lineWidth s;
     miterLimit := miterLimit s |}.

(** ** The canvas builder (ol/render/canvas/Builder) *)

(** The constructors of BATCH_CONSTRUCTORS. *)
Inductive BuilderClass :=
| CanvasBuilderClass | CanvasImageBuilderClass | CanvasLineStringBuilderClass
| CanvasPolygonBuilderClass | CanvasTextBuilderClass.

(** The fields of a builder.  The two [beginGeometryInstruction] fields
    hold a reference to an instruction array that is also an element of
    the stream it was pushed on; the streams only grow while a geometry is
    open, so the reference is modelled as the index of that element. *)
Record CanvasBuilder := {
  builderClass : BuilderClass;
  declutterTree : option nat;
  tolerance : Q;
  maxExtent : Extent;
  overlaps : bool;
  pixelRatio : Q;
  maxLineWidth : Q;
  resolution : Q;
  beginGeometryInstruction1_ : option nat;
  beginGeometryInstruction2_ : option nat;
  bufferedMaxExtent_ : option Extent;
  instructions : list Instruction;
  coordinates : list (option Q);
  hitDetectionInstructions : list Instruction;
  state : FillStrokeState
}.

(** [new Constructor(tolerance, maxExtent, resolution, pixelRatio, overlaps,
    declutterTree)]. *)
Definition new_builder (c : BuilderClass) (tolerance_ : Q) (maxExtent_ : Extent)
    (resolution_ pixelRatio_ : Q) (overlaps_ : bool) (declutterTree_ : option nat)
  : CanvasBuilder :=
  {| builderClass := c; declutterTree := declutterTree_;
     tolerance := tolerance_; maxExtent := maxExtent_; overlaps := overlaps_;
     pixelRatio := pixelRatio_; maxLineWidth := 0%Q; resolution := resolution_;
     beginGeometryInstruction1_ := None; beginGeometryInstruction2_ := None;
     bufferedMaxExtent_ := None; instructions := []; coordinates := [];
     hitDetectionInstructions := []; state := empty_state |}.

Definition set_bufferedMaxExtent_ (b : CanvasBuilder) (e : option Extent) :=
  {| builderClass := builderClass b; declutterTree := declutterTree b;
     tolerance := tolerance b; maxExtent := maxExtent b; overlaps := overlaps b;
     pixelRatio := pixelRatio b; maxLineWidth := maxLineWidth b;
     resolution := resolution b;
     beginGeometryInstruction1_ := beginGeometryInstruction1_ b;
     beginGeometryInstruction2_ := beginGeometryInstruction2_ b;
     bufferedMaxExtent_ := e; instructions := instructions b;
     coordinates := coordinates b;
     hitDetectionInstructions := hitDetectionInstructions b; state := state b |}.

Definition set_coordinates (b : CanvasBuilder) (c : list (option Q)) :=
  {| builderClass := builderClass b; declutterTree := declutterTree b;
     tolerance := tolerance b; maxExtent := maxExtent b; overlaps := overlaps b;
     pixelRatio := pixelRatio b; maxLineWidth := maxLineWidth b;
     resolution := resolution b;
     beginGeometryInstruction1_ := beginGeometryInstruction1_ b;
     beginGeometryInstruction2_ := beginGeometryInstruction2_ b;
     bufferedMaxExtent_ := bufferedMaxExtent_ b; instructions := instructions b;
     coordinates := c;
     hitDetectionInstructions := hitDetectionInstructions b; state := state b |}.

Definition set_instructions (b : CanvasBuilder) (l : list Instruction) :=
  {| builderClass := builderClass b; declutterTree := declutterTree b;
     tolerance := tolerance b; maxExtent := maxExtent b; overlaps := overlaps b;
     pixelRatio := pixelRatio b; maxLineWidth := maxLineWidth b;
     resolution := resolution b;
     beginGeometryInstruction1_ := beginGeometryInstruction1_ b;
     beginGeometryInstruction2_ := beginGeometryInstruction2_ b;
     bufferedMaxExtent_ := bufferedMaxExtent_ b; instructions := l;
     coordinates := coordinates b;
     hitDetectionInstructions := hitDetectionInstructions b; state := state b |}.

Definition set_hitDetectionInstructions (b : CanvasBuilder) (l : list Instruction) :=
  {| builderClass := builderClass b; declutterTree := declutterTree b;
     tolerance := tolerance b; maxExtent := maxExtent b; overlaps := overlaps b;
     pixelRatio := pixelRatio b; maxLineWidth := maxLineWidth b;
     resolution := resolution b;
     beginGeometryInstruction1_ := beginGeometryInstruction1_ b;
     beginGeometryInstruction2_ := beginGeometryInstruction2_ b;
     bufferedMaxExtent_ := bufferedMaxExtent_ b; instructions := instructions b;
     coordinates := coordinates b;
     hitDetectionInstructions := l; state := state b |}.

Definition set_beginGeometryInstructions (b : CanvasBuilder) (r1 r2 : option nat) :=
  {| builderClass := builderClass b; declutterTree := declutterTree b;
     tolerance := tolerance b; maxExtent := maxExtent b; overlaps := overlaps b;
     pixelRatio := pixelRatio b; maxLineWidth := maxLineWidth b;
     resolution := resolution b;
     beginGeometryInstruction1_ := r1;
     beginGeometryInstruction2_ := r2;
     bufferedMaxExtent_ := bufferedMaxExtent_ b; instructions := instructions b;
     coordinates := coordinates b;
     hitDetectionInstructions := hitDetectionInstructions b; state := state b |}.

Definition set_state (b : CanvasBuilder) (s : FillStrokeState) :=
  {| builderClass := builderClass b; declutterTree := declutterTree b;
     tolerance := tolerance b; maxExtent := maxExtent b; overlaps := overlaps b;
     pixelRatio := pixelRatio b; maxLineWidth := maxLineWidth b;
     resolution := resolution b;
     beginGeometryInstruction1_ := beginGeometryInstruction1_ b;
     beginGeometryInstruction2_ := beginGeometryInstruction2_ b;
     bufferedMaxExtent_ := bufferedMaxExtent_ b; instructions := instructions b;
     coordinates := coordinates b;
     hitDetectionInstructions := hitDetectionInstructions b; state := s |}.

(** [beginPathInstruction] and [strokeInstruction] of Instruction.js. *)
Definition beginPathInstruction : Instruction := IBeginPath.
Definition strokeInstruction : Instruction := IStroke.

Section Builder.
Context {ops : ExtentOps}.

(** [getBufferedMaxExtent]: the extent, computed on first use and kept. *)
Definition getBufferedMaxExtent (b : CanvasBuilder) : Extent * CanvasBuilder :=
  match bufferedMaxExtent_ b with
  | Some e => (e, b)
  | None =>
    let e :=
      if negb (Qle_bool (maxLineWidth b) 0) then
        let width := (resolution b * (maxLineWidth b + 1) / 2)%Q in
        buffer (maxExtent b) width
      else maxExtent b in
    (e, set_bufferedMaxExtent_ b (Some e))
  end.

(** The variables of the loop of [appendFlatCoordinates]. *)
Record AppendState := {
  as_i : Z;
  as_myEnd : Z;
  as_lastCoord : option Q * option Q;
  as_lastRel : option Z;
  as_skipped : bool;
  as_coordinates : list (option Q)
}.

(** [this.coordinates[myEnd++] = c[0]; this.coordinates[myEnd++] = c[1]]. *)
Definition put_coord (coords : list (option Q)) (myEnd : Z)
    (c : option Q * option Q) : list (option Q) * Z :=
  (array_set (array_set coords myEnd (fst c)) (myEnd + 1) (snd c), myEnd + 2).

(** One pass through the body of the loop, at a point [i < end]. *)
Definition appendFlatCoordinates_body (extent : Extent) (flatCoordinates : list Q)
    (stride : Z) (st : AppendState) : AppendState :=
  let i := as_i st in
  let nextCoord := (zlookup flatCoordinates i, zlookup flatCoordinates (i + 1)) in
  let nextRel := coordinateRelationship extent nextCoord in
  let '(coords, myEnd, skipped) :=
    if decide (Some nextRel <> as_lastRel st) then
      let '(coords1, myEnd1) :=
        if as_skipped st
        then put_coord (as_coordinates st) (as_myEnd st) (as_lastCoord st)
        else (as_coordinates st, as_myEnd st) in
      let '(coords2, myEnd2) := put_coord coords1 myEnd1 nextCoord in
      (coords2, myEnd2, false)
    else if decide (nextRel = Relationship_INTERSECTING) then
      let '(coords2, myEnd2) := put_coord (as_coordinates st) (as_myEnd st) nextCoord in
      (coords2, myEnd2, false)
    else (as_coordinates st, as_myEnd st, true) in
  {| as_i := i + stride; as_myEnd := myEnd; as_lastCoord := nextCoord;
     as_lastRel := Some nextRel; as_skipped := skipped;
     as_coordinates := coords |}.

(** [for (i = offset + stride; i < end; i += stride)]. *)
Fixpoint appendFlatCoordinates_loop (fuel : nat) (extent : Extent)
    (flatCoordinates : list Q) (end_ stride : Z) (st : AppendState)
  : Result AppendState :=
  if decide (as_i st < end_) then
    match fuel with
    | O => OutOfFuel
    | S fuel' =>
      appendFlatCoordinates_loop fuel' extent flatCoordinates end_ stride
        (appendFlatCoordinates_body extent flatCoordinates stride st)
    end
  else Ret st.

(** [appendFlatCoordinates(flatCoordinates, offset, end, stride, closed,
    skipFirst)]: returns [myEnd] and the builder with the coordinates
    appended. *)
Definition appendFlatCoordinates (fuel : nat) (b : CanvasBuilder)
    (flatCoordinates : list Q) (offset end_ stride : Z) (closed skipFirst : bool)
  : Result (Z * CanvasBuilder) :=
  let myEnd := Z.of_nat (length (coordinates b)) in
  let '(extent, b1) := getBufferedMaxExtent b in
  let offset := if skipFirst then offset + stride else offset in
  let lastCoord := (zlookup flatCoordinates offset, zlookup flatCoordinates (offset + 1)) in
  st <-- appendFlatCoordinates_loop fuel extent flatCoordinates end_ stride
           {| as_i := offset + stride; as_myEnd := myEnd;
              as_lastCoord := lastCoord; as_lastRel := None;
              as_skipped := true; as_coordinates := coordinates b1 |} ;;
  let '(coords, myEnd') :=
    if (closed && as_skipped st) || bool_decide (as_i st = offset + stride)
    then put_coord (as_coordinates st) (as_myEnd st) (as_lastCoord st)
    else (as_coordinates st, as_myEnd st) in
  Ret (myEnd', set_coordinates b1 coords).

(** [beginGeometry(geometry, feature)]. *)
Definition beginGeometry (b : CanvasBuilder) (feature : Feature) : CanvasBuilder :=
  let r1 := length (instructions b) in
  let r2 := length (hitDetectionInstructions b) in
  let b1 := set_instructions b (instructions b ++ [IBeginGeometry feature 0]) in
  let b2 := set_hitDetectionInstructions b1
              (hitDetectionInstructions b1 ++ [IBeginGeometry feature 0]) in
  set_beginGeometryInstructions b2 (Some r1) (Some r2).

(** [endGeometry(geometry, feature)]; writing through a null
    [beginGeometryInstruction] reference is a TypeError. *)
Definition endGeometry (b : CanvasBuilder) (feature : Feature) : Result CanvasBuilder :=
  match beginGeometryInstruction1_ b, beginGeometryInstruction2_ b with
  | Some r1, Some r2 =>
    let ins1 := alter (fun ins => set_skip ins (Z.of_nat (length (instructions b))))
                  r1 (instructions b) in
    let ins2 := alter (fun ins => set_skip ins (Z.of_nat (length (hitDetectionInstructions b))))
                  r2 (hitDetectionInstructions b) in
    let endGeometryInstruction := IEndGeometry feature in
    let b1 := set_beginGeometryInstructions b None None in
    let b2 := set_instructions b1 (ins1 ++ [endGeometryInstruction]) in
    Ret (set_hitDetectionInstructions b2 (ins2 ++ [endGeometryInstruction]))
  | _, _ => Throw TypeError
  end.

(** [number * pixelRatio], [undefined * pixelRatio] being NaN. *)
Definition times_pixelRatio (x : option Q) (r : Q) : option Q :=
  (fun q => (q * r)%Q) <$> x.

(** [applyPixelRatio(dashArray)]; mapping over a null array is a TypeError. *)
Definition applyPixelRatio (b : CanvasBuilder) (dashArray : option (list Q))
  : Result (option (list Q)) :=
  if Qeq_bool (pixelRatio b) 1 then Ret dashArray
  else match dashArray with
       | Some l => Ret (Some ((fun dash => (dash * pixelRatio b)%Q) <$> l))
       | None => Throw TypeError
       end.

(** [createStroke(state)]. *)
Definition createStroke (b : CanvasBuilder) (s : FillStrokeState) : Result Instruction :=
  dash <-- applyPixelRatio b (lineDash s) ;;
  Ret (ISetStrokeStyle
         {| sp_strokeStyle := strokeStyle s;
            sp_lineWidth := times_pixelRatio (lineWidth s) (pixelRatio b);
            sp_lineCap := lineCap s; sp_lineJoin := lineJoin s;
            sp_miterLimit := miterLimit s; sp_lineDash := dash;
            sp_lineDashOffset := times_pixelRatio (lineDashOffset s) (pixelRatio b) |}).

(** [CanvasBuilder.prototype.applyStroke(state)]. *)
Definition CanvasBuilder_applyStroke (b : CanvasBuilder) : Result CanvasBuilder :=
  ins <-- createStroke b (state b) ;;
  Ret (set_instructions b (instructions b ++ [ins])).

(** [CanvasLineStringBuilder.prototype.applyStroke(state)]. *)
Definition CanvasLineStringBuilder_applyStroke (b : CanvasBuilder) : Result CanvasBuilder :=
  let len := Z.of_nat (length (coordinates b)) in
  let b1 :=
    match lastStroke (state b) with
    | Some ls =>
      if bool_decide (ls <> len) then
        set_state (set_instructions b (instructions b ++ [strokeInstruction]))
                  (set_lastStroke (state b) (Some len))
      else b
    | None => b
    end in
  let b2 := set_state b1 (set_lastStroke (state b1) (Some 0)) in
  b3 <-- CanvasBuilder_applyStroke b2 ;;
  Ret (set_instructions b3 (instructions b3 ++ [beginPathInstruction])).

(** Loose inequality [a != b] of two strings-or-undefined and of two
    numbers-or-undefined. *)
Definition neq_string (a b : option string) : bool := bool_decide (a <> b).

Definition neq_number (a b : option Q) : bool :=
  match a, b with
  | None, None => false
  | Some x, Some y => negb (Qeq_bool x y)
  | _, _ => true
  end.

(** [lineDash != state.currentLineDash && !equals(state.currentLineDash,
    lineDash)] for two arrays-or-null: the same array object has equal
    contents, [equals] compares the contents, and [equals] on a null
    argument is a TypeError. *)
Definition neq_lineDash (lineDash_ current : option (list Q)) : Result bool :=
  match lineDash_, current with
  | None, None => Ret false
  | Some l, Some c =>
    Ret (negb (bool_decide (length c = length l)
               && forallb (fun p => Qeq_bool (fst p) (snd p)) (zip c l)))
  | _, _ => Throw TypeError
  end.

(** [updateStrokeStyle(state, applyStroke)]; the disjunction is evaluated
    left to right and stops at the first true operand. *)
Definition updateStrokeStyle (b : CanvasBuilder)
    (applyStroke : CanvasBuilder -> Result CanvasBuilder) : Result CanvasBuilder :=
  let s := state b in
  changed <--
    (if neq_string (currentStrokeStyle s) (strokeStyle s) then Ret true
     else if neq_string (currentLineCap s) (lineCap s) then Ret true
     else
       d <-- neq_lineDash (lineDash s) (currentLineDash s) ;;
       Ret (d
            || neq_number (currentLineDashOffset s) (lineDashOffset s)
            || neq_string (currentLineJoin s) (lineJoin s)
            || neq_number (currentLineWidth s) (lineWidth s)
            || neq_number (currentMiterLimit s) (miterLimit s))) ;;
  if (changed : bool) then
    b1 <-- (match strokeStyle s with
            | Some _ => applyStroke b
            | None => Ret b
            end) ;;
    Ret (set_state b1 (set_current_stroke (state b1)))
  else Ret b.

(** [CanvasLineStringBuilder.prototype.drawFlatCoordinates_]. *)
Definition drawFlatCoordinates_ (fuel : nat) (b : CanvasBuilder)
    (flatCoordinates : list Q) (offset end_ stride : Z) : Result (Z * CanvasBuilder) :=
  let myBegin := Z.of_nat (length (coordinates b)) in
  r <-- appendFlatCoordinates fuel b flatCoordinates offset end_ stride false false ;;
  let '(myEnd, b1) := r in
  let moveToLineToInstruction := IMoveToLineTo myBegin myEnd in
  let b2 := set_instructions b1 (instructions b1 ++ [moveToLineToInstruction]) in
  let b3 := set_hitDetectionInstructions b2
              (hitDetectionInstructions b2 ++ [moveToLineToInstruction]) in
  Ret (end_, b3).

(** The SET_STROKE_STYLE instruction pushed on the hit-detection stream. *)
Definition hit_stroke_instruction (s : FillStrokeState) : Instruction :=
  ISetStrokeStyle
    {| sp_strokeStyle := strokeStyle s; sp_lineWidth := lineWidth s;
       sp_lineCap := lineCap s; sp_lineJoin := lineJoin s;
       sp_miterLimit := miterLimit s; sp_lineDash := lineDash s;
       sp_lineDashOffset := lineDashOffset s |}.

(** [drawLineString(lineStringGeometry, feature)]. *)
Definition drawLineString (fuel : nat) (b : CanvasBuilder)
    (lineStringGeometry : Geometry) (feature : Feature) : Result CanvasBuilder :=
  let s := state b in
  match strokeStyle s, lineWidth s with
  | Some _, Some _ =>
    b1 <-- updateStrokeStyle b CanvasLineStringBuilder_applyStroke ;;
    let b2 := beginGeometry b1 feature in
    let b3 := set_hitDetectionInstructions b2
                (hitDetectionInstructions b2
                 ++ [hit_stroke_instruction (state b2); beginPathInstruction]) in
    let flatCoordinates := getFlatCoordinates lineStringGeometry in
    let stride := getStride lineStringGeometry in
    r <-- drawFlatCoordinates_ fuel b3 flatCoordinates 0
            (Z.of_nat (length flatCoordinates)) stride ;;
    let b4 := snd r in
    let b5 := set_hitDetectionInstructions b4
                (hitDetectionInstructions b4 ++ [strokeInstruction]) in
    endGeometry b5 feature
  | _, _ => Ret b
  end.

(** The loop over [ends] of [drawMultiLineString]. *)
Fixpoint drawMultiLineString_loop (fuel : nat) (b : CanvasBuilder)
    (flatCoordinates : list Q) (offset : Z) (ends : list Z) (stride : Z)
  : Result (Z * CanvasBuilder) :=
  match ends with
  | [] => Ret (offset, b)
  | end_ :: rest =>
    r <-- drawFlatCoordinates_ fuel b flatCoordinates offset end_ stride ;;
    drawMultiLineString_loop fuel (snd r) flatCoordinates (fst r) rest stride
  end.

(** [drawMultiLineString(multiLineStringGeometry, feature)]. *)
Definition drawMultiLineString (fuel : nat) (b : CanvasBuilder)
    (multiLineStringGeometry : Geometry) (feature : Feature) : Result CanvasBuilder :=
  let s := state b in
  match strokeStyle s, lineWidth s with
  | Some _, Some _ =>
    b1 <-- updateStrokeStyle b CanvasLineStringBuilder_applyStroke ;;
    let b2 := beginGeometry b1 feature in
    let b3 := set_hitDetectionInstructions b2
                (hitDetectionInstructions b2
                 ++ [hit_stroke_instruction (state b2); beginPathInstruction]) in
    let ends := getEnds multiLineStringGeometry in
    let flatCoordinates := getFlatCoordinates multiLineStringGeometry in
    let stride := getStride multiLineStringGeometry in
    r <-- drawMultiLineString_loop fuel b3 flatCoordinates 0 ends stride ;;
    let b4 := snd r in
    let b5 := set_hitDetectionInstructions b4
                (hitDetectionInstructions b4 ++ [strokeInstruction]) in
    endGeometry b5 feature
  | _, _ => Ret b
  end.

End Builder.

(** *** Vocabulary for the coordinate clipper *)

(** The [k]-th point walked by [appendFlatCoordinates] from [off] on. *)
Definition input_point (flatCoordinates : list Q) (off stride : Z) (k : nat)
  : option Q * option Q :=
  (zlookup flatCoordinates (off + Z.of_nat k * stride),
   zlookup flatCoordinates (off + Z.of_nat k * stride + 1)).

(** A point as it lies in the flat coordinate buffer. *)
Definition flat_point (c : option Q * option Q) : list (option Q) := [fst c; snd c].

(** The points [p] and [q] lie next to each other, in this order, in [out]. *)
Definition adjacent_in (out : list (option Q)) (p q : option Q * option Q) : Prop :=
  exists pre post, out = pre ++ flat_point p ++ flat_point q ++ post.

Section BuilderSpec.
Context {ops : ExtentOps}.

(** The state of the loop of [appendFlatCoordinates] after the point [m]
    has been classified, [out] being what was appended to [base] so far. *)
Record append_inv (extent : Extent) (flatCoordinates : list Q) (off stride : Z)
    (base : list (option Q)) (m : nat) (st : AppendState) (out : list (option Q))
  : Prop := {
  inv_i : as_i st = off + Z.of_nat (S m) * stride;
  inv_coords : as_coordinates st = base ++ out;
  inv_myEnd : as_myEnd st = Z.of_nat (length (base ++ out));
  inv_last : as_lastCoord st = input_point flatCoordinates off stride m;
  inv_rel : as_lastRel st =
            match m with
            | O => None
            | S _ => Some (coordinateRelationship extent
                             (input_point flatCoordinates off stride m))
            end;
  inv_first : m = O -> as_skipped st = true /\ out = [];
  inv_len : (length out + (if as_skipped st then 2 else 0) <= 2 * S m)%nat;
  inv_tail : as_skipped st = false ->
             exists pre, out = pre ++ flat_point (input_point flatCoordinates off stride m);
  inv_trans : forall k, (k < m)%nat ->
      coordinateRelationship extent (input_point flatCoordinates off stride k)
      <> coordinateRelationship extent (input_point flatCoordinates off stride (S k)) ->
      adjacent_in out (input_point flatCoordinates off stride k)
                      (input_point flatCoordinates off stride (S k))
}.

End BuilderSpec.

(** ** The drawing surface

    The 2D context is consumed through its calls; a surface is the list of
    the calls made on it, the latest last.  Label images, the declutter
    tree and custom renderers are external: the replay of a DRAW_IMAGE,
    DRAW_CHARS or CUSTOM instruction is recorded as one call and not
    expanded (the drawing of a label and of its background is part of that
    call). *)

Inductive ContextCall :=
| CtxBeginPath
| CtxMoveTo (x y : option Q)
| CtxLineTo (x y : option Q)
| CtxClosePath
| CtxCircle (x1 y1 x2 y2 : option Q)
| CtxFill
| CtxStroke
| CtxTranslate
| CtxRotate
| CtxSetTransform
| CtxFillStyle (fillStyle : option string)
| CtxStrokeStyle (payload : StrokePayload)
| CtxDrawImage (d dd : Z)
| CtxDrawChars (begin end_ : Z)
| CtxCustom (d : Z)
| CtxResize (size : Z)
| CtxClearRect (size : Z).

Global Instance ContextCall_is_fill_dec (c : ContextCall) : Decision (c = CtxFill).
Proof. destruct c; (by left) || (by right). Defined.

(** The number of calls of the fill primitive among the calls [calls]. *)
Definition fill_calls (calls : list ContextCall) : nat :=
  length (filter (fun c => c = CtxFill) calls).

(** ** The executor (ol/render/canvas/Executor) *)

(** An instruction array as an object: who it is, and what it holds. *)
Record InstructionArray := {
  array_id : nat;
  array_items : list Instruction
}.

Record CanvasExecutor := {
  ex_overlaps : bool;
  ex_pixelRatio : Q;
  ex_instructions : InstructionArray;
  ex_hitDetectionInstructions : InstructionArray;
  ex_coordinates : list (option Q);
  ex_alignFill_ : bool
}.

(** [(x + 0.5) | 0]: the sum is truncated towards zero and wrapped to 32
    bits; NaN gives 0. *)
Definition toInt32 (z : Z) : Z := (z + 2 ^ 31) mod 2 ^ 32 - 2 ^ 31.

Definition round_pixel (x : option Q) : Z :=
  match x with
  | None => 0
  | Some q =>
    let s := Qplus q (Qmake 1 2) in
    toInt32 (Z.quot (Qnum s) (Z.pos (Qden s)))
  end.

(** The local variables of [execute_] and the surface it draws on.
    [rs_prev] is [(prevX, prevY)], [None] before the first BEGIN_PATH and
    when they are NaN.  [rs_callbacks] lists the features the feature
    callback has been called with, the latest last. *)
Record ReplayState := {
  rs_i : Z;
  rs_pendingFill : Z;
  rs_pendingStroke : Z;
  rs_prev : option (Z * Z);
  rs_lastFillInstruction : option Instruction;
  rs_lastStrokeInstruction : option Instruction;
  rs_alignFill_ : bool;
  rs_context : list ContextCall;
  rs_callbacks : list Feature
}.

Definition set_cursor (st : ReplayState) (i : Z) : ReplayState :=
  {| rs_i := i; rs_pendingFill := rs_pendingFill st;
     rs_pendingStroke := rs_pendingStroke st; rs_prev := rs_prev st;
     rs_lastFillInstruction := rs_lastFillInstruction st;
     rs_lastStrokeInstruction := rs_lastStrokeInstruction st;
     rs_alignFill_ := rs_alignFill_ st; rs_context := rs_context st;
     rs_callbacks := rs_callbacks st |}.

Definition set_pending (st : ReplayState) (pendingFill pendingStroke : Z) : ReplayState :=
  {| rs_i := rs_i st; rs_pendingFill := pendingFill;
     rs_pendingStroke := pendingStroke; rs_prev := rs_prev st;
     rs_lastFillInstruction := rs_lastFillInstruction st;
     rs_lastStrokeInstruction := rs_lastStrokeInstruction st;
     rs_alignFill_ := rs_alignFill_ st; rs_context := rs_context st;
     rs_callbacks := rs_callbacks st |}.

Definition set_prev (st : ReplayState) (prev : option (Z * Z)) : ReplayState :=
  {| rs_i := rs_i st; rs_pendingFill := rs_pendingFill st;
     rs_pendingStroke := rs_pendingStroke st; rs_prev := prev;
     rs_lastFillInstruction := rs_lastFillInstruction st;
     rs_lastStrokeInstruction := rs_lastStrokeInstruction st;
     rs_alignFill_ := rs_alignFill_ st; rs_context := rs_context st;
     rs_callbacks := rs_callbacks st |}.

Definition set_context (st : ReplayState) (calls : list ContextCall) : ReplayState :=
  {| rs_i := rs_i st; rs_pendingFill := rs_pendingFill st;
     rs_pendingStroke := rs_pendingStroke st; rs_prev := rs_prev st;
     rs_lastFillInstruction := rs_lastFillInstruction st;
     rs_lastStrokeInstruction := rs_lastStrokeInstruction st;
     rs_alignFill_ := rs_alignFill_ st; rs_context := calls;
     rs_callbacks := rs_callbacks st |}.

Definition set_lastFill (st : ReplayState) (ins : Instruction) (align : bool) : ReplayState :=
  {| rs_i := rs_i st; rs_pendingFill := rs_pendingFill st;
     rs_pendingStroke := rs_pendingStroke st; rs_prev := rs_prev st;
     rs_lastFillInstruction := Some ins;
     rs_lastStrokeInstruction := rs_lastStrokeInstruction st;
     rs_alignFill_ := align; rs_context := rs_context st;
     rs_callbacks := rs_callbacks st |}.

Definition set_lastStrokeInstruction (st : ReplayState) (ins : Instruction) : ReplayState :=
  {| rs_i := rs_i st; rs_pendingFill := rs_pendingFill st;
     rs_pendingStroke := rs_pendingStroke st; rs_prev := rs_prev st;
     rs_lastFillInstruction := rs_lastFillInstruction st;
     rs_lastStrokeInstruction := Some ins;
     rs_alignFill_ := rs_alignFill_ st; rs_context := rs_context st;
     rs_callbacks := rs_callbacks st |}.

Definition set_callbacks (st : ReplayState) (fs : list Feature) : ReplayState :=
  {| rs_i := rs_i st; rs_pendingFill := rs_pendingFill st;
     rs_pendingStroke := rs_pendingStroke st; rs_prev := rs_prev st;
     rs_lastFillInstruction := rs_lastFillInstruction st;
     rs_lastStrokeInstruction := rs_lastStrokeInstruction st;
     rs_alignFill_ := rs_alignFill_ st; rs_context := rs_context st;
     rs_callbacks := fs |}.

(** [context.call(...)]. *)
Definition emit (st : ReplayState) (calls : list ContextCall) : ReplayState :=
  set_context st (rs_context st ++ calls).

(** [++i]. *)
Definition next (st : ReplayState) : ReplayState := set_cursor st (rs_i st + 1).

(** [this.fill_(context)]. *)
Definition fill_ (st : ReplayState) : ReplayState :=
  if rs_alignFill_ st
  then emit st [CtxTranslate; CtxRotate; CtxFill; CtxSetTransform]
  else emit st [CtxFill].

(** Two replay states that differ at most in the path drawn so far. *)
Definition same_batch (st st' : ReplayState) : Prop :=
  rs_pendingFill st' = rs_pendingFill st
  /\ rs_pendingStroke st' = rs_pendingStroke st
  /\ rs_alignFill_ st' = rs_alignFill_ st
  /\ fill_calls (rs_context st') = fill_calls (rs_context st)
  /\ rs_callbacks st' = rs_callbacks st.

(** [batchSize] of [execute_]: [this.instructions != instructions ||
    this.overlaps ? 0 : 200], the comparison being one of array objects. *)
Definition batchSize_of (ex : CanvasExecutor) (instructions : InstructionArray) : Z :=
  if bool_decide (array_id (ex_instructions ex) <> array_id instructions)
     || ex_overlaps ex
  then 0 else 200.

(** What one pass through the loop of [execute_] leads to: the loop goes
    on, [execute_] returns a truthy result of the feature callback, an
    exception leaves [execute_], or the pass does not come to an end. *)
Inductive Step (T : Type) :=
| Continue (st : ReplayState)
| Return (result : T) (st : ReplayState)
| Raise (e : JsError)
| Hang.
Arguments Continue {T} st.
Arguments Return {T} result st.
Arguments Raise {T} e.
Arguments Hang {T}.


(** The cases CUSTOM, DRAW_IMAGE and DRAW_CHARS of [execute_] are not
    embedded instruction by instruction.  They call the renderer function
    that a CUSTOM instruction carries, and the image and text replay of the
    executor ([replayImage_], [renderDeclutter_],
    [drawTextImageWithPointPlacement_], [getTextImage], its text states and
    label cache, [drawTextOnPath] and [measureAndCacheTextWidth] of other
    modules).  [foreign_replay hit pixelCoordinates instruction st] is what
    such a case does in the replay state [st], [hit] telling whether a
    feature callback was given (there is no declutter group then): the calls
    it makes on the surface, which may be any calls, fills and strokes
    among them; or the exception it throws, as reading [font] of a text
    state that is not there does, or a renderer that throws; or [OutOfFuel]
    when it does not return.  These cases change none of the local
    variables of [execute_] but [i]. *)
Class ForeignReplay := {
  foreign_replay :
    bool -> list Q -> Instruction -> ReplayState -> Result (list ContextCall)
}.

Section Executor.
Context {ops : ExtentOps} {fops : ForeignReplay} {T : Type}.

(** The arguments of [execute_] that stay fixed during a replay.  The
    feature callback maps a feature and the surface to its result, a
    falsy result being [None], and to the surface it leaves.
    [re_batchSize] is computed by [execute_]. *)
Record ReplayEnv := {
  re_pixelCoordinates : list Q;
  re_skippedFeaturesHash : gmap string bool;
  re_instructions : list Instruction;
  re_featureCallback : option (Feature -> list ContextCall -> option T * list ContextCall);
  re_hitExtent : option Extent;
  re_batchSize : Z
}.

(** [skipFeatures && skippedFeaturesHash[getUid(feature)]]. *)
Definition is_skipped (env : ReplayEnv) (feature : Feature) : bool :=
  let skipFeatures := negb (bool_decide (re_skippedFeaturesHash env = ∅)) in
  skipFeatures
  && bool_decide (re_skippedFeaturesHash env !! getUid feature = Some true).

(** case BEGIN_GEOMETRY. *)
Definition begin_geometry (env : ReplayEnv) (feature : Feature) (skip : Z)
    (st : ReplayState) : ReplayState :=
  if is_skipped env feature || negb (bool_decide (is_Some (getGeometry feature)))
  then set_cursor st skip
  else
    match re_hitExtent env, getGeometry feature with
    | Some hitExtent, Some geometry =>
      if negb (intersects hitExtent (getExtent geometry))
      then set_cursor st (skip + 1)
      else next st
    | _, _ => next st
    end.

(** case BEGIN_PATH. *)
Definition begin_path (env : ReplayEnv) (st : ReplayState) : ReplayState :=
  let st1 :=
    if decide (rs_pendingFill st > re_batchSize env)
    then set_pending (fill_ st) 0 (rs_pendingStroke st)
    else st in
  let st2 :=
    if decide (rs_pendingStroke st1 > re_batchSize env)
    then set_pending (emit st1 [CtxStroke]) (rs_pendingFill st1) 0
    else st1 in
  let st3 :=
    if decide (rs_pendingFill st2 = 0 /\ rs_pendingStroke st2 = 0)
    then set_prev (emit st2 [CtxBeginPath]) None
    else st2 in
  next st3.

(** The points [d + 2, d + 4, ...] below [dd] of the inner loop of
    MOVE_TO_LINE_TO. *)
Definition line_to_indices (d dd : Z) : list Z :=
  (fun k => d + 2 + 2 * k) <$> seqZ 0 ((dd - d - 1) / 2).

(** One pass of that loop. *)
Definition line_to (env : ReplayEnv) (dd : Z) (st : ReplayState) (d : Z) : ReplayState :=
  let x := zlookup (re_pixelCoordinates env) d in
  let y := zlookup (re_pixelCoordinates env) (d + 1) in
  let round := (round_pixel x, round_pixel y) in
  if bool_decide (d = dd - 2) || negb (bool_decide (rs_prev st = Some round))
  then set_prev (emit st [CtxLineTo x y]) (Some round)
  else st.

(** case MOVE_TO_LINE_TO. *)
Definition move_to_line_to (env : ReplayEnv) (d dd : Z) (st : ReplayState) : ReplayState :=
  let x := zlookup (re_pixelCoordinates env) d in
  let y := zlookup (re_pixelCoordinates env) (d + 1) in
  let round := (round_pixel x, round_pixel y) in
  let st1 :=
    if negb (bool_decide (rs_prev st = Some round))
    then set_prev (emit st [CtxMoveTo x y]) (Some round)
    else st in
  next (foldl (line_to env dd) st1 (line_to_indices d dd)).

(** case SET_FILL_STYLE. *)
Definition set_fill_style (instruction : Instruction) (fillStyle : option string)
    (alignFill : bool) (st : ReplayState) : ReplayState :=
  let st1 := set_lastFill st instruction alignFill in
  let st2 :=
    if decide (rs_pendingFill st1 <> 0) then
      let st' := set_pending (fill_ st1) 0 (rs_pendingStroke st1) in
      if decide (rs_pendingStroke st' <> 0)
      then set_pending (emit st' [CtxStroke]) 0 0
      else st'
    else st1 in
  next (emit st2 [CtxFillStyle fillStyle]).

(** case SET_STROKE_STYLE. *)
Definition set_stroke_style (instruction : Instruction) (payload : StrokePayload)
    (st : ReplayState) : ReplayState :=
  let st1 := set_lastStrokeInstruction st instruction in
  let st2 :=
    if decide (rs_pendingStroke st1 <> 0)
    then set_pending (emit st1 [CtxStroke]) (rs_pendingFill st1) 0
    else st1 in
  next (emit st2 [CtxStrokeStyle payload]).

(** case END_GEOMETRY. *)
Definition end_geometry (env : ReplayEnv) (feature : Feature) (st : ReplayState)
  : Step T :=
  match re_featureCallback env with
  | Some featureCallback =>
    let '(result, calls) := featureCallback feature (rs_context st) in
    let st1 := set_callbacks (set_context st calls) (rs_callbacks st ++ [feature]) in
    match result with
    | Some r => Return r st1
    | None => Continue (next st1)
    end
  | None => Continue (next st)
  end.

(** cases CUSTOM, DRAW_IMAGE and DRAW_CHARS: what the foreign code does to
    the surface, then [++i]. *)
Definition foreign_instruction (env : ReplayEnv) (instruction : Instruction)
    (st : ReplayState) : Step T :=
  match foreign_replay (bool_decide (is_Some (re_featureCallback env)))
          (re_pixelCoordinates env) instruction st with
  | Ret calls => Continue (next (emit st calls))
  | Throw e => Raise e
  | OutOfFuel => Hang
  end.

(** The [switch] of [execute_] on one instruction. *)
Definition execute_instruction (env : ReplayEnv) (instruction : Instruction)
    (st : ReplayState) : Step T :=
  match instruction with
  | IBeginGeometry feature skip => Continue (begin_geometry env feature skip st)
  | IBeginPath => Continue (begin_path env st)
  | ICircle d =>
    let pc := re_pixelCoordinates env in
    Continue (next (emit st [CtxCircle (zlookup pc d) (zlookup pc (d + 1))
                                       (zlookup pc (d + 2)) (zlookup pc (d + 3))]))
  | IClosePath => Continue (next (emit st [CtxClosePath]))
  | ICustom _ | IDrawImage _ _ | IDrawChars _ _ => foreign_instruction env instruction st
  | IEndGeometry feature => end_geometry env feature st
  | IFill =>
    if decide (re_batchSize env <> 0)
    then Continue (next (set_pending st (rs_pendingFill st + 1) (rs_pendingStroke st)))
    else Continue (next (fill_ st))
  | IMoveToLineTo d dd => Continue (move_to_line_to env d dd st)
  | ISetFillStyle fillStyle alignFill =>
    Continue (set_fill_style instruction fillStyle alignFill st)
  | ISetStrokeStyle payload => Continue (set_stroke_style instruction payload st)
  | IStroke =>
    if decide (re_batchSize env <> 0)
    then Continue (next (set_pending st (rs_pendingFill st) (rs_pendingStroke st + 1)))
    else Continue (next (emit st [CtxStroke]))
  | IOther => Continue (next st)
  end.

(** The code after the loop: what is still pending is flushed. *)
Definition flush_pending (st : ReplayState) : ReplayState :=
  let st1 := if decide (rs_pendingFill st <> 0) then fill_ st else st in
  if decide (rs_pendingStroke st1 <> 0) then emit st1 [CtxStroke] else st1.

(** [while (i < ii)] and what follows it.  Reading an instruction at an
    index that holds none is a TypeError; [OutOfFuel] stands for a replay
    that is not over after [fuel] passes, or whose foreign code does not
    return. *)
Fixpoint execute_loop (fuel : nat) (env : ReplayEnv) (st : ReplayState)
  : Result (option T * ReplayState) :=
  if decide (rs_i st < Z.of_nat (length (re_instructions env))) then
    match fuel with
    | O => OutOfFuel
    | S fuel' =>
      match zlookup (re_instructions env) (rs_i st) with
      | None => Throw TypeError
      | Some instruction =>
        match execute_instruction env instruction st with
        | Continue st' => execute_loop fuel' env st'
        | Return result st' => Ret (Some result, st')
        | Raise e => Throw e
        | Hang => OutOfFuel
        end
      end
    end
  else Ret (None, flush_pending st).

(** [execute_(context, transform, skippedFeaturesHash, instructions,
    snapToPixel, featureCallback, opt_hitExtent)] on the executor [ex];
    [pixelCoordinates] is what [transform2D] makes of the executor's
    coordinates under [transform]. *)
Definition execute_ (fuel : nat) (ex : CanvasExecutor) (context : list ContextCall)
    (pixelCoordinates : list Q) (skippedFeaturesHash : gmap string bool)
    (instructions : InstructionArray)
    (featureCallback : option (Feature -> list ContextCall -> option T * list ContextCall))
    (opt_hitExtent : option Extent) : Result (option T * ReplayState) :=
  let batchSize := batchSize_of ex instructions in
  execute_loop fuel
    {| re_pixelCoordinates := pixelCoordinates;
       re_skippedFeaturesHash := skippedFeaturesHash;
       re_instructions := array_items instructions;
       re_featureCallback := featureCallback;
       re_hitExtent := opt_hitExtent;
       re_batchSize := batchSize |}
    {| rs_i := 0; rs_pendingFill := 0; rs_pendingStroke := 0; rs_prev := None;
       rs_lastFillInstruction := None; rs_lastStrokeInstruction := None;
       rs_alignFill_ := ex_alignFill_ ex; rs_context := context;
       rs_callbacks := [] |}.

(** [execute(context, transform, viewRotation, skippedFeaturesHash,
    snapToPixel)]. *)
Definition execute (fuel : nat) (ex : CanvasExecutor) (context : list ContextCall)
    (pixelCoordinates : list Q) (skippedFeaturesHash : gmap string bool)
  : Result (option T * ReplayState) :=
  execute_ fuel ex context pixelCoordinates skippedFeaturesHash
    (ex_instructions ex) None None.

(** [executeHitDetection(context, transform, viewRotation,
    skippedFeaturesHash, opt_featureCallback, opt_hitExtent)]. *)
Definition executeHitDetection (fuel : nat) (ex : CanvasExecutor)
    (context : list ContextCall) (pixelCoordinates : list Q)
    (skippedFeaturesHash : gmap string bool)
    (opt_featureCallback : option (Feature -> list ContextCall -> option T * list ContextCall))
    (opt_hitExtent : option Extent) : Result (option T * ReplayState) :=
  execute_ fuel ex context pixelCoordinates skippedFeaturesHash
    (ex_hitDetectionInstructions ex) opt_featureCallback opt_hitExtent.

End Executor.

(** ** A concrete instance of the extent operations

    Modelled from the spec: ol/extent.js and ol/extent/Relationship.js are
    not among the sources.  The extent is [(minX, minY, maxX, maxY)]; a
    coordinate is classified as inside (intersecting) or by the sides of
    the extent it lies beyond; a comparison with [undefined] is false. *)

Definition Qlt_b (a b : Q) : bool := negb (Qle_bool b a).

Definition lt_undef (a : option Q) (b : Q) : bool :=
  match a with Some x => Qlt_b x b | None => false end.

Definition gt_undef (a : option Q) (b : Q) : bool :=
  match a with Some x => Qlt_b b x | None => false end.

Definition ol_coordinateRelationship (extent : Extent) (c : option Q * option Q) : Z :=
  let '(minX, minY, maxX, maxY) := extent in
  let horizontal :=
    if lt_undef (fst c) minX then 16 else if gt_undef (fst c) maxX then 4 else 0 in
  let vertical :=
    if lt_undef (snd c) minY then 8 else if gt_undef (snd c) maxY then 2 else 0 in
  let relationship := Z.lor horizontal vertical in
  if decide (relationship = 0) then 1 else relationship.

Definition ol_intersects (e1 e2 : Extent) : bool :=
  let '(minX1, minY1, maxX1, maxY1) := e1 in
  let '(minX2, minY2, maxX2, maxY2) := e2 in
  Qle_bool minX1 maxX2 && Qle_bool minX2 maxX1
  && Qle_bool minY1 maxY2 && Qle_bool minY2 maxY1.

Definition ol_buffer (e : Extent) (value : Q) : Extent :=
  let '(minX, minY, maxX, maxY) := e in
  (minX - value, minY - value, maxX + value, maxY + value)%Q.

Definition ol_extendCoordinate (e : Extent) (c : Q * Q) : Extent :=
  let '(minX, minY, maxX, maxY) := e in
  (if Qlt_b (fst c) minX then fst c else minX,
   if Qlt_b (snd c) minY then snd c else minY,
   if Qlt_b maxX (fst c) then fst c else maxX,
   if Qlt_b maxY (snd c) then snd c else maxY).

(** The empty extent of the library is [(Infinity, Infinity, -Infinity,
    -Infinity)]; bounds far outside the examples stand for the infinities. *)
Definition ol_createEmpty : Extent :=
  (1000000000, 1000000000, -1000000000, -1000000000)%Q.

Definition ol_extent : ExtentOps :=
  {| createEmpty := ol_createEmpty;
     extendCoordinate := ol_extendCoordinate;
     buffer := ol_buffer;
     coordinateRelationship := ol_coordinateRelationship;
     intersects := ol_intersects;
     Relationship_INTERSECTING := 1 |}.

(** ** Example data *)

Definition example_extent : Extent := (0, 0, 10, 10)%Q.

Definition example_geometry : Geometry :=
  {| getType := LINE_STRING_GEOM;
     getFlatCoordinates := [1; 1; 20; 1; 5; 5]%Q;
     getStride := 2;
     getEnds := [6];
     getExtent := (1, 1, 20, 5)%Q |}.

(** A geometry far away from [example_extent]. *)
Definition far_geometry : Geometry :=
  {| getType := POINT;
     getFlatCoordinates := [50; 50]%Q;
     getStride := 2;
     getEnds := [];
     getExtent := (50, 50, 50, 50)%Q |}.

(** A line string without coordinates. *)
Definition empty_geometry : Geometry :=
  {| getType := LINE_STRING_GEOM;
     getFlatCoordinates := [];
     getStride := 2;
     getEnds := [];
     getExtent := ol_createEmpty |}.

Definition feature_a : Feature := {| getUid := "1"; getGeometry := Some example_geometry |}.
Definition feature_b : Feature := {| getUid := "2"; getGeometry := Some far_geometry |}.
Definition feature_c : Feature := {| getUid := "3"; getGeometry := Some example_geometry |}.

Definition example_builder : CanvasBuilder :=
  new_builder CanvasLineStringBuilderClass 1 example_extent 1 1 false None.

(** Three hit-detection blocks as the builders emit them. *)
Definition example_blocks : list Block :=
  [ {| b_feature := feature_a; b_skip := 4;
       b_body := [ISetFillStyle (Some "red") false; IBeginPath; IMoveToLineTo 0 6; IFill];
       b_end_feature := feature_a |};
    {| b_feature := feature_b; b_skip := 2;
       b_body := [IDrawImage 6 8];
       b_end_feature := feature_b |};
    {| b_feature := feature_c; b_skip := 1;
       b_body := [];
       b_end_feature := feature_c |} ].

(** Foreign code for the examples: every CUSTOM, DRAW_IMAGE and
    DRAW_CHARS instruction makes one call on the surface and returns. *)
Definition example_foreign : ForeignReplay :=
  {| foreign_replay := fun _ _ instruction _ =>
       Ret match instruction with
           | ICustom d => [CtxCustom d]
           | IDrawImage d dd => [CtxDrawImage d dd]
           | IDrawChars begin end_ => [CtxDrawChars begin end_]
           | _ => []
           end |}.

(** A hit-detection replay environment over one far-away feature that is
    also listed as skipped. *)
Definition example_hit_env : ReplayEnv (T := unit) :=
  {| re_pixelCoordinates := [];
     re_skippedFeaturesHash := {[ "2" := true ]};
     re_instructions := block_instructions
                          {| b_feature := feature_b; b_skip := 2;
                             b_body := [IDrawImage 6 8];
                             b_end_feature := feature_b |};
     re_featureCallback := Some (fun _ calls => (None, calls));
     re_hitExtent := Some example_extent;
     re_batchSize := 0 |}.

(** The same environment with no feature skipped. *)
Definition example_hit_env_unskipped : ReplayEnv (T := unit) :=
  {| re_pixelCoordinates := [];
     re_skippedFeaturesHash := ∅;
     re_instructions := re_instructions example_hit_env;
     re_featureCallback := re_featureCallback example_hit_env;
     re_hitExtent := Some example_extent;
     re_batchSize := 0 |}.

Definition initial_replay_state (context : list ContextCall) : ReplayState :=
  {| rs_i := 0; rs_pendingFill := 0; rs_pendingStroke := 0; rs_prev := None;
     rs_lastFillInstruction := None; rs_lastStrokeInstruction := None;
     rs_alignFill_ := false; rs_context := context; rs_callbacks := [] |}.

(** *** Vocabulary for batched fills *)

(** An instruction that extends the current path: MOVE_TO_LINE_TO,
    CLOSE_PATH or CIRCLE. *)
Definition is_path_instruction (ins : Instruction) : bool :=
  match ins with
  | IMoveToLineTo _ _ | IClosePath | ICircle _ => true
  | _ => false
  end.

(** The render instructions of one filled polygon or circle:
    BEGIN_GEOMETRY, BEGIN_PATH, the path, FILL, END_GEOMETRY. *)
Record FillBlock := {
  fb_feature : Feature;
  fb_skip : Z;
  fb_path : list Instruction
}.

Definition fill_block_instructions (fb : FillBlock) : list Instruction :=
  IBeginGeometry (fb_feature fb) (fb_skip fb) :: IBeginPath
  :: fb_path fb ++ [IFill; IEndGeometry (fb_feature fb)].

Definition fill_stream (fillStyle : option string) (alignFill : bool)
    (fbs : list FillBlock) : list Instruction :=
  ISetFillStyle fillStyle alignFill :: concat (fill_block_instructions <$> fbs).

(** The feature of the block is drawn ([skipped] being the features to
    skip) and its path consists of path instructions. *)
Definition fill_block_ok (skipped : gmap string bool) (fb : FillBlock) : Prop :=
  is_Some (getGeometry (fb_feature fb))
  /\ skipped !! getUid (fb_feature fb) <> Some true
  /\ Forall (fun ins => is_path_instruction ins = true) (fb_path fb).

(** The number of deferred fills after one more block, [p] being the
    number before it, and the number of flushes the block causes. *)
Definition pending_after_block (batchSize p : Z) : Z :=
  if decide (batchSize = 0) then 0
  else (if decide (p > batchSize) then 0 else p) + 1.

Definition flushes_of_block (batchSize p : Z) : nat :=
  if decide (batchSize = 0) then 1%nat
  else if decide (p > batchSize) then 1%nat else 0%nat.

(** The same after [n] blocks, starting from [p] deferred fills. *)
Fixpoint pending_after (batchSize : Z) (n : nat) (p : Z) : Z :=
  match n with
  | O => p
  | S n' => pending_after batchSize n' (pending_after_block batchSize p)
  end.

Fixpoint flushes_after (batchSize : Z) (n : nat) (p : Z) : nat :=
  match n with
  | O => 0%nat
  | S n' => (flushes_of_block batchSize p
             + flushes_after batchSize n' (pending_after_block batchSize p))%nat
  end.

(** An executor whose render stream is [items]. *)
Definition executor_of (overlaps_ : bool) (items : list Instruction) : CanvasExecutor :=
  {| ex_overlaps := overlaps_; ex_pixelRatio := 1;
     ex_instructions := {| array_id := 1; array_items := items |};
     ex_hitDetectionInstructions := {| array_id := 2; array_items := [] |};
     ex_coordinates := []; ex_alignFill_ := false |}.

(** 250 FILL instructions one after the other behind one SET_FILL_STYLE. *)
Definition adjacent_fills : list Instruction :=
  ISetFillStyle (Some "red") false :: replicate 250 IFill.

(** 250 filled triangles of one feature. *)
Definition example_fill_blocks : list FillBlock :=
  replicate 250 {| fb_feature := feature_a; fb_skip := 4;
                   fb_path := [IMoveToLineTo 0 6] |}.

(** A multi line string whose first line has no coordinates and whose
    second line runs from (0, 0) to (1, 1). *)
Definition multi_geometry_empty_line : Geometry :=
  {| getType := MULTI_LINE_STRING;
     getFlatCoordinates := [0; 0; 1; 1]%Q;
     getStride := 2;
     getEnds := [0; 4];
     getExtent := (0, 0, 1, 1)%Q |}.

(** A line-string builder whose state holds a stroke. *)
Definition stroked_builder : CanvasBuilder :=
  set_state example_builder
    {| currentFillStyle := None; currentStrokeStyle := None;
       currentLineCap := None; currentLineDash := None;
       currentLineDashOffset := None; currentLineJoin := None;
       currentLineWidth := None; currentMiterLimit := None;
       lastStroke := None; fillStyle := None; strokeStyle := Some "black";
       lineCap := Some "round"; lineDash := Some []; lineDashOffset := Some 0%Q;
       lineJoin := Some "round"; lineWidth := Some 1%Q; miterLimit := Some 10%Q |}.

(** ** The builder group (ol/render/canvas/BuilderGroup) *)

Inductive ReplayType := Circle | Default | Image | LineString | Polygon | Text.

Global Instance ReplayType_eq_dec : EqDecision ReplayType.
Proof. solve_decision. Defined.

Definition ReplayType_to_nat (t : ReplayType) : nat :=
  match t with
  | Circle => 0 | Default => 1 | Image => 2 | LineString => 3 | Polygon => 4
  | Text => 5
  end%nat.

Definition ReplayType_of_nat (n : nat) : option ReplayType :=
  match n with
  | 0 => Some Circle | 1 => Some Default | 2 => Some Image
  | 3 => Some LineString | 4 => Some Polygon | 5 => Some Text
  | _ => None
  end%nat.

Global Instance ReplayType_countable : Countable ReplayType.
Proof.
  apply (inj_countable ReplayType_to_nat ReplayType_of_nat). by intros [].
Defined.

Definition BATCH_CONSTRUCTORS (replayType : ReplayType) : BuilderClass :=
  match replayType with
  | Circle => CanvasPolygonBuilderClass
  | Default => CanvasBuilderClass
  | Image => CanvasImageBuilderClass
  | LineString => CanvasLineStringBuilderClass
  | Polygon => CanvasPolygonBuilderClass
  | Text => CanvasTextBuilderClass
  end.

(** The group and the builders it has created.  A builder is an object:
    [bg_builders] holds the builders in the order of their creation, and a
    builder is referred to by its position there. *)
Record CanvasBuilderGroup := {
  bg_declutterTree_ : option nat;
  bg_tolerance_ : Q;
  bg_maxExtent_ : Extent;
  bg_overlaps_ : bool;
  bg_pixelRatio_ : Q;
  bg_resolution_ : Q;
  bg_renderBuffer_ : option Q;
  buildersByZIndex_ : gmap string (gmap ReplayType nat);
  bg_builders : list CanvasBuilder
}.

Definition set_builders (g : CanvasBuilderGroup)
    (byZIndex : gmap string (gmap ReplayType nat)) (builders : list CanvasBuilder)
  : CanvasBuilderGroup :=
  {| bg_declutterTree_ := bg_declutterTree_ g; bg_tolerance_ := bg_tolerance_ g;
     bg_maxExtent_ := bg_maxExtent_ g; bg_overlaps_ := bg_overlaps_ g;
     bg_pixelRatio_ := bg_pixelRatio_ g; bg_resolution_ := bg_resolution_ g;
     bg_renderBuffer_ := bg_renderBuffer_ g;
     buildersByZIndex_ := byZIndex; bg_builders := builders |}.

(** [zIndex !== undefined ? zIndex.toString() : '0']. *)
Definition zIndexKey (zIndex : option Z) : string :=
  match zIndex with
  | Some z => pretty z
  | None => "0"
  end.

(** [getBuilder(zIndex, replayType)]: the builder and the group after the
    call. *)
Definition getBuilder (g : CanvasBuilderGroup) (zIndex : option Z)
    (replayType : ReplayType) : nat * CanvasBuilderGroup :=
  let key := zIndexKey zIndex in
  let '(replays, byZIndex) :=
    match buildersByZIndex_ g !! key with
    | Some replays => (replays, buildersByZIndex_ g)
    | None => (∅, <[key := ∅]> (buildersByZIndex_ g))
    end in
  match replays !! replayType with
  | Some replay => (replay, set_builders g byZIndex (bg_builders g))
  | None =>
    let Constructor := BATCH_CONSTRUCTORS replayType in
    let replay := length (bg_builders g) in
    let builder := new_builder Constructor (bg_tolerance_ g) (bg_maxExtent_ g)
                     (bg_resolution_ g) (bg_pixelRatio_ g) (bg_overlaps_ g)
                     (bg_declutterTree_ g) in
    (replay,
     set_builders g (<[key := <[replayType := replay]> replays]> byZIndex)
       (bg_builders g ++ [builder]))
  end.

Definition example_group : CanvasBuilderGroup :=
  {| bg_declutterTree_ := None; bg_tolerance_ := 1; bg_maxExtent_ := example_extent;
     bg_overlaps_ := false; bg_pixelRatio_ := 1; bg_resolution_ := 1;
     bg_renderBuffer_ := None; buildersByZIndex_ := ∅; bg_builders := [] |}.

(** ** The WebGL helper (ol/webgl/Helper) *)

(** A handle of the WebGL context, [None] being null. *)
Definition Handle : Type := option nat.

Inductive TypedArray := Float32Array | Uint32Array | Uint16Array | NoArray.

Inductive GLCall :=
| GLCreateBuffer (buffer : Handle)
| GLBindBuffer (target : Z) (buffer : Handle)
| GLBufferData (target : Z) (data : TypedArray) (usage : Z)
| GLDeleteBuffer (buffer : Handle)
| GLCreateShader (type : Z) (shader : Handle)
| GLShaderSource (shader : Handle) (source : string)
| GLCompileShader (shader : Handle)
| GLCreateProgram (program : Handle)
| GLAttachShader (program shader : Handle)
| GLLinkProgram (program : Handle)
| GLUseProgram (program : Handle).

(** The WebGL context: whether it is lost, the next handle it hands out,
    and the calls made on it, the latest last.  A lost context creates
    null objects. *)
Record GLContext := {
  isContextLost : bool;
  gl_next : nat;
  gl_calls : list GLCall
}.

Definition gl_call (gl : GLContext) (c : GLCall) : GLContext :=
  {| isContextLost := isContextLost gl; gl_next := gl_next gl;
     gl_calls := gl_calls gl ++ [c] |}.

(** [gl.createBuffer()], [gl.createShader(type)], [gl.createProgram()]. *)
Definition gl_create (gl : GLContext) (call : Handle -> GLCall) : Handle * GLContext :=
  if isContextLost gl then (None, gl_call gl (call None))
  else (Some (gl_next gl),
        {| isContextLost := false; gl_next := S (gl_next gl);
           gl_calls := gl_calls gl ++ [call (Some (gl_next gl))] |}).

Definition ARRAY_BUFFER : Z := 34962.
Definition ELEMENT_ARRAY_BUFFER : Z := 34963.

(** ol/webgl/Buffer, ol/webgl/Shader: the objects handed to the helper. *)
Record WebGLArrayBuffer := {
  buf_uid : string;
  buf_array : list Q;
  buf_usage : Z
}.

Record WebGLShaderObject := {
  sh_uid : string;
  sh_type : Z;
  sh_source : string
}.

Record BufferCacheEntry := {
  bce_buf : WebGLArrayBuffer;
  bce_buffer : Handle
}.

Record WebGLHelper := {
  gl_ : GLContext;
  bufferCache_ : gmap string BufferCacheEntry;
  shaderCache_ : gmap string Handle;
  programCache_ : gmap string Handle;
  currentProgram_ : Handle;
  hasOESElementIndexUint : bool;
  locations_valid : bool
}.

Definition set_gl (h : WebGLHelper) (gl : GLContext) : WebGLHelper :=
  {| gl_ := gl; bufferCache_ := bufferCache_ h; shaderCache_ := shaderCache_ h;
     programCache_ := programCache_ h; currentProgram_ := currentProgram_ h;
     hasOESElementIndexUint := hasOESElementIndexUint h;
     locations_valid := locations_valid h |}.

Definition set_bufferCache (h : WebGLHelper) (c : gmap string BufferCacheEntry) :=
  {| gl_ := gl_ h; bufferCache_ := c; shaderCache_ := shaderCache_ h;
     programCache_ := programCache_ h; currentProgram_ := currentProgram_ h;
     hasOESElementIndexUint := hasOESElementIndexUint h;
     locations_valid := locations_valid h |}.

Definition set_shaderCache (h : WebGLHelper) (c : gmap string Handle) :=
  {| gl_ := gl_ h; bufferCache_ := bufferCache_ h; shaderCache_ := c;
     programCache_ := programCache_ h; currentProgram_ := currentProgram_ h;
     hasOESElementIndexUint := hasOESElementIndexUint h;
     locations_valid := locations_valid h |}.

Definition set_programCache (h : WebGLHelper) (c : gmap string Handle) :=
  {| gl_ := gl_ h; bufferCache_ := bufferCache_ h; shaderCache_ := shaderCache_ h;
     programCache_ := c; currentProgram_ := currentProgram_ h;
     hasOESElementIndexUint := hasOESElementIndexUint h;
     locations_valid := locations_valid h |}.

(** [bindBuffer(target, buf)]. *)
Definition bindBuffer (h : WebGLHelper) (target : Z) (buf : WebGLArrayBuffer)
  : WebGLHelper :=
  let bufferKey := buf_uid buf in
  let '(bufferCache, h1) :=
    match bufferCache_ h !! bufferKey with
    | Some entry => (entry, h)
    | None =>
      let '(buffer, gl) := gl_create (gl_ h) GLCreateBuffer in
      let entry := {| bce_buf := buf; bce_buffer := buffer |} in
      (entry, set_bufferCache (set_gl h gl) (<[bufferKey := entry]> (bufferCache_ h)))
    end in
  let gl1 := gl_call (gl_ h1) (GLBindBuffer target (bce_buffer bufferCache)) in
  let arrayBuffer :=
    if decide (target = ARRAY_BUFFER) then Float32Array
    else if decide (target = ELEMENT_ARRAY_BUFFER) then
      (if hasOESElementIndexUint h then Uint32Array else Uint16Array)
    else NoArray in
  set_gl h1 (gl_call gl1 (GLBufferData target arrayBuffer (buf_usage buf))).

(** [deleteBuffer(buf)]; reading [.buffer] of an entry that is not there
    is a TypeError. *)
Definition deleteBuffer (h : WebGLHelper) (buf : WebGLArrayBuffer)
  : Result WebGLHelper :=
  let bufferKey := buf_uid buf in
  let bufferCacheEntry := bufferCache_ h !! bufferKey in
  h1 <-- (if negb (isContextLost (gl_ h)) then
            match bufferCacheEntry with
            | Some entry => Ret (set_gl h (gl_call (gl_ h) (GLDeleteBuffer (bce_buffer entry))))
            | None => Throw TypeError
            end
          else Ret h) ;;
  Ret (set_bufferCache h1 (delete bufferKey (bufferCache_ h1))).

(** [getShader(shaderObject)]. *)
Definition getShader (h : WebGLHelper) (shaderObject : WebGLShaderObject)
  : Handle * WebGLHelper :=
  let shaderKey := sh_uid shaderObject in
  match shaderCache_ h !! shaderKey with
  | Some shader => (shader, h)
  | None =>
    let '(shader, gl1) := gl_create (gl_ h) (GLCreateShader (sh_type shaderObject)) in
    let gl2 := gl_call gl1 (GLShaderSource shader (sh_source shaderObject)) in
    let gl3 := gl_call gl2 (GLCompileShader shader) in
    (shader, set_shaderCache (set_gl h gl3) (<[shaderKey := shader]> (shaderCache_ h)))
  end.

(** [useProgram(program)]: whether the program changed, and the helper;
    a change drops the cached uniform and attribute locations. *)
Definition useProgram (h : WebGLHelper) (program : Handle) : bool * WebGLHelper :=
  if decide (program = currentProgram_ h) then (false, h)
  else
    (true,
     {| gl_ := gl_call (gl_ h) (GLUseProgram program);
        bufferCache_ := bufferCache_ h; shaderCache_ := shaderCache_ h;
        programCache_ := programCache_ h; currentProgram_ := program;
        hasOESElementIndexUint := hasOESElementIndexUint h;
        locations_valid := false |}).

(** [getProgram(fragmentShaderObject, vertexShaderObject)]. *)
Definition getProgram (h : WebGLHelper)
    (fragmentShaderObject vertexShaderObject : WebGLShaderObject)
  : Handle * WebGLHelper :=
  let programKey := (sh_uid fragmentShaderObject +:+ "/" +:+ sh_uid vertexShaderObject)%string in
  match programCache_ h !! programKey with
  | Some program => (program, h)
  | None =>
    let '(program, gl1) := gl_create (gl_ h) GLCreateProgram in
    let '(fragmentShader, h1) := getShader (set_gl h gl1) fragmentShaderObject in
    let h2 := set_gl h1 (gl_call (gl_ h1) (GLAttachShader program fragmentShader)) in
    let '(vertexShader, h3) := getShader h2 vertexShaderObject in
    let h4 := set_gl h3 (gl_call (gl_ h3) (GLAttachShader program vertexShader)) in
    let h5 := set_gl h4 (gl_call (gl_ h4) (GLLinkProgram program)) in
    (program, set_programCache h5 (<[programKey := program]> (programCache_ h5)))
  end.

(** [handleWebGLContextLost()]; [clear] of ol/obj.js removes every
    property of its argument. *)
Definition handleWebGLContextLost (h : WebGLHelper) : WebGLHelper :=
  {| gl_ := gl_ h; bufferCache_ := ∅; shaderCache_ := ∅; programCache_ := ∅;
     currentProgram_ := None;
     hasOESElementIndexUint := hasOESElementIndexUint h;
     locations_valid := locations_valid h |}.

(** The context-lost event: the context is lost and the handler runs. *)
Definition lose_context (h : WebGLHelper) : WebGLHelper :=
  handleWebGLContextLost
    (set_gl h {| isContextLost := true; gl_next := gl_next (gl_ h);
                 gl_calls := gl_calls (gl_ h) |}).

(** [new WebGLHelper()] on a fresh context. *)
Definition new_helper : WebGLHelper :=
  {| gl_ := {| isContextLost := false; gl_next := 0; gl_calls := [] |};
     bufferCache_ := ∅; shaderCache_ := ∅; programCache_ := ∅;
     currentProgram_ := None; hasOESElementIndexUint := true;
     locations_valid := false |}.

Definition example_buffer : WebGLArrayBuffer :=
  {| buf_uid := "7"; buf_array := [0; 1; 2]%Q; buf_usage := 35048 |}.

Definition example_fragment : WebGLShaderObject :=
  {| sh_uid := "8"; sh_type := 35632; sh_source := "void main(void) {}" |}.

Definition example_vertex : WebGLShaderObject :=
  {| sh_uid := "9"; sh_type := 35633; sh_source := "void main(void) {}" |}.

(** ** The circle masks of hit detection (ol/render/canvas/ExecutorGroup) *)

(** A mask: an array of rows of [true] or [undefined]. *)
Abbreviation Mask := (list (list (option bool))).

(** [array[i][y] = true]; a row that does not exist is a TypeError. *)
Definition set_true (array : Mask) (i y : Z) : Result Mask :=
  match zlookup array i with
  | None => Throw TypeError
  | Some row => Ret (<[Z.to_nat i := array_set row y (Some true)]> array)
  end.

(** [for (i = ...; i < ...; i++) array[i][y] = true] over the indices [rows]. *)
Fixpoint set_true_rows (array : Mask) (rows : list Z) (y : Z) : Result Mask :=
  match rows with
  | [] => Ret array
  | i :: rest =>
    array' <-- set_true array i y ;;
    set_true_rows array' rest y
  end.

(** [fillCircleArrayRowToMiddle(array, x, y)]. *)
Definition fillCircleArrayRowToMiddle (array : Mask) (x y : Z) : Result Mask :=
  let radius := Z.of_nat (length array) / 2 in
  if decide (x >= radius) then set_true_rows array (seqZ radius (x - radius)) y
  else set_true_rows array (seqZ (x + 1) (radius - (x + 1))) y.

(** The eight calls of one pass of the loop of [getCircleArray]. *)
Definition fill_octants (arr : Mask) (radius x y : Z) : Result Mask :=
  a1 <-- fillCircleArrayRowToMiddle arr (radius + x) (radius + y) ;;
  a2 <-- fillCircleArrayRowToMiddle a1 (radius + y) (radius + x) ;;
  a3 <-- fillCircleArrayRowToMiddle a2 (radius - y) (radius + x) ;;
  a4 <-- fillCircleArrayRowToMiddle a3 (radius - x) (radius + y) ;;
  a5 <-- fillCircleArrayRowToMiddle a4 (radius - x) (radius - y) ;;
  a6 <-- fillCircleArrayRowToMiddle a5 (radius - y) (radius - x) ;;
  a7 <-- fillCircleArrayRowToMiddle a6 (radius + y) (radius - x) ;;
  fillCircleArrayRowToMiddle a7 (radius + x) (radius - y).

(** [while (x >= y)] of [getCircleArray]. *)
Fixpoint circle_loop (fuel : nat) (radius x y error : Z) (arr : Mask) : Result Mask :=
  if decide (x >= y) then
    match fuel with
    | O => OutOfFuel
    | S fuel' =>
      arr' <-- fill_octants arr radius x y ;;
      let y1 := y + 1 in
      let error1 := error + (1 + 2 * y1) in
      if decide (2 * (error1 - x) + 1 > 0) then
        let x1 := x - 1 in
        circle_loop fuel' radius x1 y1 (error1 + (1 - 2 * x1)) arr'
      else circle_loop fuel' radius x y1 error1 arr'
    end
  else Ret arr.

(** The masks created so far, a mask being referred to by its position,
    and the static [circleArrayCache] from radius to mask. *)
Record CircleStore := {
  cs_masks : list Mask;
  circleArrayCache : gmap Z nat
}.

(** [var circleArrayCache = {0: [[true]]}]. *)
Definition initial_circle_store : CircleStore :=
  {| cs_masks := [ [[Some true]] ]; circleArrayCache := {[ 0 := 0%nat ]} |}.

(** [getCircleArray(radius)]: the mask and the store after the call.
    [new Array(arraySize)] is a RangeError when [arraySize] is negative or
    above 2^32 - 1. *)
Definition getCircleArray (fuel : nat) (radius : Z) (store : CircleStore)
  : Result (nat * CircleStore) :=
  match circleArrayCache store !! radius with
  | Some mask => Ret (mask, store)
  | None =>
    let arraySize := radius * 2 + 1 in
    if decide (arraySize < 0 \/ arraySize > 4294967295) then Throw RangeError
    else
      let arr := replicate (Z.to_nat arraySize) (replicate (Z.to_nat arraySize) None) in
      arr' <-- circle_loop fuel radius radius 0 0 arr ;;
      let ref := length (cs_masks store) in
      Ret (ref, {| cs_masks := cs_masks store ++ [arr'];
                   circleArrayCache := <[radius := ref]> (circleArrayCache store) |})
  end.

(** [array[i][j]], if the row and the entry exist. *)
Definition mask_at (m : Mask) (i j : Z) : option (option bool) :=
  row ← zlookup m i; zlookup row j.

(** A square mask of side [2 * radius + 1] whose entries are [true] or
    [undefined] and whose centre is [true]. *)
Record circle_mask (radius : Z) (m : Mask) : Prop := {
  cm_rows : Z.of_nat (length m) = 2 * radius + 1;
  cm_columns : Forall (fun row => Z.of_nat (length row) = 2 * radius + 1) m;
  cm_entries : Forall (Forall (fun e => e = Some true \/ e = None)) m;
  cm_centre : mask_at m radius radius = Some (Some true)
}.

(** What every call of [getCircleArray] keeps true of the store: the
    cached masks exist and are circle masks of their radius, and radius 0
    is cached. *)
Definition circle_store_ok (store : CircleStore) : Prop :=
  is_Some (circleArrayCache store !! 0)
  /\ forall radius ref,
       circleArrayCache store !! radius = Some ref ->
       0 <= radius
       /\ exists m, cs_masks store !! ref = Some m /\ circle_mask radius m.

(** A square array of side [n] with entries [true] or [undefined]. *)
Definition square_mask (n : Z) (m : Mask) : Prop :=
  Z.of_nat (length m) = n
  /\ Forall (fun row => Z.of_nat (length row) = n) m
  /\ Forall (Forall (fun e => e = Some true \/ e = None)) m.

(** Every entry that is [true] in [m] is [true] in [m']. *)
Definition mask_le (m m' : Mask) : Prop :=
  forall i j, mask_at m i j = Some (Some true) -> mask_at m' i j = Some (Some true).

(** ** The executor group (ol/render/canvas/ExecutorGroup) *)

(** External to the group: transforms and their application to flat
    coordinates (ol/transform.js, ol/geom/flat/transform.js), the alpha
    channel of the pixels the surface shows after a list of calls
    ([getImageData]), and the fixed order of the kinds (ORDER of
    ol/render/replay.js). *)
Class RenderOps := {
  Transform : Type;
  composeHitTransform : Q * Q -> Q -> Q -> Z -> Transform;
  transform2D : list (option Q) -> Transform -> list Q;
  imageAlpha : list ContextCall -> Z -> Z -> Z;
  ORDER : list ReplayType
}.

Section ExecutorGroup.
Context {ops : ExtentOps} {fops : ForeignReplay} {rops : RenderOps} {T : Type}.

(** The group.  [eg_declutterTree_] is the list of the features of the
    entries of the declutter tree, when there is a tree.  The executors
    are keyed by z-index; the keys of the JavaScript object are the decimal
    strings of these numbers. *)
Record ExecutorGroup := {
  eg_declutterTree_ : option (list Feature);
  eg_renderBuffer_ : option Q;
  executorsByZIndex_ : gmap Z (gmap ReplayType CanvasExecutor)
}.

(** What a hit test reads and writes besides the group: the size of the
    hit-detection canvas, the calls made on its context, and the
    [declutterReplays] argument, when given. *)
Record HitState := {
  hs_size : Z;
  hs_context : list ContextCall;
  hs_declutterReplays : option (gmap Z (list (CanvasExecutor * Transform)))
}.

(** The values that stay fixed during one hit test. *)
Record HitEnv := {
  he_fuel : nat;
  he_contextSize : Z;
  he_transform : Transform;
  he_skippedFeaturesHash : gmap string bool;
  he_hitExtent : option Extent;
  he_mask : Mask;
  he_declutteredFeatures : option (list Feature);
  he_callback : Feature -> option T
}.

(** [replayType == ReplayType.IMAGE || replayType == ReplayType.TEXT]. *)
Definition is_image_or_text (replayType : ReplayType) : bool :=
  bool_decide (replayType = Image) || bool_decide (replayType = Text).

(** The pixels [(i, j)] in the order of the two loops of the feature
    callback. *)
Definition mask_pixels (contextSize : Z) : list (Z * Z) :=
  i ← seqZ 0 contextSize; j ← seqZ 0 contextSize; [(i, j)].

(** The closure [featureCallback] of [forEachFeatureAtCoordinate], for the
    current value of its variable [replayType]. *)
Definition featureCallback (env : HitEnv) (replayType : ReplayType)
    (feature : Feature) (calls : list ContextCall) : option T * list ContextCall :=
  let hit (p : Z * Z) :=
    bool_decide (mask_at (he_mask env) (fst p) (snd p) = Some (Some true))
    && bool_decide (imageAlpha calls (fst p) (snd p) > 0) in
  match List.find hit (mask_pixels (he_contextSize env)) with
  | Some _ =>
    let result :=
      match he_declutteredFeatures env with
      | Some declutteredFeatures =>
        if negb (is_image_or_text replayType)
           || bool_decide (getUid feature ∈ getUid <$> declutteredFeatures)
        then he_callback env feature
        else None
      | None => he_callback env feature
      end in
    match result with
    | Some r => (Some r, calls)
    | None => (None, calls ++ [CtxClearRect (he_contextSize env)])
    end
  | None => (None, calls)
  end.

(** [executor.executeHitDetection(context, transform, rotation,
    skippedFeaturesHash, featureCallback, hitExtent)] on the hit-detection
    context. *)
Definition run_executor (env : HitEnv) (replayType : ReplayType)
    (executor : CanvasExecutor) (st : HitState) : Result (option T * HitState) :=
  r <-- executeHitDetection (he_fuel env) executor (hs_context st)
          (transform2D (ex_coordinates executor) (he_transform env))
          (he_skippedFeaturesHash env) (Some (featureCallback env replayType))
          (he_hitExtent env) ;;
  Ret (fst r, {| hs_size := hs_size st; hs_context := rs_context (snd r);
                 hs_declutterReplays := hs_declutterReplays st |}).

(** The body of the inner loop for an executor that exists: it is put
    aside for decluttering, or its hit-detection stream is replayed. *)
Definition visit_executor (env : HitEnv) (zIndexKey : Z) (replayType : ReplayType)
    (executor : CanvasExecutor) (st : HitState) : Result (option T * HitState) :=
  match hs_declutterReplays st with
  | Some declutterReplays =>
    if is_image_or_text replayType then
      let declutter := default [] (declutterReplays !! zIndexKey) in
      Ret (None,
           {| hs_size := hs_size st; hs_context := hs_context st;
              hs_declutterReplays :=
                Some (<[zIndexKey := declutter ++ [(executor, he_transform env)]]>
                        declutterReplays) |})
    else run_executor env replayType executor st
  | None => run_executor env replayType executor st
  end.

(** [for (j = ORDER.length - 1; j >= 0; --j)], with [j = j1 - 1]. *)
Fixpoint kinds_loop (j1 : nat) (env : HitEnv) (zIndexKey : Z)
    (executors : gmap ReplayType CanvasExecutor) (st : HitState)
  : Result (option T * HitState) :=
  match j1 with
  | O => Ret (None, st)
  | S j =>
    match ORDER !! j with
    | None => kinds_loop j env zIndexKey executors st
    | Some replayType =>
      match executors !! replayType with
      | None => kinds_loop j env zIndexKey executors st
      | Some executor =>
        r <-- visit_executor env zIndexKey replayType executor st ;;
        match fst r with
        | Some result => Ret (Some result, snd r)
        | None => kinds_loop j env zIndexKey executors (snd r)
        end
      end
    end
  end.

(** [for (i = zs.length - 1; i >= 0; --i)], with [i = i1 - 1].  A key
    without executors makes [executors[replayType]] a TypeError. *)
Fixpoint zs_loop (i1 : nat) (env : HitEnv) (g : ExecutorGroup) (zs : list Z)
    (st : HitState) : Result (option T * HitState) :=
  match i1 with
  | O => Ret (None, st)
  | S i =>
    match zs !! i with
    | None => Throw TypeError
    | Some z =>
      match executorsByZIndex_ g !! z with
      | None => Throw TypeError
      | Some executors =>
        r <-- kinds_loop (length ORDER) env z executors st ;;
        match fst r with
        | Some result => Ret (Some result, snd r)
        | None => zs_loop i env g zs (snd r)
        end
      end
    end
  end.

(** [Object.keys(this.executorsByZIndex_).map(Number)] sorted with
    [numberSafeCompareFunction]. *)
Definition sorted_zs (g : ExecutorGroup) : list Z :=
  merge_sort Z.le (elements (dom (executorsByZIndex_ g))).

(** [Math.round(hitTolerance)]. *)
Definition Math_round (q : Q) : Z := Qfloor (Qplus q (Qmake 1 2)).

(** The first part of [forEachFeatureAtCoordinate], up to the two loops:
    the canvas is sized or cleared, the hit extent and the mask are
    computed. *)
Definition hit_test_setup (fuel : nat) (g : ExecutorGroup)
    (coordinate : Q * Q) (resolution rotation hitTolerance : Q)
    (skippedFeaturesHash : gmap string bool) (callback : Feature -> option T)
    (st : HitState) (store : CircleStore)
  : Result (HitEnv * HitState * CircleStore) :=
  let hitTolerance := Math_round hitTolerance in
  let contextSize := hitTolerance * 2 + 1 in
  let transform := composeHitTransform coordinate resolution rotation hitTolerance in
  let st1 :=
    if decide (hs_size st <> contextSize) then
      {| hs_size := contextSize; hs_context := hs_context st ++ [CtxResize contextSize];
         hs_declutterReplays := hs_declutterReplays st |}
    else
      {| hs_size := hs_size st;
         hs_context := hs_context st ++ [CtxClearRect contextSize];
         hs_declutterReplays := hs_declutterReplays st |} in
  let hitExtent :=
    match eg_renderBuffer_ g with
    | Some renderBuffer =>
      Some (buffer (extendCoordinate createEmpty coordinate)
              (resolution * (renderBuffer + inject_Z hitTolerance))%Q)
    | None => None
    end in
  m <-- getCircleArray fuel hitTolerance store ;;
  let mask := default [] (cs_masks (snd m) !! fst m) in
  Ret ({| he_fuel := fuel; he_contextSize := contextSize; he_transform := transform;
          he_skippedFeaturesHash := skippedFeaturesHash; he_hitExtent := hitExtent;
          he_mask := mask; he_declutteredFeatures := eg_declutterTree_ g;
          he_callback := callback |},
       st1, snd m).

(** [forEachFeatureAtCoordinate(coordinate, resolution, rotation,
    hitTolerance, skippedFeaturesHash, callback, declutterReplays)]: the
    result, the hit state and the store of circle masks after the call. *)
Definition forEachFeatureAtCoordinate (fuel : nat) (g : ExecutorGroup)
    (coordinate : Q * Q) (resolution rotation hitTolerance : Q)
    (skippedFeaturesHash : gmap string bool) (callback : Feature -> option T)
    (st : HitState) (store : CircleStore)
  : Result (option T * HitState * CircleStore) :=
  s <-- hit_test_setup fuel g coordinate resolution rotation hitTolerance
          skippedFeaturesHash callback st store ;;
  let '(env, st1, store1) := s in
  let zs := sorted_zs g in
  r <-- zs_loop (length zs) env g zs st1 ;;
  Ret (fst r, snd r, store1).

(** *** The traversal in words *)

(** The z-indices from the highest to the lowest. *)
Definition bucket_order (g : ExecutorGroup) : list Z := reverse (sorted_zs g).

(** The executors of one z-index, in the reverse of ORDER. *)
Definition bucket_visits (g : ExecutorGroup) (z : Z)
  : list (Z * ReplayType * CanvasExecutor) :=
  executors ← option_list (executorsByZIndex_ g !! z);
  replayType ← reverse ORDER;
  executor ← option_list (executors !! replayType);
  [(z, replayType, executor)].

(** All executors in the order in which a hit test comes to them. *)
Definition traversal (g : ExecutorGroup) : list (Z * ReplayType * CanvasExecutor) :=
  z ← bucket_order g; bucket_visits g z.

(** The executors of [visits] are visited one after the other until one
    returns a truthy result; that result is returned and the executors
    behind it are left alone. *)
Fixpoint first_hit (env : HitEnv) (visits : list (Z * ReplayType * CanvasExecutor))
    (st : HitState) : Result (option T * HitState) :=
  match visits with
  | [] => Ret (None, st)
  | (z, replayType, executor) :: rest =>
    r <-- visit_executor env z replayType executor st ;;
    match fst r with
    | Some result => Ret (Some result, snd r)
    | None => first_hit env rest (snd r)
    end
  end.

End ExecutorGroup.

(** ** A concrete instance of the rendering operations, for the examples

    Modelled from the spec: ol/transform.js, ol/geom/flat/transform.js and
    ol/render/replay.js are not among the sources.  Transforms are left
    out (the identity); a pixel is opaque as soon as something was filled
    or stroked since the surface was last cleared; ORDER puts polygons
    under lines under images and text. *)

Definition surface_painted (calls : list ContextCall) : bool :=
  foldl (fun painted c =>
           match c with
           | CtxFill | CtxStroke | CtxDrawImage _ _ | CtxDrawChars _ _ => true
           | CtxResize _ | CtxClearRect _ => false
           | _ => painted
           end) false calls.

Definition ol_render : RenderOps :=
  {| Transform := unit;
     composeHitTransform := fun _ _ _ _ => tt;
     transform2D := fun coords _ => omap id coords;
     imageAlpha := fun calls _ _ => if surface_painted calls then 255 else 0;
     ORDER := [Polygon; Circle; LineString; Image; Text; Default] |}.

(** An executor whose hit-detection stream holds one filled triangle of
    [feature]. *)
Definition triangle_executor (feature : Feature) : CanvasExecutor :=
  {| ex_overlaps := false; ex_pixelRatio := 1;
     ex_instructions := {| array_id := 1; array_items := [] |};
     ex_hitDetectionInstructions :=
       {| array_id := 2;
          array_items := [IBeginGeometry feature 5; ISetFillStyle (Some "black") false;
                          IBeginPath; IMoveToLineTo 0 6; IFill; IEndGeometry feature] |};
     ex_coordinates := [Some 1; Some 1; Some 20; Some 1; Some 5; Some 5]%Q;
     ex_alignFill_ := false |}.

(** Three features on top of each other, at the z-indices 0, 1 and 2. *)
Definition stacked_group : ExecutorGroup :=
  {| eg_declutterTree_ := None; eg_renderBuffer_ := None;
     executorsByZIndex_ :=
       {[ 0 := {[ Polygon := triangle_executor feature_a ]};
          1 := {[ Polygon := triangle_executor feature_b ]};
          2 := {[ Polygon := triangle_executor feature_c;
                  LineString := triangle_executor feature_a ]} ]} |}.

Definition empty_hit_state : HitState (rops := ol_render) :=
  {| hs_size := 1; hs_context := []; hs_declutterReplays := None |}.

(** Two line strings drawn one after the other by a builder with a
    stroke. *)
Definition two_lines : Result CanvasBuilder :=
  b1 <-- drawLineString (ops := ol_extent) 10 stroked_builder example_geometry feature_a ;;
  drawLineString (ops := ol_extent) 10 b1 example_geometry feature_b.

(** The opcode of an instruction, with the feature and the skip index of a
    BEGIN_GEOMETRY. *)
Definition instruction_summary (ins : Instruction)
  : option CanvasInstruction * string * Z :=
  match ins with
  | IBeginGeometry f skip => (itype ins, getUid f, skip)
  | IEndGeometry f => (itype ins, getUid f, 0)
  | _ => (itype ins, ""%string, 0)
  end.


(** ** Styles and the end of a build (ol/render/canvas/Builder and
    LineStringBuilder, continued) *)

(** The defaults of ol/render/canvas.js and the colour conversion of
    ol/colorlike.js, consumed by name.  Colours are strings. *)
Class CanvasDefaults := {
  defaultFillStyle : string;
  defaultStrokeStyle : string;
  defaultLineCap : string;
  defaultLineDash : list Q;
  defaultLineDashOffset : Q;
  defaultLineJoin : string;
  defaultLineWidth : Q;
  defaultMiterLimit : Q;
  asColorLike : string -> string
}.

(** ol/style/Fill and ol/style/Stroke, through their getters. *)
Record FillStyle := {
  Fill_getColor : option string
}.

Record StrokeStyle := {
  Stroke_getColor : option string;
  getLineCap : option string;
  getLineDash : option (list Q);
  getLineDashOffset : option Q;
  getLineJoin : option string;
  getWidth : option Q;
  getMiterLimit : option Q
}.

(** [color ? color : fallback] for a colour that is a string or undefined:
    the empty string is falsy. *)
Definition color_or (color : option string) (fallback : string) : string :=
  match color with
  | Some c => if bool_decide (c = ""%string) then fallback else c
  | None => fallback
  end.

(** [x ? x : fallback] for a number or undefined: zero is falsy. *)
Definition number_or (x : option Q) (fallback : Q) : Q :=
  match x with
  | Some q => if Qeq_bool q 0 then fallback else q
  | None => fallback
  end.

Section BuilderStyles.
Context {ops : ExtentOps} {defaults : CanvasDefaults}.

(** [setFillStrokeStyle(fillStyle, strokeStyle)]. *)
Definition setFillStrokeStyle (b : CanvasBuilder) (fillStyle' : option FillStyle)
    (strokeStyle' : option StrokeStyle) : CanvasBuilder :=
  let s := state b in
  let fill :=
    match fillStyle' with
    | Some f => Some (asColorLike (color_or (Fill_getColor f) defaultFillStyle))
    | None => None
    end in
  match strokeStyle' with
  | Some k =>
    let width := default defaultLineWidth (getWidth k) in
    let s' :=
      {| currentFillStyle := currentFillStyle s;
         currentStrokeStyle := currentStrokeStyle s;
         currentLineCap := currentLineCap s;
         currentLineDash := currentLineDash s;
         currentLineDashOffset := currentLineDashOffset s;
         currentLineJoin := currentLineJoin s;
         currentLineWidth := currentLineWidth s;
         currentMiterLimit := currentMiterLimit s;
         lastStroke := lastStroke s;
         fillStyle := fill;
         strokeStyle := Some (asColorLike (color_or (Stroke_getColor k) defaultStrokeStyle));
         lineCap := Some (default defaultLineCap (getLineCap k));
         lineDash := Some (default defaultLineDash (getLineDash k));
         lineDashOffset := Some (number_or (getLineDashOffset k) defaultLineDashOffset);
         lineJoin := Some (default defaultLineJoin (getLineJoin k));
         lineWidth := Some width;
         miterLimit := Some (default defaultMiterLimit (getMiterLimit k)) |} in
    let widened := Qlt_b (maxLineWidth b) width in
    {| builderClass := builderClass b; declutterTree := declutterTree b;
       tolerance := tolerance b; maxExtent := maxExtent b; overlaps := overlaps b;
       pixelRatio := pixelRatio b;
       maxLineWidth := if widened then width else maxLineWidth b;
       resolution := resolution b;
       beginGeometryInstruction1_ := beginGeometryInstruction1_ b;
       beginGeometryInstruction2_ := beginGeometryInstruction2_ b;
       bufferedMaxExtent_ := if widened then None else bufferedMaxExtent_ b;
       instructions := instructions b; coordinates := coordinates b;
       hitDetectionInstructions := hitDetectionInstructions b; state := s' |}
  | None =>
    set_state b
      {| currentFillStyle := currentFillStyle s;
         currentStrokeStyle := currentStrokeStyle s;
         currentLineCap := currentLineCap s;
         currentLineDash := currentLineDash s;
         currentLineDashOffset := currentLineDashOffset s;
         currentLineJoin := currentLineJoin s;
         currentLineWidth := currentLineWidth s;
         currentMiterLimit := currentMiterLimit s;
         lastStroke := lastStroke s;
         fillStyle := fill;
         strokeStyle := None; lineCap := None; lineDash := None;
         lineDashOffset := None; lineJoin := None; lineWidth := None;
         miterLimit := None |}
  end.

(** The extent [getBufferedMaxExtent] computes for the present maximal
    line width. *)
Definition buffered_extent_of (b : CanvasBuilder) : Extent :=
  if negb (Qle_bool (maxLineWidth b) 0)
  then buffer (maxExtent b) (resolution b * (maxLineWidth b + 1) / 2)%Q
  else maxExtent b.

(** The cached buffered extent, when there is one, is the one of the
    present maximal line width. *)
Definition buffered_extent_ok (b : CanvasBuilder) : Prop :=
  forall e, bufferedMaxExtent_ b = Some e -> e = buffered_extent_of b.

End BuilderStyles.

(** The stroke fields of a state are set together: there is a dash array
    exactly when there is a stroke style, for the requested values and for
    the values last emitted. *)
Definition stroke_state_ok (s : FillStrokeState) : Prop :=
  (strokeStyle s = None <-> lineDash s = None)
  /\ (currentStrokeStyle s = None <-> currentLineDash s = None).

(** The stroke fields of a state: those requested and those last emitted. *)
Definition stroke_fields (s : FillStrokeState) :=
  (strokeStyle s, lineCap s, lineDash s, lineDashOffset s, lineJoin s,
   lineWidth s, miterLimit s).

Definition current_stroke_fields (s : FillStrokeState) :=
  (currentStrokeStyle s, currentLineCap s, currentLineDash s,
   currentLineDashOffset s, currentLineJoin s, currentLineWidth s,
   currentMiterLimit s).

(** The requested stroke has been emitted: none of the comparisons of
    [updateStrokeStyle] finds a stroke field that differs from its current
    value. *)
Definition stroke_is_current (s : FillStrokeState) : Prop :=
  neq_string (currentStrokeStyle s) (strokeStyle s) = false
  /\ neq_string (currentLineCap s) (lineCap s) = false
  /\ neq_lineDash (lineDash s) (currentLineDash s) = Ret false
  /\ neq_number (currentLineDashOffset s) (lineDashOffset s) = false
  /\ neq_string (currentLineJoin s) (lineJoin s) = false
  /\ neq_number (currentLineWidth s) (lineWidth s) = false
  /\ neq_number (currentMiterLimit s) (miterLimit s) = false.

(** What both [applyStroke] methods do when there is a dash array: they
    return, push on the render stream only, and leave the stroke fields of
    the state as they are. *)
Definition applies_stroke (applyStroke : CanvasBuilder -> Result CanvasBuilder) : Prop :=
  forall b, is_Some (lineDash (state b)) ->
    exists b' pushed, applyStroke b = Ret b'
      /\ stroke_fields (state b') = stroke_fields (state b)
      /\ current_stroke_fields (state b') = current_stroke_fields (state b)
      /\ instructions b' = instructions b ++ pushed
      /\ hitDetectionInstructions b' = hitDetectionInstructions b
      /\ coordinates b' = coordinates b.

(** What [finish()] returns; the three arrays are those of the builder. *)
Record SerializableInstructions := {
  si_instructions : list Instruction;
  si_hitDetectionInstructions : list Instruction;
  si_coordinates : list (option Q)
}.

(** [CanvasBuilder.prototype.finish()]. *)
Definition CanvasBuilder_finish (b : CanvasBuilder) : SerializableInstructions :=
  {| si_instructions := instructions b;
     si_hitDetectionInstructions := hitDetectionInstructions b;
     si_coordinates := coordinates b |}.

(** [CanvasLineStringBuilder.prototype.finish()]: the object returned.
    The builder is left with a null state and is not used again. *)
Definition CanvasLineStringBuilder_finish (b : CanvasBuilder) : SerializableInstructions :=
  let b1 :=
    match lastStroke (state b) with
    | Some ls =>
      if bool_decide (ls <> Z.of_nat (length (coordinates b)))
      then set_instructions b (instructions b ++ [strokeInstruction])
      else b
    | None => b
    end in
  let b2 := set_hitDetectionInstructions b1
              (reverseHitDetectionInstructions (hitDetectionInstructions b1)) in
  CanvasBuilder_finish b2.

Section BuilderSequences.
Context {ops : ExtentOps}.

(** The line strings [items] drawn one after the other, as the renderer of
    a layer does for the features of one style. *)
Fixpoint drawLineStrings (fuel : nat) (b : CanvasBuilder)
    (items : list (Geometry * Feature)) : Result CanvasBuilder :=
  match items with
  | [] => Ret b
  | (geometry, feature) :: rest =>
    b' <-- drawLineString fuel b geometry feature ;;
    drawLineStrings fuel b' rest
  end.

End BuilderSequences.

(** The hit-detection block [drawLineString] emits for [feature]: the
    stroke, the path between [myBegin] and [myEnd], and the skip index
    [skip]. *)
Definition line_block (s : FillStrokeState) (feature : Feature) (skip myBegin myEnd : Z)
  : Block :=
  {| b_feature := feature; b_skip := skip;
     b_body := [hit_stroke_instruction s; beginPathInstruction;
                IMoveToLineTo myBegin myEnd; strokeInstruction];
     b_end_feature := feature |}.

(** ** Well-formed instruction streams *)


(** ** The WebGL helper, continued *)

(** [handleWebGLContextRestored()]: the handler is empty. *)
Definition handleWebGLContextRestored (h : WebGLHelper) : WebGLHelper := h.

(** The context-restored event: the context works again and the handler
    runs. *)
Definition restore_context (h : WebGLHelper) : WebGLHelper :=
  handleWebGLContextRestored
    (set_gl h {| isContextLost := false; gl_next := gl_next (gl_ h);
                 gl_calls := gl_calls (gl_ h) |}).

(** The typed array [bindBuffer] hands to [bufferData] for a target. *)
Definition typed_array_of (h : WebGLHelper) (target : Z) : TypedArray :=
  if decide (target = ARRAY_BUFFER) then Float32Array
  else if decide (target = ELEMENT_ARRAY_BUFFER) then
    (if hasOESElementIndexUint h then Uint32Array else Uint16Array)
  else NoArray.

(** ** From the builder to the executor *)

(** [new CanvasExecutor(tolerance, maxExtent, resolution, pixelRatio,
    overlaps, declutterTree, instructions)]: the executor takes over the
    three arrays of the serialized instructions, two of which are the
    streams, two different array objects. *)
Definition new_CanvasExecutor (pixelRatio_ : Q) (overlaps_ : bool)
    (serialized : SerializableInstructions) : CanvasExecutor :=
  {| ex_overlaps := overlaps_; ex_pixelRatio := pixelRatio_;
     ex_instructions := {| array_id := 1; array_items := si_instructions serialized |};
     ex_hitDetectionInstructions :=
       {| array_id := 2; array_items := si_hitDetectionInstructions serialized |};
     ex_coordinates := si_coordinates serialized;
     ex_alignFill_ := false |}.

(** A feature callback that never returns a truthy value: what it does to
    the surface is [effect]. *)
Definition falsy_callback {T : Type} (effect : Feature -> list ContextCall -> list ContextCall)
  : Feature -> list ContextCall -> option T * list ContextCall :=
  fun feature calls => (None, effect feature calls).

(** ** The builder group, continued *)

(** The builder the group holds under a key for a kind. *)
Definition builder_of (g : CanvasBuilderGroup) (key : string) (replayType : ReplayType)
  : option nat :=
  buildersByZIndex_ g !! key ≫= (.!! replayType).

(** The references of the group point at builders that exist, and no
    builder is referred to under two keys or for two kinds. *)
Definition group_ok (g : CanvasBuilderGroup) : Prop :=
  (forall key t r, builder_of g key t = Some r -> (r < length (bg_builders g))%nat)
  /\ (forall key t key' t' r,
        builder_of g key t = Some r -> builder_of g key' t' = Some r ->
        key = key' /\ t = t').

(** [isEmpty()]: [isEmpty(this.buildersByZIndex_)]. *)
Definition CanvasBuilderGroup_isEmpty (g : CanvasBuilderGroup) : bool :=
  bool_decide (buildersByZIndex_ g = ∅).

(** A declutter group as the builder group makes it: the array
    [[minX, minY, maxX, maxY, count]]. *)
Record DeclutterGroup := {
  dg_extent : Extent;
  dg_count : Z
}.

(** The declutter groups are arrays shared with the instructions that
    hold them: [declutter_groups] lists the groups created so far, a group
    being referred to by its position, and [declutterGroup_] is the field of
    the builder group. *)
Record DeclutterState := {
  declutter_groups : list DeclutterGroup;
  declutterGroup_ : option nat
}.

Section Declutter.
Context {ops : ExtentOps}.

(** [addDeclutter(group)]: the group returned, null when there is no
    declutter tree; incrementing the count of a null group is a TypeError. *)
Definition addDeclutter (g : CanvasBuilderGroup) (ds : DeclutterState) (group : bool)
  : Result (option nat * DeclutterState) :=
  match bg_declutterTree_ g with
  | Some _ =>
    if group then
      match declutterGroup_ ds with
      | Some declutter =>
        Ret (Some declutter,
             {| declutter_groups :=
                  alter (fun dg => {| dg_extent := dg_extent dg; dg_count := dg_count dg + 1 |})
                    declutter (declutter_groups ds);
                declutterGroup_ := declutterGroup_ ds |})
      | None => Throw TypeError
      end
    else
      let declutter := length (declutter_groups ds) in
      Ret (Some declutter,
           {| declutter_groups :=
                declutter_groups ds ++ [{| dg_extent := createEmpty; dg_count := 1 |}];
              declutterGroup_ := Some declutter |})
  | None => Ret (None, ds)
  end.

(** [n] calls [addDeclutter(true)] one after the other: the groups they
    return and the state they leave. *)
Fixpoint addDeclutter_continued (n : nat) (g : CanvasBuilderGroup) (ds : DeclutterState)
  : Result (list (option nat) * DeclutterState) :=
  match n with
  | O => Ret ([], ds)
  | S n' =>
    r <-- addDeclutter g ds true ;;
    rest <-- addDeclutter_continued n' g (snd r) ;;
    Ret (fst r :: fst rest, snd rest)
  end.

End Declutter.

(** ** The points renderer (ol/renderer/webgl/PointsLayer) *)

(** The vector source as the renderer reads it: its revision and the
    features [forEachFeature] goes through, in that order. *)
Record VectorSource := {
  getRevision : Z;
  getFeatures : list Feature
}.

Record WebGLPointsLayerRenderer := {
  sourceRevision_ : Z;
  verticesBuffer_ : WebGLArrayBuffer;
  indicesBuffer_ : WebGLArrayBuffer
}.

(** [buf.getArray().push(...items)]. *)
Definition array_push (buf : WebGLArrayBuffer) (items : list Q) : WebGLArrayBuffer :=
  {| buf_uid := buf_uid buf; buf_array := buf_array buf ++ items;
     buf_usage := buf_usage buf |}.

Definition DYNAMIC_DRAW : Z := 35048.

(** The fields the constructor sets for the buffers; the two buffers are
    two objects, [verticesUid] and [indicesUid] being their unique ids. *)
Definition new_WebGLPointsLayerRenderer (verticesUid indicesUid : string)
  : WebGLPointsLayerRenderer :=
  {| sourceRevision_ := -1;
     verticesBuffer_ := {| buf_uid := verticesUid; buf_array := []; buf_usage := DYNAMIC_DRAW |};
     indicesBuffer_ := {| buf_uid := indicesUid; buf_array := []; buf_usage := DYNAMIC_DRAW |} |}.

(** The four vertices and the six indices pushed for one point. *)
Definition quad_vertices (x y size : Q) : list Q :=
  [x; y; - size / 2; - size / 2; 0; 0;
   x; y; size / 2; - size / 2; 1; 0;
   x; y; size / 2; size / 2; 1; 1;
   x; y; - size / 2; size / 2; 0; 1]%Q.

Definition quad_indices (baseIndex : Q) : list Q :=
  [baseIndex; baseIndex + 1; baseIndex + 3;
   baseIndex + 1; baseIndex + 2; baseIndex + 3]%Q.

Definition is_point_feature (feature : Feature) : bool :=
  match getGeometry feature with
  | Some geometry =>
    match getType geometry with
    | POINT => true
    | _ => false
    end
  | None => false
  end.

Section PointsLayer.
Variable sizeCallback_ : Feature -> Q.
Variable coordCallback_ : Feature -> Z -> Q.

(** The callback [prepareFrame] gives to [forEachFeature]. *)
Definition prepareFrame_feature (r : WebGLPointsLayerRenderer) (feature : Feature)
  : WebGLPointsLayerRenderer :=
  if negb (is_point_feature feature) then r
  else
    let x := coordCallback_ feature 0 in
    let y := coordCallback_ feature 1 in
    let size := sizeCallback_ feature in
    let stride := 6%Q in
    let baseIndex :=
      (inject_Z (Z.of_nat (length (buf_array (verticesBuffer_ r)))) / stride)%Q in
    {| sourceRevision_ := sourceRevision_ r;
       verticesBuffer_ := array_push (verticesBuffer_ r) (quad_vertices x y size);
       indicesBuffer_ := array_push (indicesBuffer_ r) (quad_indices baseIndex) |}.

(** The part of [prepareFrame(frameState)] that brings the buffers up to
    date with the source; the calls on the helper before and after it are
    not part of this definition. *)
Definition prepareFrame_buffers (r : WebGLPointsLayerRenderer)
    (vectorSource : VectorSource) : WebGLPointsLayerRenderer :=
  if decide (sourceRevision_ r < getRevision vectorSource) then
    foldl prepareFrame_feature
      {| sourceRevision_ := getRevision vectorSource;
         verticesBuffer_ := verticesBuffer_ r;
         indicesBuffer_ := indicesBuffer_ r |}
      (getFeatures vectorSource)
  else r.

(** What the buffers hold for a list of point features when the first of
    their vertices has the number [first]. *)
Definition quads_vertices (points : list Feature) : list Q :=
  flat_map (fun feature =>
              quad_vertices (coordCallback_ feature 0) (coordCallback_ feature 1)
                (sizeCallback_ feature)) points.

Definition quads_indices (first : nat) (n : nat) : list Q :=
  flat_map (fun k => quad_indices (inject_Z (4 * Z.of_nat k))) (seq first n).

End PointsLayer.

(** ** The map renderer (ol/renderer/Composite) *)

Section Composite.
(** The layer states of the frame state, the layers, their renderers and
    what a renderer finds at a pixel are objects of other modules; [T] is
    what the callback returns when its result is truthy and [St] the state
    the callback works on. *)
Context {LayerState Layer LayerRenderer Pixel Data T St : Type}.
Variable layer_of : LayerState -> Layer.
Variable visibleAtResolution : LayerState -> Q -> bool.
Variable getLayerRenderer : Layer -> option LayerRenderer.
Variable getDataAtPixel : LayerRenderer -> Pixel -> Q -> option Data.

(** The body of the loop of [forEachLayerAtPixel] for one layer state:
    the truthy result to return, if any. *)
Definition forEachLayerAtPixel_body (pixel : Pixel) (viewResolution hitTolerance : Q)
    (callback : Layer -> Data -> St -> option T * St) (layerFilter : Layer -> bool)
    (layerState : LayerState) (s : St) : option T * St :=
  let layer := layer_of layerState in
  if visibleAtResolution layerState viewResolution && layerFilter layer then
    match getLayerRenderer layer with
    | None => (None, s)
    | Some layerRenderer =>
      match getDataAtPixel layerRenderer pixel hitTolerance with
      | Some data => callback layer data s
      | None => (None, s)
      end
    end
  else (None, s).

Fixpoint forEachLayerAtPixel_loop (fuel : nat) (pixel : Pixel)
    (viewResolution hitTolerance : Q)
    (callback : Layer -> Data -> St -> option T * St) (layerFilter : Layer -> bool)
    (layerStates : list LayerState) (i : Z) (s : St) : Result (option T * St) :=
  match fuel with
  | O => OutOfFuel
  | S fuel' =>
    if decide (i >= 0) then
      match zlookup layerStates i with
      | None => Throw TypeError
      | Some layerState =>
        let '(result, s1) :=
          forEachLayerAtPixel_body pixel viewResolution hitTolerance callback
            layerFilter layerState s in
        match result with
        | Some r => Ret (Some r, s1)
        | None =>
          forEachLayerAtPixel_loop fuel' pixel viewResolution hitTolerance callback
            layerFilter layerStates (i - 1) s1
        end
      end
    else Ret (None, s)
  end.

(** [forEachLayerAtPixel(pixel, frameState, hitTolerance, callback,
    layerFilter)], the frame state giving the view resolution and the
    layer states. *)
Definition forEachLayerAtPixel (fuel : nat) (pixel : Pixel)
    (viewResolution : Q) (layerStates : list LayerState) (hitTolerance : Q)
    (callback : Layer -> Data -> St -> option T * St) (layerFilter : Layer -> bool)
    (s : St) : Result (option T * St) :=
  let numLayers := Z.of_nat (length layerStates) in
  forEachLayerAtPixel_loop fuel pixel viewResolution hitTolerance callback layerFilter
    layerStates (numLayers - 1) s.

(** The layer and the data the callback is called with for a layer state,
    if it is called. *)
Definition layer_candidate (pixel : Pixel) (viewResolution hitTolerance : Q)
    (layerFilter : Layer -> bool) (layerState : LayerState) : option (Layer * Data) :=
  if visibleAtResolution layerState viewResolution && layerFilter (layer_of layerState)
  then
    layerRenderer ← getLayerRenderer (layer_of layerState);
    data ← getDataAtPixel layerRenderer pixel hitTolerance;
    Some (layer_of layerState, data)
  else None.

(** The calls of the callback on a list of candidates, up to the first
    truthy result. *)
Fixpoint first_layer_result (callback : Layer -> Data -> St -> option T * St)
    (candidates : list (Layer * Data)) (s : St) : option T * St :=
  match candidates with
  | [] => (None, s)
  | (layer, data) :: rest =>
    let '(result, s1) := callback layer data s in
    match result with
    | Some r => (Some r, s1)
    | None => first_layer_result callback rest s1
    end
  end.

End Composite.

(** A call that extends the current path by a point. *)
Definition is_line_call (c : ContextCall) : bool :=
  match c with
  | CtxMoveTo _ _ | CtxLineTo _ _ => true
  | _ => false
  end.

(** ** Example data, continued *)

Definition example_canvas_defaults : CanvasDefaults :=
  {| defaultFillStyle := "#000"; defaultStrokeStyle := "#000";
     defaultLineCap := "round"; defaultLineDash := [];
     defaultLineDashOffset := 0; defaultLineJoin := "round";
     defaultLineWidth := 1; defaultMiterLimit := 10;
     asColorLike := fun color => color |}.

Definition example_stroke_style : StrokeStyle :=
  {| Stroke_getColor := Some "blue"; getLineCap := None; getLineDash := None;
     getLineDashOffset := None; getLineJoin := None; getWidth := Some 3%Q;
     getMiterLimit := None |}.

(** Two line strings of two features. *)
Definition example_items : list (Geometry * Feature) :=
  [(example_geometry, feature_a); (example_geometry, feature_c)].

(** The block of a far-away point feature. *)
Definition example_block : Block :=
  {| b_feature := feature_b; b_skip := 2; b_body := [IDrawImage 6 8];
     b_end_feature := feature_b |}.

(** A render replay, with no feature callback, over the block of a
    feature that is listed as skipped. *)
Definition example_render_env : ReplayEnv (T := unit) :=
  {| re_pixelCoordinates := [];
     re_skippedFeaturesHash := {[ "2" := true ]};
     re_instructions := block_instructions example_block;
     re_featureCallback := None;
     re_hitExtent := None;
     re_batchSize := 0 |}.

(** A builder group with a declutter tree. *)
Definition example_declutter_group : CanvasBuilderGroup :=
  {| bg_declutterTree_ := Some 0%nat; bg_tolerance_ := 1; bg_maxExtent_ := example_extent;
     bg_overlaps_ := false; bg_pixelRatio_ := 1; bg_resolution_ := 1;
     bg_renderBuffer_ := None; buildersByZIndex_ := ∅; bg_builders := [] |}.

(** A source with a point feature and a line feature. *)
Definition example_source : VectorSource :=
  {| getRevision := 0; getFeatures := [feature_b; feature_a] |}.
(** * Properties *)

(** ** Array helpers *)

Lemma zlookup_of_nat {A} (arr : list A) (n : nat) :
  zlookup arr (Z.of_nat n) = arr !! n.
Proof.
  unfold zlookup. rewrite decide_True by lia. by rewrite Nat2Z.id.
Qed.

Lemma zlookup_middle {A} (pre post : list A) (x : A) :
  zlookup (pre ++ x :: post) (Z.of_nat (length pre)) = Some x.
Proof. rewrite zlookup_of_nat. by rewrite list_lookup_middle. Qed.

Lemma insert_at_middle {A} (pre post : list A) (x y : A) :
  <[length pre := y]> (pre ++ x :: post) = pre ++ y :: post.
Proof.
  rewrite insert_app_r_alt by lia. by rewrite Nat.sub_diag.
Qed.

Lemma reverseSubArray_middle {A} (pre mid post : list A) :
  (2 <= length mid)%nat ->
  reverseSubArray (pre ++ mid ++ post) (Z.of_nat (length pre))
    (Z.of_nat (length pre) + Z.of_nat (length mid) - 1)
  = pre ++ reverse mid ++ post.
Proof.
  intros Hmid. unfold reverseSubArray.
  rewrite decide_True by (rewrite !length_app; lia).
  rewrite Nat2Z.id.
  replace (Z.to_nat (Z.of_nat (length pre) + Z.of_nat (length mid) - 1))
    with (length pre + length mid - 1)%nat by lia.
  rewrite take_app_length, drop_app_length.
  replace (S (length pre + length mid - 1) - length pre)%nat
    with (length mid) by lia.
  rewrite take_app_length.
  replace (S (length pre + length mid - 1)) with (length pre + length mid)%nat by lia.
  rewrite drop_app_add', drop_app_length; [done | done].
Qed.

(** ** Hit-stream reversal *)

Lemma reverse_block_instructions b :
  reverse (block_instructions b) = reversed_block b.
Proof.
  unfold block_instructions, reversed_block.
  by rewrite reverse_cons, reverse_app, reverse_singleton.
Qed.

Lemma reverse_stream_of_blocks bs :
  reverse (stream_of_blocks bs) = concat (reversed_block <$> reverse bs).
Proof.
  unfold stream_of_blocks. induction bs as [|b bs IH]; [done|].
  rewrite fmap_cons, concat_cons, reverse_app, IH, reverse_cons, fmap_app, concat_app.
  simpl. by rewrite app_nil_r, reverse_block_instructions.
Qed.

(** Drawing instructions are stepped over: the cursor advances, nothing
    else changes. *)
Lemma reverse_blocks_loop_drawing body : forall pre post todo begin,
  Forall (fun ins => is_drawing ins = true) body ->
  reverse_blocks_loop (length body + todo) (Z.of_nat (length pre)) begin
    (pre ++ body ++ post)
  = reverse_blocks_loop todo (Z.of_nat (length pre) + Z.of_nat (length body)) begin
    (pre ++ body ++ post).
Proof.
  induction body as [|ins body IH]; intros pre post todo begin Hok.
  - simpl. by rewrite Z.add_0_r.
  - inversion Hok as [|? ? Hins Hbody]; subst.
    change (length (ins :: body) + todo)%nat with (S (length body + todo)).
    cbn [reverse_blocks_loop].
    change ((ins :: body) ++ post) with (ins :: body ++ post).
    rewrite zlookup_middle.
    assert (Hstep : forall k, reverse_blocks_loop k
              (Z.of_nat (length pre) + 1) begin (pre ++ ins :: body ++ post)
            = reverse_blocks_loop k
              (Z.of_nat (length (pre ++ [ins]))) begin ((pre ++ [ins]) ++ body ++ post)).
    { intros k. rewrite length_app, <- app_assoc. simpl. f_equal. lia. }
    unfold is_drawing in Hins.
    destruct (itype ins) as [[]|] eqn:Hty; try discriminate Hins;
      rewrite Hstep, IH by done;
      rewrite length_app, <- app_assoc; simpl; f_equal; lia.
Qed.

(** One reversed block is put back in forward order and its BEGIN_GEOMETRY
    is pointed at its END_GEOMETRY. *)
Lemma reverse_blocks_loop_block b pre post todo begin :
  block_ok b ->
  reverse_blocks_loop (length (reversed_block b) + todo) (Z.of_nat (length pre)) begin
    (pre ++ reversed_block b ++ post)
  = reverse_blocks_loop todo
      (Z.of_nat (length pre) + Z.of_nat (length (b_body b)) + 2) (-1)
      (pre ++ block_instructions
         {| b_feature := b_feature b;
            b_skip := Z.of_nat (length pre) + Z.of_nat (length (b_body b)) + 1;
            b_body := b_body b;
            b_end_feature := b_end_feature b |} ++ post).
Proof.
  intros Hok. unfold reversed_block at 1.
  cbn [length]. rewrite length_app, length_reverse. cbn [length].
  replace (S (length (b_body b) + 1) + todo)%nat
    with (S (length (reverse (b_body b)) + S todo))
    by (rewrite length_reverse; lia).
  cbn [reverse_blocks_loop].
  unfold reversed_block.
  change ((?x :: ?l) ++ post) with (x :: l ++ post).
  rewrite zlookup_middle. cbn [itype].
  set (e := IEndGeometry (b_end_feature b)).
  set (bg := IBeginGeometry (b_feature b) (b_skip b)).
  assert (Hshape : pre ++ e :: (reverse (b_body b) ++ [bg]) ++ post
                 = (pre ++ [e]) ++ reverse (b_body b) ++ (bg :: post)).
  { rewrite <- !app_assoc. done. }
  rewrite Hshape.
  replace (Z.of_nat (length pre) + 1) with (Z.of_nat (length (pre ++ [e])))
    by (rewrite length_app; simpl; lia).
  rewrite reverse_blocks_loop_drawing
    by (apply Forall_reverse, Hok).
  cbn [reverse_blocks_loop].
  assert (Hshape2 : (pre ++ [e]) ++ reverse (b_body b) ++ bg :: post
                  = (pre ++ [e] ++ reverse (b_body b)) ++ bg :: post).
  { by rewrite <- !app_assoc. }
  rewrite Hshape2.
  replace (Z.of_nat (length (pre ++ [e])) + Z.of_nat (length (reverse (b_body b))))
    with (Z.of_nat (length (pre ++ [e] ++ reverse (b_body b))))
    by (rewrite !length_app; simpl; lia).
  rewrite zlookup_middle. subst bg. cbn [itype set_skip].
  rewrite Nat2Z.id.
  rewrite insert_at_middle.
  set (i := Z.of_nat (length (pre ++ [e] ++ reverse (b_body b)))).
  set (bg' := IBeginGeometry (b_feature b) i).
  assert (Hi : i = Z.of_nat (length pre) + Z.of_nat (length (b_body b)) + 1).
  { subst i. rewrite !length_app, length_reverse. simpl. lia. }
  assert (Hshape3 : (pre ++ [e] ++ reverse (b_body b)) ++ bg' :: post
                  = pre ++ (e :: reverse (b_body b) ++ [bg']) ++ post).
  { rewrite <- !app_assoc. simpl. by rewrite <- app_assoc. }
  rewrite Hshape3.
  replace i with (Z.of_nat (length pre)
                  + Z.of_nat (length (e :: reverse (b_body b) ++ [bg'])) - 1) at 2
    by (cbn [length]; rewrite length_app, length_reverse; simpl; lia).
  rewrite reverseSubArray_middle
    by (cbn [length]; rewrite length_app; simpl; lia).
  rewrite reverse_cons, reverse_app, reverse_involutive. simpl.
  unfold block_instructions; simpl. subst bg'. rewrite <- Hi.
  rewrite <- app_assoc. simpl.
  f_equal; [lia|]. by rewrite <- app_assoc.
Qed.

Lemma length_reversed_block b :
  length (reversed_block b) = (length (b_body b) + 2)%nat.
Proof.
  unfold reversed_block. cbn [length]. rewrite length_app, length_reverse.
  simpl. lia.
Qed.

Lemma length_block_instructions b :
  length (block_instructions b) = (length (b_body b) + 2)%nat.
Proof.
  unfold block_instructions. cbn [length]. rewrite length_app. simpl. lia.
Qed.

(** Step 2 on a sequence of reversed blocks lying behind [pre]. *)
Lemma reverse_blocks_loop_blocks rs : forall pre,
  Forall block_ok rs ->
  reverse_blocks_loop (length (concat (reversed_block <$> rs)))
    (Z.of_nat (length pre)) (-1) (pre ++ concat (reversed_block <$> rs))
  = pre ++ stream_of_blocks (relocate (Z.of_nat (length pre)) rs).
Proof.
  induction rs as [|b rs IH]; intros pre Hok.
  - done.
  - inversion Hok as [|? ? Hb Hrs]; subst.
    rewrite fmap_cons, concat_cons, length_app.
    rewrite reverse_blocks_loop_block by done.
    cbn [relocate]. unfold stream_of_blocks.
    rewrite fmap_cons, concat_cons.
    set (b' := {| b_feature := b_feature b;
                  b_skip := Z.of_nat (length pre) + Z.of_nat (length (b_body b)) + 1;
                  b_body := b_body b; b_end_feature := b_end_feature b |}).
    rewrite (app_assoc pre).
    replace (Z.of_nat (length pre) + Z.of_nat (length (b_body b)) + 2)
      with (Z.of_nat (length (pre ++ block_instructions b')))
      by (rewrite length_app, length_block_instructions; simpl; lia).
    rewrite IH by done.
    by rewrite <- app_assoc.
Qed.

Lemma reverseHitDetectionInstructions_relocate bs :
  Forall block_ok bs ->
  reverseHitDetectionInstructions (stream_of_blocks bs)
  = stream_of_blocks (relocate 0 (reverse bs)).
Proof.
  intros Hok. unfold reverseHitDetectionInstructions. cbv zeta.
  rewrite reverse_stream_of_blocks.
  apply (reverse_blocks_loop_blocks (reverse bs) []).
  by apply Forall_reverse.
Qed.

Lemma relocate_content bs : forall off,
  block_content <$> relocate off bs = block_content <$> bs.
Proof.
  induction bs as [|b bs IH]; intros off; [done|].
  cbn [relocate]. rewrite !fmap_cons, IH. done.
Qed.

(** In a relocated stream, block [j] starts where the blocks before it
    end, and its skip index is the index of its END_GEOMETRY. *)
Lemma relocate_positions bs : forall pre j b,
  relocate (Z.of_nat (length pre)) bs !! j = Some b ->
  let stream := pre ++ stream_of_blocks (relocate (Z.of_nat (length pre)) bs) in
  let start := Z.of_nat (length (pre ++ stream_of_blocks
                  (take j (relocate (Z.of_nat (length pre)) bs)))) in
  zlookup stream start = Some (IBeginGeometry (b_feature b) (b_skip b))
  /\ b_skip b = start + Z.of_nat (length (b_body b)) + 1
  /\ zlookup stream (b_skip b) = Some (IEndGeometry (b_end_feature b)).
Proof.
  induction bs as [|b0 bs IH]; intros pre j b Hj; [done|].
  cbn [relocate] in *.
  set (b' := {| b_feature := b_feature b0;
                b_skip := Z.of_nat (length pre) + Z.of_nat (length (b_body b0)) + 1;
                b_body := b_body b0; b_end_feature := b_end_feature b0 |}) in *.
  replace (Z.of_nat (length pre) + Z.of_nat (length (b_body b0)) + 2)
    with (Z.of_nat (length (pre ++ block_instructions b'))) in *
    by (rewrite length_app, length_block_instructions; simpl; lia).
  destruct j as [|j].
  - simpl in Hj. inversion Hj; subst b. cbv zeta.
    unfold stream_of_blocks. rewrite take_0. simpl.
    rewrite app_nil_r.
    split; [|split].
    + by rewrite zlookup_middle.
    + done.
    + set (x := IBeginGeometry _ _). set (y := IEndGeometry _).
      match goal with
      | |- zlookup (pre ++ x :: (_ ++ [y]) ++ ?r) _ = _ => generalize r; intros rest
      end.
      assert (Hshape : pre ++ x :: (b_body b0 ++ [y]) ++ rest
                     = (pre ++ x :: b_body b0) ++ y :: rest).
      { by rewrite <- !app_assoc. }
      rewrite Hshape.
      replace (Z.of_nat (length pre) + Z.of_nat (length (b_body b0)) + 1)
        with (Z.of_nat (length (pre ++ x :: b_body b0)))
        by (rewrite length_app; simpl; lia).
      by rewrite zlookup_middle.
  - simpl in Hj. cbv zeta.
    specialize (IH (pre ++ block_instructions b') j b Hj). cbv zeta in IH.
    unfold stream_of_blocks in *.
    rewrite firstn_cons, !fmap_cons, !concat_cons.
    rewrite !(app_assoc pre). exact IH.
Qed.

(** C2: for every hit-detection stream made of N well-formed feature
    blocks (BEGIN_GEOMETRY, drawing instructions, END_GEOMETRY),
    [reverseHitDetectionInstructions] yields a stream of N blocks whose
    contents are those of the original blocks in exactly reversed block
    order, every block keeping its internal instruction order, and in which
    the skip field of each BEGIN_GEOMETRY is the index of the END_GEOMETRY of
    its own block. *)
Theorem reverseHitDetectionInstructions_blocks (bs : list Block) :
  Forall block_ok bs ->
  exists bs' : list Block,
    let result := reverseHitDetectionInstructions (stream_of_blocks bs) in
    result = stream_of_blocks bs'
    /\ block_content <$> bs' = reverse (block_content <$> bs)
    /\ forall j b, bs' !! j = Some b ->
         let start := Z.of_nat (length (stream_of_blocks (take j bs'))) in
         zlookup result start = Some (IBeginGeometry (b_feature b) (b_skip b))
         /\ b_skip b = start + Z.of_nat (length (b_body b)) + 1
         /\ zlookup result (b_skip b) = Some (IEndGeometry (b_end_feature b)).
Proof.
  intros Hok. exists (relocate 0 (reverse bs)). cbv zeta.
  rewrite reverseHitDetectionInstructions_relocate by done.
  split; [done|]. split.
  - by rewrite relocate_content, fmap_reverse.
  - intros j b Hj.
    exact (relocate_positions (reverse bs) [] j b Hj).
Qed.

(** ** The coordinate clipper *)

Lemma array_set_end {A} (arr : list (option A)) (v : option A) :
  array_set arr (Z.of_nat (length arr)) v = arr ++ [v].
Proof.
  unfold array_set. rewrite decide_False by lia.
  rewrite decide_False by lia.
  replace (Z.to_nat (Z.of_nat (length arr)) - length arr)%nat with O by lia.
  done.
Qed.

Lemma put_coord_end coords c :
  put_coord coords (Z.of_nat (length coords)) c
  = (coords ++ flat_point c, Z.of_nat (length (coords ++ flat_point c))).
Proof.
  unfold put_coord, flat_point. rewrite array_set_end.
  replace (Z.of_nat (length coords) + 1) with (Z.of_nat (length (coords ++ [c.1])))
    by (rewrite length_app; simpl; lia).
  rewrite array_set_end, <- app_assoc. simpl.
  f_equal. rewrite length_app. simpl. lia.
Qed.

Lemma adjacent_in_app out extra p q :
  adjacent_in out p q -> adjacent_in (out ++ extra) p q.
Proof.
  intros (pre & post & ->). exists pre, (post ++ extra).
  by rewrite <- !app_assoc.
Qed.

Section BuilderProofs.
Context {ops : ExtentOps}.

(** The body of the loop carries the invariant from point [m] to point
    [m + 1]. *)
Lemma appendFlatCoordinates_body_inv extent fc off stride base m st out :
  append_inv extent fc off stride base m st out ->
  exists out',
    append_inv extent fc off stride base (S m)
      (appendFlatCoordinates_body extent fc stride st) out'.
Proof.
  intros [Hi Hc Hend Hlast Hrel Hfirst Hlen Htail Htrans].
  unfold appendFlatCoordinates_body.
  rewrite Hi.
  change (zlookup fc (off + Z.of_nat (S m) * stride),
          zlookup fc (off + Z.of_nat (S m) * stride + 1))
    with (input_point fc off stride (S m)).
  set (p := input_point fc off stride m) in *.
  set (q := input_point fc off stride (S m)) in *.
  assert (Hnexti : off + Z.of_nat (S m) * stride + stride
                   = off + Z.of_nat (S (S m)) * stride) by lia.
  destruct (decide (Some (coordinateRelationship extent q) <> as_lastRel st))
    as [Hne|He].
  - (* a transition, or the first pass *)
    destruct (as_skipped st) eqn:Hsk.
    + rewrite Hc, Hend, Hlast, put_coord_end, put_coord_end.
      exists ((out ++ flat_point p) ++ flat_point q).
      split; cbn [as_i as_coordinates as_myEnd as_lastCoord as_lastRel as_skipped].
      * exact Hnexti.
      * by rewrite <- !app_assoc.
      * by rewrite <- !app_assoc.
      * done.
      * done.
      * discriminate.
      * rewrite !length_app. simpl. simpl in Hlen. lia.
      * intros _. exists (out ++ flat_point p). done.
      * intros k Hk Hd.
        destruct (decide (k = m)) as [->|Hkm].
        -- exists out, []. by rewrite <- !app_assoc, app_nil_r.
        -- rewrite <- app_assoc. apply adjacent_in_app, Htrans; [lia|done].
    + destruct (Htail eq_refl) as [pre Hpre].
      rewrite Hc, Hend, put_coord_end.
      exists (out ++ flat_point q).
      split; cbn [as_i as_coordinates as_myEnd as_lastCoord as_lastRel as_skipped].
      * exact Hnexti.
      * by rewrite <- !app_assoc.
      * by rewrite <- !app_assoc.
      * done.
      * done.
      * discriminate.
      * rewrite !length_app. simpl. simpl in Hlen. lia.
      * intros _. exists out. done.
      * intros k Hk Hd.
        destruct (decide (k = m)) as [->|Hkm].
        -- exists pre, []. rewrite Hpre. by rewrite <- !app_assoc, app_nil_r.
        -- apply adjacent_in_app, Htrans; [lia|done].
  - (* the same relationship as the point before *)
    assert (Hsame : as_lastRel st = Some (coordinateRelationship extent q)).
    { destruct (decide (as_lastRel st = Some (coordinateRelationship extent q)));
        [done|]. exfalso. apply He. congruence. }
    assert (Hm : m <> O).
    { intros ->. rewrite Hrel in Hsame. discriminate. }
    assert (Hpq : coordinateRelationship extent p = coordinateRelationship extent q).
    { destruct m; [done|]. rewrite Hrel in Hsame. by inversion Hsame. }
    assert (Hold : forall k out', (k < S m)%nat ->
              (forall k', (k' < m)%nat ->
                coordinateRelationship extent (input_point fc off stride k')
                <> coordinateRelationship extent (input_point fc off stride (S k')) ->
                adjacent_in out' (input_point fc off stride k')
                  (input_point fc off stride (S k'))) ->
              coordinateRelationship extent (input_point fc off stride k)
              <> coordinateRelationship extent (input_point fc off stride (S k)) ->
              adjacent_in out' (input_point fc off stride k)
                (input_point fc off stride (S k))).
    { intros k out' Hk Hprev Hd.
      destruct (decide (k = m)) as [->|Hkm]; [by destruct Hd|].
      apply Hprev; [lia|done]. }
    destruct (decide (coordinateRelationship extent q = Relationship_INTERSECTING))
      as [Hint|Hout].
    + rewrite Hc, Hend, put_coord_end.
      exists (out ++ flat_point q).
      split; cbn [as_i as_coordinates as_myEnd as_lastCoord as_lastRel as_skipped].
      * exact Hnexti.
      * by rewrite <- !app_assoc.
      * by rewrite <- !app_assoc.
      * done.
      * done.
      * discriminate.
      * rewrite !length_app. simpl.
        destruct (as_skipped st); simpl in Hlen; lia.
      * intros _. exists out. done.
      * intros k Hk Hd. apply Hold; [done| |done].
        intros k' Hk' Hd'. by apply adjacent_in_app, Htrans.
    + exists out.
      split; cbn [as_i as_coordinates as_myEnd as_lastCoord as_lastRel as_skipped].
      * exact Hnexti.
      * done.
      * done.
      * done.
      * done.
      * discriminate.
      * destruct (as_skipped st); simpl in Hlen; lia.
      * discriminate.
      * intros k Hk Hd. apply Hold; [done| |done]. exact Htrans.
Qed.

Lemma appendFlatCoordinates_loop_inv extent fc off stride base end_ :
  0 < stride ->
  forall r fuel m st out,
  append_inv extent fc off stride base m st out ->
  end_ = off + Z.of_nat (S m + r) * stride ->
  (r <= fuel)%nat ->
  exists st' out',
    appendFlatCoordinates_loop fuel extent fc end_ stride st = Ret st'
    /\ append_inv extent fc off stride base (m + r) st' out'.
Proof.
  intros Hstride r. induction r as [|r IH]; intros fuel m st out Hinv Hend Hfuel.
  - exists st, out. rewrite Nat.add_0_r in *. split; [|done].
    destruct fuel; simpl; rewrite decide_False; try done;
      rewrite (inv_i _ _ _ _ _ _ _ _ Hinv); lia.
  - destruct fuel as [|fuel]; [lia|].
    simpl. rewrite decide_True by (rewrite (inv_i _ _ _ _ _ _ _ _ Hinv); nia).
    destruct (appendFlatCoordinates_body_inv _ _ _ _ _ _ _ _ Hinv) as [out1 Hinv1].
    destruct (IH fuel (S m) _ out1 Hinv1) as (st' & out' & Hrun & Hinv');
      [rewrite Hend; f_equal; f_equal; lia | lia |].
    exists st', out'. split; [done|].
    by replace (m + S r)%nat with (S m + r)%nat by lia.
Qed.

Lemma getBufferedMaxExtent_coordinates b :
  coordinates (snd (getBufferedMaxExtent b)) = coordinates b.
Proof. unfold getBufferedMaxExtent. by destruct (bufferedMaxExtent_ b). Qed.

(** What [appendFlatCoordinates] does on a stream of [n >= 1] points. *)
Lemma appendFlatCoordinates_points fuel b fc (offset end_ stride : Z)
    (closed skipFirst : bool) (n : nat) :
  let off := if skipFirst then offset + stride else offset in
  let extent := fst (getBufferedMaxExtent b) in
  0 < stride ->
  (1 <= n)%nat ->
  end_ = off + Z.of_nat n * stride ->
  (n <= fuel)%nat ->
  exists myEnd b' out,
    appendFlatCoordinates fuel b fc offset end_ stride closed skipFirst = Ret (myEnd, b')
    /\ coordinates b' = coordinates b ++ out
    /\ instructions b' = instructions b
    /\ hitDetectionInstructions b' = hitDetectionInstructions b
    /\ myEnd = Z.of_nat (length (coordinates b'))
    /\ (length out <= 2 * n)%nat
    /\ forall k, (S k < n)%nat ->
         coordinateRelationship extent (input_point fc off stride k)
         <> coordinateRelationship extent (input_point fc off stride (S k)) ->
         adjacent_in out (input_point fc off stride k) (input_point fc off stride (S k)).
Proof.
  intros off extent Hstride Hn Hend Hfuel.
  unfold appendFlatCoordinates.
  pose proof (getBufferedMaxExtent_coordinates b) as Hcoords.
  assert (Hins : instructions (snd (getBufferedMaxExtent b)) = instructions b)
    by (unfold getBufferedMaxExtent; by destruct (bufferedMaxExtent_ b)).
  assert (Hhit : hitDetectionInstructions (snd (getBufferedMaxExtent b))
                 = hitDetectionInstructions b)
    by (unfold getBufferedMaxExtent; by destruct (bufferedMaxExtent_ b)).
  subst extent.
  destruct (getBufferedMaxExtent b) as [extent b1]. simpl in Hcoords, Hins, Hhit.
  cbn [fst].
  fold off.
  set (st0 := {| as_i := off + stride;
                 as_myEnd := Z.of_nat (length (coordinates b));
                 as_lastCoord := (zlookup fc off, zlookup fc (off + 1));
                 as_lastRel := None; as_skipped := true;
                 as_coordinates := coordinates b1 |}).
  assert (Hinv0 : append_inv extent fc off stride (coordinates b) 0 st0 []).
  { split; simpl; try done; try lia; rewrite ?app_nil_r; try done.
    unfold input_point. simpl. by rewrite Z.add_0_r. }
  destruct (appendFlatCoordinates_loop_inv extent fc off stride (coordinates b) end_
              Hstride (n - 1) fuel 0%nat st0 [] Hinv0) as (st' & out' & Hrun & Hinv');
    [rewrite Hend; f_equal; f_equal; lia | lia |].
  rewrite Hrun. cbn [rbind].
  destruct Hinv' as [Hi Hc Hme Hlast Hrel Hfirst Hlen Htail Htrans].
  simpl in Hi, Hlast, Hfirst, Hlen, Htail, Htrans.
  assert (Hcases : (n = 1)%nat \/ (2 <= n)%nat) by lia.
  destruct Hcases as [->|Hn2].
  - (* a single point: the loop did not run *)
    destruct (Hfirst eq_refl) as [Hsk ->].
    rewrite orb_true_intro; cycle 1.
    { right. apply bool_decide_eq_true. rewrite Hi. simpl. lia. }
    rewrite Hc, Hme, put_coord_end, Hlast.
    eexists _, _, (flat_point (input_point fc off stride 0)).
    split; [reflexivity|]. simpl. rewrite app_nil_r.
    repeat split; try done. intros k Hk. lia.
  - replace (bool_decide (as_i st' = off + stride)) with false; cycle 1.
    { symmetry. apply bool_decide_eq_false. rewrite Hi. nia. }
    rewrite orb_false_r.
    destruct (closed && as_skipped st') eqn:Hclosed.
    + apply andb_true_iff in Hclosed as [_ Hsk]. rewrite Hsk in Hlen.
      rewrite Hc, Hme, put_coord_end.
      eexists _, _, (out' ++ flat_point (as_lastCoord st')).
      split; [reflexivity|]. simpl. rewrite <- app_assoc.
      repeat split; try done.
      * rewrite length_app. simpl. lia.
      * intros k Hk Hd. apply adjacent_in_app, Htrans; [lia|done].
    + eexists _, _, out'.
      split; [reflexivity|]. simpl.
      repeat split; try done.
      * by rewrite Hme, Hc.
      * destruct (as_skipped st'); lia.
      * intros k Hk Hd. apply Htrans; [lia|done].
Qed.

End BuilderProofs.

Lemma example_blocks_ok : Forall block_ok example_blocks.
Proof. repeat constructor. Qed.

Lemma reverseHitDetectionInstructions_blocks_witness :
  Forall block_ok example_blocks
  /\ exists bs' : list Block,
       reverseHitDetectionInstructions (stream_of_blocks example_blocks)
       = stream_of_blocks bs'
       /\ block_content <$> bs' = reverse (block_content <$> example_blocks).
Proof.
  split; [exact example_blocks_ok|].
  destruct (reverseHitDetectionInstructions_blocks example_blocks example_blocks_ok)
    as (bs' & Hres & Hcontent & _).
  exists bs'. split; [exact Hres | exact Hcontent].
Defined.

(** ** Line strings without a stroke *)

(** C7: when the stroke style or the line width of the builder's state is
    undefined, [drawLineString] and [drawMultiLineString] return at once:
    the builder, and with it the render instructions, the hit-detection
    instructions and the coordinate buffer, is exactly as before. *)
Theorem drawLineString_without_stroke {ops : ExtentOps} (fuel : nat) (b : CanvasBuilder)
    (geometry : Geometry) (feature : Feature) :
  strokeStyle (state b) = None \/ lineWidth (state b) = None ->
  exists b1 b2,
    drawLineString fuel b geometry feature = Ret b1
    /\ drawMultiLineString fuel b geometry feature = Ret b2
    /\ b1 = b /\ b2 = b
    /\ instructions b1 = instructions b
    /\ hitDetectionInstructions b1 = hitDetectionInstructions b
    /\ coordinates b1 = coordinates b
    /\ instructions b2 = instructions b
    /\ hitDetectionInstructions b2 = hitDetectionInstructions b
    /\ coordinates b2 = coordinates b.
Proof.
  intros Hundef. exists b, b.
  unfold drawLineString, drawMultiLineString.
  destruct Hundef as [-> | Hw].
  - repeat split; done.
  - rewrite Hw. destruct (strokeStyle (state b)); repeat split; done.
Qed.

Lemma drawLineString_without_stroke_witness :
  (strokeStyle (state example_builder) = None \/ lineWidth (state example_builder) = None)
  /\ exists b1 b2,
       drawLineString (ops := ol_extent) 10 example_builder example_geometry feature_a = Ret b1
       /\ drawMultiLineString (ops := ol_extent) 10 example_builder example_geometry feature_a = Ret b2
       /\ b1 = example_builder /\ b2 = example_builder.
Proof.
  split; [by left|].
  destruct (drawLineString_without_stroke (ops := ol_extent) 10 example_builder
              example_geometry feature_a (or_introl eq_refl))
    as (b1 & b2 & H1 & H2 & E1 & E2 & _).
  exists b1, b2. repeat split; assumption.
Defined.

(** ** Skipping feature blocks during replay *)

Section ExecutorProofs.
Context {ops : ExtentOps} {fops : ForeignReplay} {T : Type}.

Lemma execute_loop_step fuel (env : ReplayEnv (T := T)) st instruction st' :
  zlookup (re_instructions env) (rs_i st) = Some instruction ->
  execute_instruction env instruction st = Continue st' ->
  execute_loop (S fuel) env st = execute_loop fuel env st'.
Proof.
  intros Hlook Hstep. cbn [execute_loop].
  assert (Hlt : rs_i st < Z.of_nat (length (re_instructions env))).
  { unfold zlookup in Hlook. destruct (decide (0 <= rs_i st)); [|done].
    apply lookup_lt_Some in Hlook. lia. }
  rewrite decide_True by done. by rewrite Hlook, Hstep.
Qed.

Lemma zlookup_block_begin (pre post : list Instruction) b :
  zlookup (pre ++ block_instructions b ++ post) (Z.of_nat (length pre))
  = Some (IBeginGeometry (b_feature b) (b_skip b)).
Proof. unfold block_instructions. simpl. by rewrite zlookup_middle. Qed.

Lemma zlookup_block_end (pre post : list Instruction) b :
  zlookup (pre ++ block_instructions b ++ post)
    (Z.of_nat (length pre) + Z.of_nat (length (b_body b)) + 1)
  = Some (IEndGeometry (b_end_feature b)).
Proof.
  unfold block_instructions.
  set (x := IBeginGeometry _ _). set (y := IEndGeometry _).
  assert (Hshape : pre ++ (x :: b_body b ++ [y]) ++ post
                 = (pre ++ x :: b_body b) ++ y :: post).
  { rewrite <- !app_assoc. simpl. by rewrite <- app_assoc. }
  rewrite Hshape.
  replace (Z.of_nat (length pre) + Z.of_nat (length (b_body b)) + 1)
    with (Z.of_nat (length (pre ++ x :: b_body b)))
    by (rewrite length_app; simpl; lia).
  by rewrite zlookup_middle.
Qed.

(** C9 (amended): in a replay with a hit extent, on a feature block whose
    BEGIN_GEOMETRY points at its END_GEOMETRY and whose feature has a
    geometry: if the feature is not skipped and its extent does not
    intersect the hit extent, the cursor goes from the BEGIN_GEOMETRY to one
    past the END_GEOMETRY, the replay going on behind the block with the
    surface and the list of called-back features untouched; if the feature
    is listed in skippedFeaturesHash, whatever its extent, the cursor goes
    to the END_GEOMETRY itself, and the next pass calls the feature callback
    on the feature of that instruction. *)
Theorem hit_extent_block_skip (env : ReplayEnv (T := T)) (st : ReplayState)
    (pre post : list Instruction) (b : Block) (geometry : Geometry) (fuel : nat) :
  re_instructions env = pre ++ block_instructions b ++ post ->
  rs_i st = Z.of_nat (length pre) ->
  b_skip b = Z.of_nat (length pre) + Z.of_nat (length (b_body b)) + 1 ->
  getGeometry (b_feature b) = Some geometry ->
  (forall hitExtent,
     re_hitExtent env = Some hitExtent ->
     is_skipped env (b_feature b) = false ->
     intersects hitExtent (getExtent geometry) = false ->
     execute_instruction env (IBeginGeometry (b_feature b) (b_skip b)) st
     = Continue (set_cursor st (b_skip b + 1))
     /\ execute_loop (S fuel) env st
        = execute_loop fuel env
            (set_cursor st (Z.of_nat (length (pre ++ block_instructions b)))))
  /\ (forall featureCallback,
        re_featureCallback env = Some featureCallback ->
        is_skipped env (b_feature b) = true ->
        execute_instruction env (IBeginGeometry (b_feature b) (b_skip b)) st
        = Continue (set_cursor st (b_skip b))
        /\ execute_loop (S (S fuel)) env st
           = let '(result, calls) := featureCallback (b_end_feature b) (rs_context st) in
             let st1 := set_callbacks (set_context (set_cursor st (b_skip b)) calls)
                          (rs_callbacks st ++ [b_end_feature b]) in
             match result with
             | Some r => Ret (Some r, st1)
             | None => execute_loop fuel env (next st1)
             end).
Proof.
  intros Hins Hi Hskip Hgeom. split.
  - intros hitExtent Hhit Hns Hni.
    assert (Hstep : execute_instruction env (IBeginGeometry (b_feature b) (b_skip b)) st
                    = Continue (set_cursor st (b_skip b + 1))).
    { cbn [execute_instruction]. unfold begin_geometry.
      by rewrite Hns, Hgeom, Hhit, Hni. }
    split; [done|].
    rewrite (execute_loop_step fuel env st _ _ ltac:(rewrite Hins, Hi; apply zlookup_block_begin) Hstep).
    do 2 f_equal. rewrite Hskip, length_app, length_block_instructions. lia.
  - intros featureCallback Hcb Hsk.
    assert (Hstep : execute_instruction env (IBeginGeometry (b_feature b) (b_skip b)) st
                    = Continue (set_cursor st (b_skip b))).
    { cbn [execute_instruction]. unfold begin_geometry. by rewrite Hsk. }
    split; [done|].
    rewrite (execute_loop_step (S fuel) env st _ _ ltac:(rewrite Hins, Hi; apply zlookup_block_begin) Hstep).
    cbn [execute_loop]. cbn [set_cursor rs_i].
    rewrite decide_True; cycle 1.
    { rewrite Hins, Hskip, !length_app, length_block_instructions. lia. }
    rewrite Hins, Hskip, zlookup_block_end.
    cbn [execute_instruction]. unfold end_geometry. rewrite Hcb.
    cbn [rs_context set_cursor rs_callbacks].
    destruct (featureCallback (b_end_feature b) (rs_context st)) as [[r|] calls]; done.
Qed.

End ExecutorProofs.

Lemma hit_extent_block_skip_witness :
  let b := {| b_feature := feature_b; b_skip := 2; b_body := [IDrawImage 6 8];
              b_end_feature := feature_b |} in
  let st := initial_replay_state [] in
  execute_loop (ops := ol_extent) (fops := example_foreign) 1 example_hit_env_unskipped st
  = execute_loop (ops := ol_extent) (fops := example_foreign)
      0 example_hit_env_unskipped (set_cursor st 3)
  /\ execute_instruction (ops := ol_extent) (fops := example_foreign) example_hit_env
       (IBeginGeometry feature_b 2) st
     = Continue (set_cursor st 2).
Proof.
  intros b st.
  pose proof (hit_extent_block_skip (ops := ol_extent) (fops := example_foreign)
      example_hit_env_unskipped st
                [] [] b far_geometry 0 eq_refl eq_refl eq_refl eq_refl) as [Hfar _].
  pose proof (hit_extent_block_skip (ops := ol_extent) (fops := example_foreign)
      example_hit_env st
                [] [] b far_geometry 0 eq_refl eq_refl eq_refl eq_refl) as [_ Hskipped].
  split.
  - exact (proj2 (Hfar example_extent eq_refl eq_refl eq_refl)).
  - exact (proj1 (Hskipped _ eq_refl eq_refl)).
Defined.

(** A feature that is listed as skipped and whose extent does not
    intersect the hit extent: the cursor goes to the END_GEOMETRY, not past
    it, and the feature callback is called with the feature. *)
Lemma hit_extent_skipped_feature_counterexample :
  intersects (ExtentOps := ol_extent) example_extent (getExtent far_geometry) = false
  /\ execute_instruction (ops := ol_extent) (fops := example_foreign) example_hit_env
       (IBeginGeometry feature_b 2) (initial_replay_state [])
     = Continue (set_cursor (initial_replay_state []) 2)
  /\ exists st,
       execute_loop (ops := ol_extent) (fops := example_foreign)
           5 example_hit_env (initial_replay_state [])
       = Ret (None, st)
       /\ rs_callbacks st = [feature_b].
Proof.
  split; [reflexivity|]. split; [reflexivity|].
  eexists. split; reflexivity.
Qed.

(** ** Batched fills *)

(** Reading a field of a replay state after a sequence of field updates. *)
Ltac replay_fields :=
  cbn [next emit set_cursor set_pending set_prev set_context set_lastFill
       set_lastStrokeInstruction set_callbacks
       rs_i rs_pendingFill rs_pendingStroke rs_prev rs_lastFillInstruction
       rs_lastStrokeInstruction rs_alignFill_ rs_context rs_callbacks] in *.

Lemma fill_calls_app (l1 l2 : list ContextCall) :
  fill_calls (l1 ++ l2) = (fill_calls l1 + fill_calls l2)%nat.
Proof. unfold fill_calls. by rewrite filter_app, length_app. Qed.

Lemma fill_calls_snoc (l : list ContextCall) (c : ContextCall) :
  fill_calls (l ++ [c])
  = (fill_calls l + if decide (c = CtxFill) then 1 else 0)%nat.
Proof.
  rewrite fill_calls_app. unfold fill_calls at 2.
  rewrite filter_cons, filter_nil. by destruct (decide (c = CtxFill)).
Qed.

Lemma fill_calls_fill_ st :
  fill_calls (rs_context (fill_ st)) = S (fill_calls (rs_context st)).
Proof.
  unfold fill_. destruct (rs_alignFill_ st); simpl;
    rewrite fill_calls_app; unfold fill_calls at 2; simpl; lia.
Qed.

Lemma same_batch_refl st : same_batch st st.
Proof. by repeat split. Qed.

Lemma same_batch_trans st1 st2 st3 :
  same_batch st1 st2 -> same_batch st2 st3 -> same_batch st1 st3.
Proof.
  intros (?&?&?&?&?) (?&?&?&?&?). repeat split; congruence.
Qed.

Section BatchProofs.
Context {ops : ExtentOps} {fops : ForeignReplay} {T : Type}.

Lemma line_to_same_batch (env : ReplayEnv (T := T)) dd st d :
  same_batch st (line_to env dd st d) /\ rs_i (line_to env dd st d) = rs_i st.
Proof.
  unfold line_to.
  destruct (bool_decide (d = dd - 2) || _); [|by split; [apply same_batch_refl|]].
  split; [|done]. repeat split; simpl; try done.
  rewrite fill_calls_app. unfold fill_calls at 2. simpl. lia.
Qed.

Lemma foldl_line_to_same_batch (env : ReplayEnv (T := T)) dd ds : forall st,
  same_batch st (foldl (line_to env dd) st ds)
  /\ rs_i (foldl (line_to env dd) st ds) = rs_i st.
Proof.
  induction ds as [|d ds IH]; intros st; simpl.
  - split; [apply same_batch_refl|done].
  - destruct (IH (line_to env dd st d)) as [Hs Hi].
    destruct (line_to_same_batch env dd st d) as [Hs' Hi'].
    split; [by eapply same_batch_trans|congruence].
Qed.

(** A path instruction draws, moves the cursor on by one, and leaves the
    deferred fills alone. *)
Lemma path_instruction_step (env : ReplayEnv (T := T)) ins st :
  is_path_instruction ins = true ->
  exists st', execute_instruction env ins st = Continue st'
    /\ rs_i st' = rs_i st + 1 /\ same_batch st st'.
Proof.
  intros Hpath. destruct ins; try discriminate Hpath; cbn [execute_instruction].
  - eexists. split; [done|]. split; [done|].
    repeat split; simpl; try done.
    rewrite fill_calls_app. unfold fill_calls at 2. simpl. lia.
  - eexists. split; [done|]. split; [done|].
    repeat split; simpl; try done.
    rewrite fill_calls_app. unfold fill_calls at 2. simpl. lia.
  - eexists. split; [done|]. unfold move_to_line_to.
    set (st1 := if negb _ then _ else st).
    assert (H1 : same_batch st st1 /\ rs_i st1 = rs_i st).
    { subst st1. destruct (negb _); [|by split; [apply same_batch_refl|]].
      split; [|done]. repeat split; simpl; try done.
      rewrite fill_calls_app. unfold fill_calls at 2. simpl. lia. }
    destruct H1 as [Hs1 Hi1].
    destruct (foldl_line_to_same_batch env dd (line_to_indices d dd) st1) as [Hs2 Hi2].
    split; [simpl; congruence|].
    eapply same_batch_trans; [exact Hs1|].
    eapply same_batch_trans; [exact Hs2|].
    by repeat split.
Qed.

Lemma execute_loop_path (env : ReplayEnv (T := T)) path : forall pre post st fuel,
  re_instructions env = pre ++ path ++ post ->
  rs_i st = Z.of_nat (length pre) ->
  Forall (fun ins => is_path_instruction ins = true) path ->
  exists st',
    execute_loop (length path + fuel) env st = execute_loop fuel env st'
    /\ rs_i st' = Z.of_nat (length pre) + Z.of_nat (length path)
    /\ same_batch st st'.
Proof.
  induction path as [|ins path IH]; intros pre post st fuel Hins Hi Hok.
  - exists st. simpl. split; [done|]. split; [lia|apply same_batch_refl].
  - inversion Hok as [|? ? Hp Hrest]; subst.
    destruct (path_instruction_step env ins st Hp) as (st1 & Hstep & Hi1 & Hs1).
    destruct (IH (pre ++ [ins]) post st1 fuel) as (st' & Hrun & Hi' & Hs');
      [by rewrite Hins, <- app_assoc | rewrite length_app; simpl; lia | done |].
    exists st'. split; [|split].
    + change (length (ins :: path) + fuel)%nat with (S (length path + fuel)).
      rewrite (execute_loop_step _ env st ins st1); [done| |done].
      rewrite Hins, Hi. apply zlookup_middle.
    + rewrite Hi', length_app. simpl. lia.
    + by eapply same_batch_trans.
Qed.

Lemma fill__fields s :
  rs_i (fill_ s) = rs_i s
  /\ rs_pendingFill (fill_ s) = rs_pendingFill s
  /\ rs_pendingStroke (fill_ s) = rs_pendingStroke s
  /\ rs_alignFill_ (fill_ s) = rs_alignFill_ s
  /\ rs_callbacks (fill_ s) = rs_callbacks s.
Proof. unfold fill_. by destruct (rs_alignFill_ s) eqn:E. Qed.

(** BEGIN_PATH with no stroke pending: the deferred fills are flushed when
    they exceed the batch size. *)
Lemma begin_path_batch (env : ReplayEnv (T := T)) st :
  rs_pendingStroke st = 0 ->
  0 <= re_batchSize env ->
  rs_i (begin_path env st) = rs_i st + 1
  /\ rs_pendingStroke (begin_path env st) = 0
  /\ rs_pendingFill (begin_path env st)
     = (if decide (rs_pendingFill st > re_batchSize env) then 0 else rs_pendingFill st)
  /\ fill_calls (rs_context (begin_path env st))
     = (fill_calls (rs_context st)
        + if decide (rs_pendingFill st > re_batchSize env)%Z then 1 else 0)%nat
  /\ rs_alignFill_ (begin_path env st) = rs_alignFill_ st
  /\ rs_callbacks (begin_path env st) = rs_callbacks st.
Proof.
  intros Hps HB. unfold begin_path.
  destruct (fill__fields st) as (Fi & Fp & Fs & Fa & Fc).
  pose proof (fill_calls_fill_ st) as Ff.
  repeat case_decide; replay_fields;
    rewrite ?fill_calls_snoc, ?Ff, ?Fi, ?Fp, ?Fs, ?Fa, ?Fc in *;
    simpl; repeat split; try lia; try done.
Qed.

Lemma is_skipped_false (env : ReplayEnv (T := T)) feature :
  re_skippedFeaturesHash env !! getUid feature <> Some true ->
  is_skipped env feature = false.
Proof.
  intros Hne. unfold is_skipped.
  rewrite (bool_decide_eq_false_2 _ Hne). apply andb_false_r.
Qed.

Lemma length_fill_block_instructions fb :
  length (fill_block_instructions fb) = (length (fb_path fb) + 4)%nat.
Proof.
  unfold fill_block_instructions. cbn [length]. rewrite length_app. simpl. lia.
Qed.

(** The replay of one fill block. *)
Lemma execute_loop_fill_block (env : ReplayEnv (T := T)) fb pre post st fuel :
  re_instructions env = pre ++ fill_block_instructions fb ++ post ->
  re_featureCallback env = None ->
  re_hitExtent env = None ->
  0 <= re_batchSize env ->
  fill_block_ok (re_skippedFeaturesHash env) fb ->
  rs_i st = Z.of_nat (length pre) ->
  rs_pendingStroke st = 0 ->
  0 <= rs_pendingFill st ->
  (re_batchSize env = 0 -> rs_pendingFill st = 0) ->
  exists st',
    execute_loop (length (fill_block_instructions fb) + fuel) env st
    = execute_loop fuel env st'
    /\ rs_i st' = Z.of_nat (length (pre ++ fill_block_instructions fb))
    /\ rs_pendingStroke st' = 0
    /\ rs_pendingFill st'
       = pending_after_block (re_batchSize env) (rs_pendingFill st)
    /\ fill_calls (rs_context st')
       = (fill_calls (rs_context st)
          + flushes_of_block (re_batchSize env) (rs_pendingFill st))%nat
    /\ rs_callbacks st' = rs_callbacks st.
Proof.
  intros Hins Hcb Hhit HB (Hgeom & Hskip & Hpath) Hi Hps Hpf HB0.
  rewrite length_fill_block_instructions.
  replace (length (fb_path fb) + 4 + fuel)%nat
    with (S (S (length (fb_path fb) + S (S fuel)))) by lia.
  unfold fill_block_instructions in Hins.
  (* BEGIN_GEOMETRY *)
  rewrite (execute_loop_step _ env st (IBeginGeometry (fb_feature fb) (fb_skip fb))
             (next st)); cycle 1.
  { rewrite Hins, Hi. apply zlookup_middle. }
  { cbn [execute_instruction]. unfold begin_geometry.
    rewrite is_skipped_false by done.
    rewrite bool_decide_eq_true_2 by done. simpl. by rewrite Hhit. }
  (* BEGIN_PATH *)
  set (st2 := begin_path env (next st)).
  assert (H2 : rs_i st2 = Z.of_nat (length pre) + 2
               /\ rs_pendingStroke st2 = 0
               /\ rs_pendingFill st2
                  = (if decide (rs_pendingFill st > re_batchSize env) then 0
                     else rs_pendingFill st)
               /\ fill_calls (rs_context st2)
                  = (fill_calls (rs_context st)
                     + if decide (rs_pendingFill st > re_batchSize env)%Z then 1 else 0)%nat
               /\ rs_alignFill_ st2 = rs_alignFill_ st
               /\ rs_callbacks st2 = rs_callbacks st).
  { subst st2.
    destruct (begin_path_batch env (next st)) as (E1 & E2 & E3 & E4 & E5 & E6);
      [done|done|].
    cbn [next set_cursor rs_i rs_pendingFill rs_context rs_alignFill_ rs_callbacks] in *.
    rewrite E1, E2, E3, E4, E5, E6. repeat split; lia. }
  destruct H2 as (Hi2 & Hps2 & Hpf2 & Hfc2 & Hal2 & Hcb2).
  rewrite (execute_loop_step _ env (next st) IBeginPath st2); cycle 1.
  { rewrite Hins. cbn [next set_cursor rs_i]. rewrite Hi.
    change (pre ++ (?x :: IBeginPath :: ?l) ++ post)
      with (pre ++ x :: IBeginPath :: l ++ post).
    replace (Z.of_nat (length pre) + 1) with (Z.of_nat (length (pre ++ [IBeginGeometry (fb_feature fb) (fb_skip fb)])))
      by (rewrite length_app; simpl; lia).
    rewrite (cons_middle _ pre), app_assoc. apply zlookup_middle. }
  { done. }
  (* the path *)
  set (pre2 := pre ++ [IBeginGeometry (fb_feature fb) (fb_skip fb); IBeginPath]).
  destruct (execute_loop_path env (fb_path fb) pre2
              ([IFill; IEndGeometry (fb_feature fb)] ++ post) st2 (S (S fuel)))
    as (st3 & Hrun3 & Hi3 & Hs3 & Hss3 & Hal3 & Hfc3 & Hcb3).
  { rewrite Hins. subst pre2. rewrite <- !app_assoc. simpl.
    by rewrite <- app_assoc. }
  { subst pre2. rewrite length_app, Hi2. simpl. lia. }
  { done. }
  rewrite Hrun3.
  assert (Hlen2 : Z.of_nat (length pre2) = Z.of_nat (length pre) + 2).
  { subst pre2. rewrite length_app. simpl. lia. }
  (* FILL *)
  set (st4 := if decide (re_batchSize env <> 0)
              then next (set_pending st3 (rs_pendingFill st3 + 1) (rs_pendingStroke st3))
              else next (fill_ st3)).
  rewrite (execute_loop_step _ env st3 IFill st4); cycle 1.
  { rewrite Hins, Hi3.
    assert (Hshape : pre ++ (IBeginGeometry (fb_feature fb) (fb_skip fb) :: IBeginPath
                       :: fb_path fb ++ [IFill; IEndGeometry (fb_feature fb)]) ++ post
                   = (pre2 ++ fb_path fb) ++ IFill :: IEndGeometry (fb_feature fb) :: post).
    { subst pre2. rewrite <- !app_assoc. simpl. by rewrite <- app_assoc. }
    rewrite Hshape.
    replace (Z.of_nat (length pre2) + Z.of_nat (length (fb_path fb)))
      with (Z.of_nat (length (pre2 ++ fb_path fb))) by (rewrite length_app; lia).
    apply zlookup_middle. }
  { cbn [execute_instruction]. subst st4.
    destruct (decide (re_batchSize env <> 0)); reflexivity. }
  (* END_GEOMETRY *)
  assert (H4 : rs_i st4 = rs_i st3 + 1
               /\ rs_pendingStroke st4 = rs_pendingStroke st3
               /\ rs_pendingFill st4
                  = (if decide (re_batchSize env <> 0) then rs_pendingFill st3 + 1
                     else rs_pendingFill st3)
               /\ fill_calls (rs_context st4)
                  = (fill_calls (rs_context st3)
                     + if decide (re_batchSize env <> 0%Z) then 0 else 1)%nat
               /\ rs_callbacks st4 = rs_callbacks st3).
  { subst st4. destruct (fill__fields st3) as (Fi & Fp & Fs & Fa & Fc).
    pose proof (fill_calls_fill_ st3) as Ff.
    destruct (decide (re_batchSize env <> 0)); replay_fields;
      rewrite ?Ff, ?Fi, ?Fp, ?Fs, ?Fc; repeat split; lia. }
  destruct H4 as (Hi4 & Hps4 & Hpf4 & Hfc4 & Hcb4).
  rewrite (execute_loop_step _ env st4 (IEndGeometry (fb_feature fb)) (next st4)); cycle 1.
  { rewrite Hins, Hi4, Hi3.
    assert (Hshape : pre ++ (IBeginGeometry (fb_feature fb) (fb_skip fb) :: IBeginPath
                       :: fb_path fb ++ [IFill; IEndGeometry (fb_feature fb)]) ++ post
                   = (pre2 ++ fb_path fb ++ [IFill]) ++ IEndGeometry (fb_feature fb) :: post).
    { subst pre2. rewrite <- !app_assoc. simpl. by rewrite <- !app_assoc. }
    rewrite Hshape.
    replace (Z.of_nat (length pre2) + Z.of_nat (length (fb_path fb)) + 1)
      with (Z.of_nat (length (pre2 ++ fb_path fb ++ [IFill])))
      by (rewrite !length_app; simpl; lia).
    apply zlookup_middle. }
  { cbn [execute_instruction]. unfold end_geometry. by rewrite Hcb. }
  exists (next st4). split; [done|].
  unfold pending_after_block, flushes_of_block.
  replay_fields.
  rewrite Hi4, Hps4, Hpf4, Hfc4, Hcb4, Hi3, Hlen2, Hss3, Hps2, Hs3, Hpf2, Hfc3, Hfc2,
    Hcb3, Hcb2.
  rewrite length_app, length_fill_block_instructions.
  repeat case_decide; repeat split; try lia.
Qed.

Lemma pending_after_block_range batchSize p :
  0 <= batchSize -> 0 <= p -> (batchSize = 0 -> p = 0) ->
  0 <= pending_after_block batchSize p
  /\ (batchSize = 0 -> pending_after_block batchSize p = 0).
Proof.
  intros HB Hp H0. unfold pending_after_block.
  repeat case_decide; split; lia.
Qed.

(** The replay of a sequence of fill blocks. *)
Lemma execute_loop_fill_blocks (env : ReplayEnv (T := T)) fbs : forall pre post st fuel,
  re_instructions env = pre ++ concat (fill_block_instructions <$> fbs) ++ post ->
  re_featureCallback env = None ->
  re_hitExtent env = None ->
  0 <= re_batchSize env ->
  Forall (fill_block_ok (re_skippedFeaturesHash env)) fbs ->
  rs_i st = Z.of_nat (length pre) ->
  rs_pendingStroke st = 0 ->
  0 <= rs_pendingFill st ->
  (re_batchSize env = 0 -> rs_pendingFill st = 0) ->
  exists st',
    execute_loop (length (concat (fill_block_instructions <$> fbs)) + fuel) env st
    = execute_loop fuel env st'
    /\ rs_i st' = Z.of_nat (length (pre ++ concat (fill_block_instructions <$> fbs)))
    /\ rs_pendingStroke st' = 0
    /\ rs_pendingFill st'
       = pending_after (re_batchSize env) (length fbs) (rs_pendingFill st)
    /\ fill_calls (rs_context st')
       = (fill_calls (rs_context st)
          + flushes_after (re_batchSize env) (length fbs) (rs_pendingFill st))%nat
    /\ rs_callbacks st' = rs_callbacks st.
Proof.
  induction fbs as [|fb fbs IH]; intros pre post st fuel Hins Hcb Hhit HB Hok Hi Hps Hpf HB0.
  - exists st. simpl. rewrite app_nil_r. repeat split; try done.
  - inversion Hok as [|? ? Hfb Hrest]; subst.
    rewrite fmap_cons, concat_cons in Hins |- *.
    rewrite length_app, <- Nat.add_assoc.
    destruct (execute_loop_fill_block env fb pre
                (concat (fill_block_instructions <$> fbs) ++ post) st
                (length (concat (fill_block_instructions <$> fbs)) + fuel))
      as (st1 & Hrun1 & Hi1 & Hps1 & Hpf1 & Hfc1 & Hcb1); try done.
    { by rewrite Hins, <- app_assoc. }
    destruct (pending_after_block_range (re_batchSize env) (rs_pendingFill st))
      as [Hr1 Hr2]; try done.
    destruct (IH (pre ++ fill_block_instructions fb) post st1 fuel)
      as (st' & Hrun & Hi' & Hps' & Hpf' & Hfc' & Hcb'); try done.
    { by rewrite Hins, <- !app_assoc. }
    { by rewrite Hpf1. }
    { by rewrite Hpf1. }
    exists st'. rewrite Hrun1, Hrun. split; [done|].
    rewrite Hi', Hps', Hpf', Hfc', Hfc1, Hpf1, Hcb', Hcb1, <- app_assoc.
    cbn [length pending_after flushes_after].
    repeat split; try done. lia.
Qed.

(** The replay of a whole fill stream, with no feature callback and no hit
    extent, by any executor. *)
Lemma execute_fill_stream (ex : CanvasExecutor) context pixelCoordinates
    (skipped : gmap string bool) (instructions : InstructionArray)
    fillStyle alignFill fbs fuel :
  array_items instructions = fill_stream fillStyle alignFill fbs ->
  Forall (fill_block_ok skipped) fbs ->
  (length (fill_stream fillStyle alignFill fbs) <= fuel)%nat ->
  let batchSize := batchSize_of ex instructions in
  exists st,
    execute_ (T := T) fuel ex context pixelCoordinates skipped instructions None None
    = Ret (None, st)
    /\ fill_calls (rs_context st)
       = (fill_calls context + flushes_after batchSize (length fbs) 0%Z
          + if decide (pending_after batchSize (length fbs) 0%Z = 0%Z) then 0 else 1)%nat.
Proof.
  intros Hitems Hok Hfuel batchSize.
  unfold execute_. fold batchSize.
  rewrite Hitems.
  set (env := {| re_pixelCoordinates := pixelCoordinates;
                 re_skippedFeaturesHash := skipped;
                 re_instructions := fill_stream fillStyle alignFill fbs;
                 re_featureCallback := None; re_hitExtent := None;
                 re_batchSize := batchSize |}).
  set (st0 := {| rs_i := 0; rs_pendingFill := 0; rs_pendingStroke := 0;
                 rs_prev := None; rs_lastFillInstruction := None;
                 rs_lastStrokeInstruction := None;
                 rs_alignFill_ := ex_alignFill_ ex; rs_context := context;
                 rs_callbacks := [] |}).
  assert (HB : 0 <= batchSize).
  { subst batchSize. unfold batchSize_of. destruct (_ || _); lia. }
  clearbody batchSize.
  unfold fill_stream in Hfuel. cbn [length] in Hfuel.
  destruct fuel as [|fuel]; [lia|].
  replace fuel with (length (concat (fill_block_instructions <$> fbs))
                     + (fuel - length (concat (fill_block_instructions <$> fbs))))%nat
    by lia.
  set (fuel' := (fuel - length (concat (fill_block_instructions <$> fbs)))%nat).
  set (st1 := set_fill_style (ISetFillStyle fillStyle alignFill) fillStyle alignFill st0).
  rewrite (execute_loop_step _ env st0 (ISetFillStyle fillStyle alignFill) st1);
    [|done|done].
  destruct (execute_loop_fill_blocks env fbs [ISetFillStyle fillStyle alignFill] [] st1 fuel')
    as (st' & Hrun & Hi' & Hps' & Hpf' & Hfc' & Hcb'); try done.
  { by rewrite app_nil_r. }
  rewrite Hrun.
  assert (Hexit : execute_loop fuel' env st' = Ret (None, flush_pending st')).
  { destruct fuel'; simpl; rewrite decide_False; try done;
      rewrite Hi'; unfold fill_stream; simpl; lia. }
  rewrite Hexit. eexists. split; [reflexivity|].
  unfold flush_pending.
  destruct (fill__fields st') as (Fi & Fp & Fs & Fa & Fc).
  pose proof (fill_calls_fill_ st') as Ff.
  assert (Hfc1 : fill_calls (rs_context st1) = fill_calls context).
  { subst st1 st0. unfold set_fill_style. replay_fields.
    rewrite decide_False by (intros H; by apply H).
    replay_fields. rewrite fill_calls_snoc. simpl. lia. }
  assert (Hpf1 : rs_pendingFill st1 = 0).
  { subst st1 st0. unfold set_fill_style. replay_fields.
    rewrite decide_False by (intros H; by apply H). done. }
  rewrite Hpf1 in Hpf', Hfc'. rewrite Hfc1 in Hfc'.
  change (re_batchSize env) with batchSize in *.
  repeat case_decide; replay_fields; rewrite ?Fs, ?Ff, ?Hfc' in *; try lia.
Qed.

(** C1: an executor replays a stream made of one SET_FILL_STYLE and 250
    fill blocks, each BEGIN_GEOMETRY, BEGIN_PATH, path instructions, FILL,
    END_GEOMETRY: the 250 consecutive fills of polygons of one style, of
    features that are drawn.  When the stream is the executor's own render
    stream and overlaps is not set, the replay calls the fill primitive
    exactly twice: the deferred fills are flushed by the BEGIN_PATH that
    finds more than 200 of them, and what is left is flushed at the end.
    When overlaps is set, or the array replayed is not the executor's own
    render stream (as in a hit detection), the batch size is 0 and the
    replay of the same stream calls the fill primitive 250 times, each FILL
    instruction calling it at once. *)
Theorem batched_fill_replay (ex : CanvasExecutor) (context : list ContextCall)
    (pixelCoordinates : list Q) (skipped : gmap string bool)
    (fillStyle : option string) (alignFill : bool) (fbs : list FillBlock)
    (fuel : nat) :
  array_items (ex_instructions ex) = fill_stream fillStyle alignFill fbs ->
  Forall (fill_block_ok skipped) fbs ->
  length fbs = 250%nat ->
  (length (fill_stream fillStyle alignFill fbs) <= fuel)%nat ->
  (exists st,
     execute (T := T) fuel ex context pixelCoordinates skipped = Ret (None, st)
     /\ fill_calls (rs_context st)
        = (fill_calls context + if ex_overlaps ex then 250 else 2)%nat)
  /\ (forall (ex' : CanvasExecutor) (instructions : InstructionArray),
        array_items instructions = fill_stream fillStyle alignFill fbs ->
        ex_overlaps ex' = true
        \/ array_id (ex_instructions ex') <> array_id instructions ->
        exists st,
          execute_ (T := T) fuel ex' context pixelCoordinates skipped instructions
            None None
          = Ret (None, st)
          /\ fill_calls (rs_context st) = (fill_calls context + 250)%nat)
  /\ (forall ex' : CanvasExecutor,
        array_items (ex_hitDetectionInstructions ex')
        = fill_stream fillStyle alignFill fbs ->
        array_id (ex_instructions ex') <> array_id (ex_hitDetectionInstructions ex') ->
        exists st,
          executeHitDetection (T := T) fuel ex' context pixelCoordinates skipped
            None None
          = Ret (None, st)
          /\ fill_calls (rs_context st) = (fill_calls context + 250)%nat)
  /\ (forall instructions : InstructionArray,
        ex_overlaps ex = true
        \/ array_id (ex_instructions ex) <> array_id instructions ->
        batchSize_of ex instructions = 0)
  /\ (forall (env : ReplayEnv (T := T)) (st : ReplayState),
        re_batchSize env = 0 ->
        execute_instruction env IFill st = Continue (next (fill_ st))
        /\ fill_calls (rs_context (next (fill_ st)))
           = S (fill_calls (rs_context st))).
Proof.
  intros Hitems Hok Hlen Hfuel.
  assert (Hzero : forall (ex' : CanvasExecutor) (instructions : InstructionArray),
            ex_overlaps ex' = true
            \/ array_id (ex_instructions ex') <> array_id instructions ->
            batchSize_of ex' instructions = 0).
  { intros ex' instructions [Hov|Hne]; unfold batchSize_of.
    - by rewrite Hov, orb_true_r.
    - by rewrite bool_decide_eq_true_2. }
  assert (Hforeign : forall (ex' : CanvasExecutor) (instructions : InstructionArray),
            array_items instructions = fill_stream fillStyle alignFill fbs ->
            ex_overlaps ex' = true
            \/ array_id (ex_instructions ex') <> array_id instructions ->
            exists st,
              execute_ (T := T) fuel ex' context pixelCoordinates skipped instructions
                None None
              = Ret (None, st)
              /\ fill_calls (rs_context st) = (fill_calls context + 250)%nat).
  { intros ex' instructions Hitems' Hcase.
    destruct (execute_fill_stream ex' context pixelCoordinates skipped instructions
                fillStyle alignFill fbs fuel Hitems' Hok Hfuel) as (st & Hrun & Hfc).
    exists st. split; [done|]. rewrite Hfc, Hlen, (Hzero ex' instructions Hcase).
    replace (flushes_after 0 250 0) with 250%nat by (by vm_compute).
    replace (pending_after 0 250 0) with 0 by (by vm_compute).
    rewrite decide_True by done. lia. }
  split; [|split; [exact Hforeign|split; [|split; [apply Hzero|]]]].
  - destruct (execute_fill_stream ex context pixelCoordinates skipped (ex_instructions ex)
                fillStyle alignFill fbs fuel Hitems Hok Hfuel) as (st & Hrun & Hfc).
    exists st. split; [done|]. rewrite Hfc, Hlen.
    unfold batchSize_of. rewrite bool_decide_eq_false_2 by (intros H; by apply H).
    cbn [orb].
    destruct (ex_overlaps ex).
    + replace (flushes_after 0 250 0) with 250%nat by (by vm_compute).
      replace (pending_after 0 250 0) with 0 by (by vm_compute).
      rewrite decide_True by done. lia.
    + replace (flushes_after 200 250 0) with 1%nat by (by vm_compute).
      replace (pending_after 200 250 0) with 49 by (by vm_compute).
      rewrite decide_False by lia. lia.
  - intros ex' Hitems' Hne. unfold executeHitDetection.
    apply Hforeign; [done|by right].
  - intros env st HB. cbn [execute_instruction].
    rewrite decide_False by lia. split; [done|].
    replay_fields. apply fill_calls_fill_.
Qed.

End BatchProofs.

Lemma example_fill_blocks_ok : Forall (fill_block_ok ∅) example_fill_blocks.
Proof.
  apply Forall_replicate. repeat split.
  - by eexists.
  - by rewrite lookup_empty.
  - by repeat constructor.
Qed.

Lemma batched_fill_replay_witness :
  (exists st,
     execute (ops := ol_extent) (fops := example_foreign) (T := unit) 2000
       (executor_of false (fill_stream (Some "red") false example_fill_blocks))
       [] [1; 1; 20; 1; 5; 5]%Q ∅ = Ret (None, st)
     /\ fill_calls (rs_context st) = 2%nat)
  /\ (exists st,
        execute_ (ops := ol_extent) (fops := example_foreign) (T := unit) 2000
          (executor_of false []) [] [1; 1; 20; 1; 5; 5]%Q ∅
          {| array_id := 2;
             array_items := fill_stream (Some "red") false example_fill_blocks |}
          None None
        = Ret (None, st)
        /\ fill_calls (rs_context st) = 250%nat).
Proof.
  destruct (batched_fill_replay (ops := ol_extent) (fops := example_foreign) (T := unit)
              (executor_of false (fill_stream (Some "red") false example_fill_blocks))
              [] [1; 1; 20; 1; 5; 5]%Q ∅ (Some "red") false example_fill_blocks 2000
              eq_refl example_fill_blocks_ok eq_refl
              ltac:(vm_compute; lia)) as [(st & Hrun & Hfc) [Hforeign _]].
  split.
  - exists st. split; [exact Hrun | exact Hfc].
  - assert (Hne : array_id (ex_instructions (executor_of false [])) <> 2%nat)
      by (cbn; lia).
    destruct (Hforeign (executor_of false [])
                {| array_id := 2;
                   array_items := fill_stream (Some "red") false example_fill_blocks |}
                eq_refl (or_intror Hne))
      as (st' & Hrun' & Hfc').
    exists st'. split; [exact Hrun' | exact Hfc'].
Defined.

(** A stream as no builder emits it, for comparison: 250 FILL
    instructions that literally follow one another in the executor's own
    render stream, without overlaps, are flushed together at the end, and
    the fill primitive is called once. *)
Lemma adjacent_fills_flushed_once :
  exists st,
    execute (ops := ol_extent) (fops := example_foreign)
        (T := unit) 300 (executor_of false adjacent_fills)
      [] [] ∅ = Ret (None, st)
    /\ fill_calls (rs_context st) = 1%nat
    /\ fill_calls (rs_context st) <> 2%nat.
Proof.
  eexists. split; [vm_compute; reflexivity|]. split; [reflexivity | discriminate].
Qed.

(** ** The clipper on a stream without points *)

(** C3 at the failing input: on a range without points ([offset = end])
    [appendFlatCoordinates] walks no input coordinate and appends two
    coordinates, whatever lies at [offset]: undefined ones for the line
    string without coordinates drawn by [drawLineString], and the first
    point of the next line for the empty first line of a multi line string
    drawn by [drawMultiLineString], whose four input coordinates become six
    in the buffer. *)
Theorem appendFlatCoordinates_empty_stream (fuel : nat) :
  (exists b',
     appendFlatCoordinates (ops := ol_extent) fuel example_builder [] 0 0 2 false false
     = Ret (2, b')
     /\ coordinates b' = coordinates example_builder ++ [None; None]
     /\ (Z.of_nat (length (coordinates b'))
         - Z.of_nat (length (coordinates example_builder)) > 0 - 0))
  /\ (exists b',
        drawLineString (ops := ol_extent) fuel stroked_builder empty_geometry feature_a
        = Ret b'
        /\ coordinates b' = [None; None])
  /\ (exists b',
        drawMultiLineString (ops := ol_extent) 10 stroked_builder
          multi_geometry_empty_line feature_a = Ret b'
        /\ coordinates b' = [Some 0; Some 0; Some 0; Some 0; Some 1; Some 1]%Q
        /\ (length (coordinates b') > length (getFlatCoordinates multi_geometry_empty_line))%nat).
Proof.
  split; [|split].
  - destruct fuel; (eexists; split; [vm_compute; reflexivity|]);
      (split; [reflexivity|simpl; lia]).
  - destruct fuel; (eexists; split; [vm_compute; reflexivity | reflexivity]).
  - eexists. split; [vm_compute; reflexivity|].
    split; [reflexivity|simpl; lia].
Qed.

(** X18: for a stream of at least one point the property holds: what is
    appended is at most as long as the input walked, and the two points of
    every change of relationship lie next to each other in it. *)
Lemma appendFlatCoordinates_simplification {ops : ExtentOps} fuel b fc
    (offset end_ stride : Z) (closed skipFirst : bool) (n : nat) :
  let off := if skipFirst then offset + stride else offset in
  let extent := fst (getBufferedMaxExtent b) in
  2 <= stride ->
  (1 <= n)%nat ->
  end_ = off + Z.of_nat n * stride ->
  (n <= fuel)%nat ->
  exists myEnd b' out,
    appendFlatCoordinates fuel b fc offset end_ stride closed skipFirst = Ret (myEnd, b')
    /\ coordinates b' = coordinates b ++ out
    /\ Z.of_nat (length out) <= end_ - off
    /\ forall k, (S k < n)%nat ->
         coordinateRelationship extent (input_point fc off stride k)
         <> coordinateRelationship extent (input_point fc off stride (S k)) ->
         adjacent_in out (input_point fc off stride k) (input_point fc off stride (S k)).
Proof.
  intros off extent Hstride Hn Hend Hfuel.
  destruct (appendFlatCoordinates_points fuel b fc offset end_ stride closed skipFirst n)
    as (myEnd & b' & out & Hrun & Hc & _ & _ & _ & Hlen & Htrans);
    [lia | done | done | done |].
  exists myEnd, b', out. repeat split; try done.
  fold off in Hend. rewrite Hend. nia.
Qed.

(** ** The WebGL helper *)

(** Deleting a buffer that has no cache entry: a no-op when the context is
    lost, a TypeError when it is active. *)
Lemma deleteBuffer_unbound (h : WebGLHelper) (buf : WebGLArrayBuffer) :
  bufferCache_ h !! buf_uid buf = None ->
  deleteBuffer h buf = if isContextLost (gl_ h) then Ret h else Throw TypeError.
Proof.
  intros Hnone. unfold deleteBuffer. rewrite Hnone.
  destruct (isContextLost (gl_ h)); simpl; [|done].
  unfold set_bufferCache. rewrite delete_id by done. by destruct h.
Qed.

(** C4 at the failing input: on a helper with an active context,
    [deleteBuffer] of a buffer that was never bound throws a TypeError;
    only when the context is lost is it a no-op. *)
Theorem deleteBuffer_never_bound :
  bufferCache_ new_helper !! buf_uid example_buffer = None
  /\ isContextLost (gl_ new_helper) = false
  /\ deleteBuffer new_helper example_buffer = Throw TypeError
  /\ deleteBuffer (lose_context new_helper) example_buffer
     = Ret (lose_context new_helper).
Proof.
  split; [done|]. split; [done|]. split.
  - by rewrite deleteBuffer_unbound.
  - by rewrite deleteBuffer_unbound.
Qed.




(** ** The builder group *)


(** ** Circle masks *)


Lemma zlookup_in_range {A} (l : list A) (i : Z) :
  0 <= i < Z.of_nat (length l) -> exists x, zlookup l i = Some x.
Proof.
  intros Hi. unfold zlookup. rewrite decide_True by lia.
  apply lookup_lt_is_Some_2. lia.
Qed.

Lemma zlookup_insert {A} (l : list A) (n : nat) (x : A) (k : Z) :
  zlookup (<[n := x]> l) k
  = if decide (k = Z.of_nat n /\ (n < length l)%nat) then Some x else zlookup l k.
Proof.
  unfold zlookup. destruct (decide (0 <= k)) as [Hk|Hk].
  - destruct (decide (k = Z.of_nat n /\ (n < length l)%nat)) as [[-> Hn]|Hne].
    + rewrite Nat2Z.id. by apply list_lookup_insert_eq.
    + destruct (decide (n = Z.to_nat k)) as [->|Hnk].
      * rewrite list_insert_ge; [done|]. lia.
      * by rewrite list_lookup_insert_ne.
  - rewrite decide_False; [done|]. lia.
Qed.

Lemma array_set_in_range {A} (row : list (option A)) (y : Z) (v : option A) :
  0 <= y < Z.of_nat (length row) ->
  array_set row y v = <[Z.to_nat y := v]> row.
Proof.
  intros Hy. unfold array_set.
  rewrite decide_False by lia. by rewrite decide_True by lia.
Qed.

Lemma set_true_square (n : Z) (m : Mask) (i y : Z) :
  square_mask n m -> 0 <= i < n -> 0 <= y < n ->
  exists m', set_true m i y = Ret m'
    /\ square_mask n m' /\ mask_le m m' /\ mask_at m' i y = Some (Some true).
Proof.
  intros (Hlen & Hcols & Hent) Hi Hy. unfold set_true.
  destruct (zlookup_in_range m i) as [row Hrow]; [lia|].
  rewrite Hrow. eexists. split; [reflexivity|].
  assert (Hrow' : m !! Z.to_nat i = Some row).
  { unfold zlookup in Hrow. by rewrite decide_True in Hrow by lia. }
  assert (Hrlen : Z.of_nat (length row) = n)
    by exact (Forall_lookup_1 _ m _ row Hcols Hrow').
  rewrite array_set_in_range by lia.
  split; [|split].
  - split; [|split].
    + by rewrite length_insert.
    + apply Forall_insert; [done|]. by rewrite length_insert.
    + apply Forall_insert; [done|].
      apply Forall_insert; [|by left].
      exact (Forall_lookup_1 _ m _ row Hent Hrow').
  - intros i' j' Hat. unfold mask_at in *.
    rewrite zlookup_insert.
    destruct (decide (i' = Z.of_nat (Z.to_nat i) /\ (Z.to_nat i < length m)%nat))
      as [[Hi' _]|Hne]; [|done].
    assert (i' = i) as -> by lia.
    rewrite Hrow in Hat. simpl in *.
    rewrite zlookup_insert. by case_decide.
  - unfold mask_at. rewrite zlookup_insert.
    rewrite decide_True by lia. simpl.
    rewrite zlookup_insert. by rewrite decide_True by lia.
Qed.

Lemma mask_le_refl m : mask_le m m.
Proof. by intros i j. Qed.

Lemma mask_le_trans m1 m2 m3 : mask_le m1 m2 -> mask_le m2 m3 -> mask_le m1 m3.
Proof. intros H1 H2 i j H. by apply H2, H1. Qed.

Lemma set_true_rows_square (n : Z) (y : Z) (rows : list Z) : forall m : Mask,
  square_mask n m -> 0 <= y < n ->
  Forall (fun i => 0 <= i < n) rows ->
  exists m', set_true_rows m rows y = Ret m'
    /\ square_mask n m' /\ mask_le m m'
    /\ forall i, i ∈ rows -> mask_at m' i y = Some (Some true).
Proof.
  induction rows as [|i rows IH]; intros m Hsq Hy Hrows.
  - exists m. split; [done|]. split; [done|]. split; [apply mask_le_refl|].
    intros i Hi. by apply elem_of_nil in Hi.
  - inversion Hrows as [|? ? Hi Hrest]; subst.
    destruct (set_true_square n m i y Hsq Hi Hy) as (m1 & Hset & Hsq1 & Hle1 & Hat1).
    destruct (IH m1 Hsq1 Hy Hrest) as (m' & Hrun & Hsq' & Hle' & Hat').
    exists m'. simpl. rewrite Hset. simpl. split; [done|]. split; [done|].
    split; [by eapply mask_le_trans|].
    intros i' Hi'. apply elem_of_cons in Hi' as [->|Hi']; [by apply Hle'|by apply Hat'].
Qed.

Lemma fillCircleArrayRowToMiddle_square (radius : Z) (m : Mask) (x y : Z) :
  0 <= radius ->
  square_mask (2 * radius + 1) m ->
  0 <= x <= 2 * radius -> 0 <= y <= 2 * radius ->
  exists m', fillCircleArrayRowToMiddle m x y = Ret m'
    /\ square_mask (2 * radius + 1) m' /\ mask_le m m'
    /\ (radius < x -> mask_at m' radius y = Some (Some true)).
Proof.
  intros Hr Hsq Hx Hy. unfold fillCircleArrayRowToMiddle.
  assert (Hrad : Z.of_nat (length m) / 2 = radius).
  { destruct Hsq as (-> & _). symmetry. apply Z.div_unique with (r := 1); lia. }
  rewrite Hrad.
  destruct (decide (x >= radius)) as [Hge|Hlt].
  - destruct (set_true_rows_square (2 * radius + 1) y (seqZ radius (x - radius)) m)
      as (m' & Hrun & Hsq' & Hle & Hat); [done|lia| |].
    { apply Forall_forall. intros i Hi. apply elem_of_seqZ in Hi. lia. }
    exists m'. repeat split; try done; try apply Hsq'.
    intros Hrx. apply Hat. apply elem_of_seqZ. lia.
  - destruct (set_true_rows_square (2 * radius + 1) y
                (seqZ (x + 1) (radius - (x + 1))) m)
      as (m' & Hrun & Hsq' & Hle & Hat); [done|lia| |].
    { apply Forall_forall. intros i Hi. apply elem_of_seqZ in Hi. lia. }
    exists m'. repeat split; try done; try apply Hsq'.
    intros Hrx. lia.
Qed.

Lemma fill_octants_square (radius : Z) (m : Mask) (x y : Z) :
  0 <= y -> y <= x -> x <= radius ->
  square_mask (2 * radius + 1) m ->
  exists m', fill_octants m radius x y = Ret m'
    /\ square_mask (2 * radius + 1) m' /\ mask_le m m'
    /\ (y = 0 -> 0 < x -> mask_at m' radius radius = Some (Some true)).
Proof.
  intros Hy Hyx Hxr Hsq. unfold fill_octants.
  destruct (fillCircleArrayRowToMiddle_square radius m (radius + x) (radius + y))
    as (a1 & E1 & S1 & L1 & C1); [lia|done|lia|lia|]. rewrite E1; cbn [rbind].
  destruct (fillCircleArrayRowToMiddle_square radius a1 (radius + y) (radius + x))
    as (a2 & E2 & S2 & L2 & _); [lia|done|lia|lia|]. rewrite E2; cbn [rbind].
  destruct (fillCircleArrayRowToMiddle_square radius a2 (radius - y) (radius + x))
    as (a3 & E3 & S3 & L3 & _); [lia|done|lia|lia|]. rewrite E3; cbn [rbind].
  destruct (fillCircleArrayRowToMiddle_square radius a3 (radius - x) (radius + y))
    as (a4 & E4 & S4 & L4 & _); [lia|done|lia|lia|]. rewrite E4; cbn [rbind].
  destruct (fillCircleArrayRowToMiddle_square radius a4 (radius - x) (radius - y))
    as (a5 & E5 & S5 & L5 & _); [lia|done|lia|lia|]. rewrite E5; cbn [rbind].
  destruct (fillCircleArrayRowToMiddle_square radius a5 (radius - y) (radius - x))
    as (a6 & E6 & S6 & L6 & _); [lia|done|lia|lia|]. rewrite E6; cbn [rbind].
  destruct (fillCircleArrayRowToMiddle_square radius a6 (radius + y) (radius - x))
    as (a7 & E7 & S7 & L7 & _); [lia|done|lia|lia|]. rewrite E7; cbn [rbind].
  destruct (fillCircleArrayRowToMiddle_square radius a7 (radius + x) (radius - y))
    as (a8 & E8 & S8 & L8 & _); [lia|done|lia|lia|].
  exists a8. split; [done|]. split; [done|].
  assert (L18 : mask_le a1 a8).
  { repeat (eapply mask_le_trans; [eassumption|]). apply mask_le_refl. }
  split; [by eapply mask_le_trans|].
  intros Hy0 Hx0. apply L18. subst y. rewrite Z.add_0_r in C1. apply C1. lia.
Qed.

Lemma circle_loop_square (radius : Z) : 1 <= radius ->
  forall fuel x y error (arr : Mask),
  0 <= y -> x <= radius ->
  (Z.to_nat (radius + 1 - y) <= fuel)%nat ->
  square_mask (2 * radius + 1) arr ->
  (y = 0 /\ x = radius) \/ mask_at arr radius radius = Some (Some true) ->
  exists arr', circle_loop fuel radius x y error arr = Ret arr'
    /\ square_mask (2 * radius + 1) arr'
    /\ mask_at arr' radius radius = Some (Some true).
Proof.
  intros Hr fuel. induction fuel as [|fuel IH]; intros x y error arr Hy Hx Hfuel Hsq Hc.
  - simpl. rewrite decide_False by lia.
    exists arr. split; [done|]. split; [done|].
    destruct Hc as [[-> ->]|Hc]; [lia|done].
  - cbn [circle_loop]. destruct (decide (x >= y)) as [Hxy|Hxy].
    + destruct (fill_octants_square radius arr x y) as (arr1 & E & S1 & L1 & C1);
        [lia|lia|lia|done|].
      rewrite E. cbn [rbind].
      assert (Hc1 : mask_at arr1 radius radius = Some (Some true)).
      { destruct Hc as [[-> ->]|Hc]; [apply C1; lia|by apply L1]. }
      destruct (decide (2 * (error + (1 + 2 * (y + 1)) - x) + 1 > 0)).
      * apply IH; try done; try lia. by right.
      * apply IH; try done; try lia. by right.
    + exists arr. split; [done|]. split; [done|].
      destruct Hc as [[-> ->]|Hc]; [lia|done].
Qed.

Lemma circle_store_ok_initial : circle_store_ok initial_circle_store.
Proof.
  split; [by eexists|].
  intros radius ref Hlook. simpl in Hlook.
  apply lookup_singleton_Some in Hlook as [<- <-].
  split; [lia|]. eexists. split; [done|].
  split; try done; repeat constructor; by left.
Qed.

(** C10 (amended): in every store that the calls of [getCircleArray] can
    produce, for every radius from 0 to 2^31 - 1 the call returns (given
    enough iterations for its loop) a mask of [2 * radius + 1] rows of
    [2 * radius + 1] entries each, whose entries are [true] or [undefined]
    and whose centre entry is [true]; the store it leaves can again be
    produced by such calls, and every further call with the same radius
    returns the same mask object and leaves the store as it is.  For a
    radius above 2^31 - 1 that is not cached the call throws a RangeError,
    the side [2 * radius + 1] being no array length. *)
Theorem getCircleArray_mask (fuel : nat) (radius : Z) (store : CircleStore) :
  circle_store_ok store ->
  0 <= radius <= 2147483647 ->
  (Z.to_nat radius + 1 <= fuel)%nat ->
  (exists ref store' m,
     getCircleArray fuel radius store = Ret (ref, store')
     /\ cs_masks store' !! ref = Some m
     /\ circle_mask radius m
     /\ circle_store_ok store'
     /\ forall fuel', getCircleArray fuel' radius store' = Ret (ref, store'))
  /\ (forall fuel' radius' store',
        2147483647 < radius' ->
        circleArrayCache store' !! radius' = None ->
        getCircleArray fuel' radius' store' = Throw RangeError).
Proof.
  intros [H0 Hok] [Hr Hmax] Hfuel. split; cycle 1.
  { intros fuel' radius' store' Hbig Hnone. unfold getCircleArray.
    rewrite Hnone. by rewrite decide_True by lia. }
  unfold getCircleArray at 1.
  destruct (circleArrayCache store !! radius) as [ref|] eqn:Hc.
  - destruct (Hok radius ref Hc) as (_ & m & Hm & Hcm).
    exists ref, store, m.
    split; [done|]. split; [done|]. split; [done|]. split; [by split|].
    intros fuel'. unfold getCircleArray. by rewrite Hc.
  - assert (Hr1 : 1 <= radius).
    { destruct (decide (radius = 0)) as [->|]; [|lia].
      rewrite Hc in H0. by destruct H0. }
    rewrite decide_False by lia.
    set (n := Z.to_nat (radius * 2 + 1)).
    assert (Hsq0 : square_mask (2 * radius + 1) (replicate n (replicate n None))).
    { split; [|split].
      - rewrite length_replicate. lia.
      - apply Forall_replicate. rewrite length_replicate. lia.
      - apply Forall_replicate, Forall_replicate. by right. }
    destruct (circle_loop_square radius Hr1 fuel radius 0 0 _ ltac:(lia) ltac:(lia)
                ltac:(lia) Hsq0 ltac:(by left)) as (arr' & Hrun & (Hl & Hcols & Hent) & Hcentre).
    rewrite Hrun. cbn [rbind].
    assert (Hcm : circle_mask radius arr') by (by split).
    eexists _, _, arr'. split; [reflexivity|].
    cbn [cs_masks circleArrayCache].
    split; [by apply list_lookup_middle|]. split; [done|]. split.
    + split.
      * simpl. rewrite lookup_insert_ne by lia. done.
      * intros radius' ref' Hlook. simpl in Hlook. simpl.
        destruct (decide (radius' = radius)) as [->|Hne].
        -- rewrite lookup_insert_eq in Hlook. inversion Hlook; subst ref'.
           split; [lia|]. exists arr'. split; [by apply list_lookup_middle|done].
        -- rewrite lookup_insert_ne in Hlook by done.
           destruct (Hok radius' ref' Hlook) as (Hr' & m & Hm & Hcm').
           split; [done|]. exists m. split; [|done]. by apply lookup_app_l_Some.
    + intros fuel'. unfold getCircleArray. simpl. by rewrite lookup_insert_eq.
Qed.

Lemma getCircleArray_mask_witness :
  exists ref store' m,
    getCircleArray 4 2 initial_circle_store = Ret (ref, store')
    /\ cs_masks store' !! ref = Some m
    /\ circle_mask 2 m
    /\ getCircleArray 0 2 store' = Ret (ref, store').
Proof.
  destruct (getCircleArray_mask 4 2 initial_circle_store circle_store_ok_initial
              ltac:(lia) ltac:(simpl; lia))
    as [(ref & store' & m & Hrun & Hm & Hcm & _ & Hagain) _].
  exists ref, store', m.
  split; [exact Hrun|]. split; [exact Hm|]. split; [exact Hcm|]. exact (Hagain 0%nat).
Defined.

(** The radius 2^31, with nothing cached for it: the side of the mask would
    be 2^32 + 1, and there is no array of that length. *)
Lemma getCircleArray_radius_counterexample :
  0 <= 2147483648
  /\ forall fuel, getCircleArray fuel 2147483648 initial_circle_store = Throw RangeError.
Proof.
  split; [lia|]. intros fuel. reflexivity.
Qed.

(** ** The order of a hit test *)

Lemma StronglySorted_le_NoDup_lt (l : list Z) :
  StronglySorted Z.le l -> NoDup l -> StronglySorted Z.lt l.
Proof.
  induction 1 as [|x l Hs IH Hall]; intros Hnd; [constructor|].
  apply NoDup_cons in Hnd as [Hx Hnd].
  constructor; [by apply IH|].
  apply Forall_forall. intros y Hy.
  pose proof (proj1 (Forall_forall _ _) Hall y Hy) as Hle.
  destruct (decide (x = y)) as [->|]; [done|lia].
Qed.

Lemma StronglySorted_lt_reverse (l : list Z) :
  StronglySorted Z.lt l -> StronglySorted Z.gt (reverse l).
Proof.
  induction 1 as [|x l Hs IH Hall]; [constructor|].
  rewrite reverse_cons.
  assert (Happ : forall l1 : list Z, StronglySorted Z.gt l1 ->
            Forall (fun y => y > x) l1 -> StronglySorted Z.gt (l1 ++ [x])).
  { clear. induction 1 as [|y l1 Hs IH Hall]; intros Hgt.
    - repeat constructor.
    - inversion Hgt; subst. simpl. constructor; [by apply IH|].
      apply Forall_app. split; [done|]. repeat constructor. lia. }
  apply Happ; [done|].
  apply Forall_reverse. eapply Forall_impl; [exact Hall|]. intros y Hy. simpl in Hy. lia.
Qed.

Lemma StronglySorted_lookup {A} (R : A -> A -> Prop) (l : list A) (p q : nat) a b :
  StronglySorted R l -> (p < q)%nat -> l !! p = Some a -> l !! q = Some b -> R a b.
Proof.
  intros Hs. revert p q. induction Hs as [|x l Hs IH Hall]; intros p q Hpq Hp Hq; [done|].
  destruct q as [|q]; [lia|]. cbn in Hq. destruct p as [|p]; cbn in Hp.
  - injection Hp as ->.
    exact (proj1 (Forall_forall _ _) Hall b (list_elem_of_lookup_2 _ _ _ Hq)).
  - apply (IH p q); [lia|done|done].
Qed.

Lemma bind_lookup {A B} (f : A -> list B) (l : list A) (j : nat) (y : B) :
  (l ≫= f) !! j = Some y ->
  exists q b j', l !! q = Some b /\ f b !! j' = Some y.
Proof.
  revert j. induction l as [|a l IH]; intros j Hj; [done|].
  cbn in Hj. apply lookup_app_Some in Hj as [Hj|[Hlen Hj]].
  - by exists 0%nat, a, j.
  - destruct (IH _ Hj) as (q & b & j' & Hq & Hb). by exists (S q), b, j'.
Qed.

(** The positions of two elements of a concatenation of lists. *)
Lemma bind_lookup_order {A B} (f : A -> list B) (l : list A) (i j : nat) (x y : B) :
  (i < j)%nat ->
  (l ≫= f) !! i = Some x -> (l ≫= f) !! j = Some y ->
  exists p q a b i' j',
    l !! p = Some a /\ l !! q = Some b
    /\ f a !! i' = Some x /\ f b !! j' = Some y
    /\ ((p < q)%nat \/ (p = q /\ (i' < j')%nat)).
Proof.
  revert i j. induction l as [|a l IH]; intros i j Hij Hi Hj; [done|].
  cbn in Hi, Hj.
  apply lookup_app_Some in Hi as [Hi|[Hleni Hi]];
    apply lookup_app_Some in Hj as [Hj|[Hlenj Hj]].
  - exists 0%nat, 0%nat, a, a, i, j. repeat split; try done. by right.
  - destruct (bind_lookup f l _ y Hj) as (q & b & j' & Hq & Hb).
    exists 0%nat, (S q), a, b, i, j'. repeat split; try done. left. lia.
  - apply lookup_lt_Some in Hj. lia.
  - destruct (IH (i - length (f a))%nat (j - length (f a))%nat ltac:(lia) Hi Hj)
      as (p & q & a' & b & i' & j' & Hp & Hq & Ha & Hb & Hord).
    exists (S p), (S q), a', b, i', j'. repeat split; try done.
    destruct Hord as [?|[-> ?]]; [left; lia|by right].
Qed.

Lemma sublist_lookup {A} (l1 l2 : list A) (j : nat) (y : A) :
  l1 `sublist_of` l2 -> l1 !! j = Some y -> exists b, l2 !! b = Some y.
Proof.
  intros Hsub. revert j. induction Hsub as [|x l1 l2 Hsub IH|x l1 l2 Hsub IH];
    intros j Hj; [done| |].
  - destruct j as [|j]; cbn in Hj.
    + by exists 0%nat.
    + destruct (IH j Hj) as [b Hb]. by exists (S b).
  - destruct (IH j Hj) as [b Hb]. by exists (S b).
Qed.

(** The elements of a sublist keep their order. *)
Lemma sublist_lookup_order {A} (l1 l2 : list A) (i j : nat) (x y : A) :
  l1 `sublist_of` l2 -> (i < j)%nat ->
  l1 !! i = Some x -> l1 !! j = Some y ->
  exists a b, (a < b)%nat /\ l2 !! a = Some x /\ l2 !! b = Some y.
Proof.
  intros Hsub. revert i j. induction Hsub as [|z l1 l2 Hsub IH|z l1 l2 Hsub IH];
    intros i j Hij Hi Hj; [done| |].
  - destruct j as [|j]; [lia|]. cbn in Hj. destruct i as [|i]; cbn in Hi.
    + injection Hi as ->. destruct (sublist_lookup l1 l2 j y Hsub Hj) as [b Hb].
      exists 0%nat, (S b). split; [lia|done].
    + destruct (IH i j ltac:(lia) Hi Hj) as (a & b & Hab & Ha & Hb).
      exists (S a), (S b). split; [lia|done].
  - destruct (IH i j Hij Hi Hj) as (a & b & Hab & Ha & Hb).
    exists (S a), (S b). split; [lia|done].
Qed.

Section ExecutorGroupProofs.
Context {ops : ExtentOps} {fops : ForeignReplay} {rops : RenderOps} {T : Type}.

Lemma first_hit_app (env : HitEnv (T := T)) pre post st :
  first_hit env (pre ++ post) st
  = (r <-- first_hit env pre st ;;
     match fst r with
     | Some result => Ret (Some result, snd r)
     | None => first_hit env post (snd r)
     end).
Proof.
  revert st. induction pre as [|[[z rt] ex] pre IH]; intros st; [done|].
  simpl. destruct (visit_executor env z rt ex st) as [[[result|] st']| |]; simpl; try done.
Qed.

Lemma kinds_loop_first_hit (env : HitEnv (T := T)) z executors : forall j1 st,
  kinds_loop j1 env z executors st
  = first_hit env
      (replayType ← reverse (take j1 ORDER);
       executor ← option_list (executors !! replayType);
       [(z, replayType, executor)]) st.
Proof.
  induction j1 as [|j IH]; intros st; [done|].
  cbn [kinds_loop].
  destruct (ORDER !! j) as [replayType|] eqn:Hj.
  - rewrite (take_S_r _ _ _ Hj), reverse_app, reverse_singleton.
    cbn [mbind]. simpl.
    destruct (executors !! replayType) as [executor|] eqn:Hex; simpl.
    + destruct (visit_executor env z replayType executor st) as [[[result|] st']| |];
        simpl; try done.
    + apply IH.
  - rewrite IH. apply lookup_ge_None in Hj.
    by rewrite !take_ge by lia.
Qed.

Lemma bucket_visits_Some (g : ExecutorGroup) z executors :
  executorsByZIndex_ g !! z = Some executors ->
  bucket_visits g z
  = (replayType ← reverse ORDER;
     executor ← option_list (executors !! replayType);
     [(z, replayType, executor)]).
Proof.
  intros Hz. unfold bucket_visits. rewrite Hz. simpl. by rewrite app_nil_r.
Qed.

Lemma zs_loop_first_hit (env : HitEnv (T := T)) (g : ExecutorGroup) zs :
  Forall (fun z => is_Some (executorsByZIndex_ g !! z)) zs ->
  forall i1 st, (i1 <= length zs)%nat ->
  zs_loop i1 env g zs st
  = first_hit env (z ← reverse (take i1 zs); bucket_visits g z) st.
Proof.
  intros Hzs. induction i1 as [|i IH]; intros st Hi1; [done|].
  cbn [zs_loop].
  destruct (lookup_lt_is_Some_2 zs i ltac:(lia)) as [z Hi]. rewrite Hi.
  destruct (Forall_lookup_1 _ _ _ _ Hzs Hi) as [executors Hex].
  rewrite Hex.
  rewrite (take_S_r _ _ _ Hi), reverse_app, reverse_singleton.
  rewrite bind_app. simpl. rewrite app_nil_r, first_hit_app.
  rewrite (bucket_visits_Some g z executors Hex).
  rewrite kinds_loop_first_hit, firstn_all.
  destruct (first_hit env _ st) as [[[result|] st']| |]; simpl; try done.
  apply IH. lia.
Qed.

Lemma bucket_order_descending (g : ExecutorGroup) :
  StronglySorted Z.gt (bucket_order g).
Proof.
  unfold bucket_order, sorted_zs.
  apply StronglySorted_lt_reverse, StronglySorted_le_NoDup_lt.
  - apply (StronglySorted_merge_sort Z.le).
  - rewrite merge_sort_Permutation. apply NoDup_elements.
Qed.

Lemma sorted_zs_keys (g : ExecutorGroup) :
  Forall (fun z => is_Some (executorsByZIndex_ g !! z)) (sorted_zs g).
Proof.
  apply Forall_forall. intros z Hz. unfold sorted_zs in Hz.
  rewrite merge_sort_Permutation in Hz.
  apply elem_of_elements in Hz. by apply elem_of_dom in Hz.
Qed.

Lemma bucket_visits_order (g : ExecutorGroup) z :
  (fun v => snd (fst v)) <$> bucket_visits g z `sublist_of` reverse ORDER
  /\ Forall (fun v => fst (fst v) = z
                       /\ executorsByZIndex_ g !! z ≫= (.!! snd (fst v)) = Some (snd v))
       (bucket_visits g z).
Proof.
  unfold bucket_visits.
  destruct (executorsByZIndex_ g !! z) as [executors|] eqn:Hz; simpl.
  - rewrite app_nil_r.
    induction (reverse ORDER) as [|rt l [IH1 IH2]]; simpl; [by split|].
    destruct (executors !! rt) as [ex|] eqn:Hrt; simpl.
    + split; [by constructor|]. constructor; [by split|done].
    + split; [by constructor|done].
  - split; [apply sublist_nil_l|constructor].
Qed.

(** The traversal holds the executors of the group, each of them. *)
Lemma traversal_elem (g : ExecutorGroup) z replayType executor :
  (z, replayType, executor) ∈ traversal g
  <-> replayType ∈ ORDER
      /\ executorsByZIndex_ g !! z ≫= (.!! replayType) = Some executor.
Proof.
  unfold traversal. rewrite list_elem_of_bind. split.
  - intros (z' & Hin & Hz').
    unfold bucket_visits in Hin.
    destruct (executorsByZIndex_ g !! z') as [executors|] eqn:Hex;
      [|by apply elem_of_nil in Hin].
    cbn in Hin. rewrite app_nil_r in Hin.
    apply list_elem_of_bind in Hin as (k & Hin & Hk).
    rewrite elem_of_reverse in Hk.
    destruct (executors !! k) as [ex|] eqn:Hk';
      [|by apply elem_of_nil in Hin].
    cbn in Hin. apply list_elem_of_singleton in Hin. injection Hin as -> -> ->.
    split; [done|]. rewrite Hex. done.
  - intros [Hk Hlook].
    destruct (executorsByZIndex_ g !! z) as [executors|] eqn:Hex; [|done].
    cbn in Hlook. exists z. split.
    + unfold bucket_visits. rewrite Hex. cbn. rewrite app_nil_r.
      apply list_elem_of_bind. exists replayType. split; [|by apply elem_of_reverse].
      rewrite Hlook. cbn. by apply list_elem_of_singleton.
    + unfold bucket_order. apply elem_of_reverse. unfold sorted_zs.
      rewrite merge_sort_Permutation. apply elem_of_elements, elem_of_dom. by eexists.
Qed.

(** What comes earlier in the traversal has the higher z-index or, at the
    same z-index, the later place in ORDER. *)
Lemma traversal_order (g : ExecutorGroup) (i j : nat) z1 k1 e1 z2 k2 e2 :
  (i < j)%nat ->
  traversal g !! i = Some (z1, k1, e1) ->
  traversal g !! j = Some (z2, k2, e2) ->
  z1 > z2
  \/ (z1 = z2
      /\ exists a b, (b < a)%nat /\ ORDER !! a = Some k1 /\ ORDER !! b = Some k2).
Proof.
  intros Hij Hi Hj. unfold traversal in Hi, Hj.
  destruct (bind_lookup_order _ _ _ _ _ _ Hij Hi Hj)
    as (p & q & za & zb & i' & j' & Hp & Hq & Ha & Hb & Hord).
  destruct (bucket_visits_order g za) as [Hsub Hall].
  pose proof (Forall_lookup_1 _ _ _ _ Hall Ha) as [Hz1 _].
  destruct (bucket_visits_order g zb) as [_ Hallb].
  pose proof (Forall_lookup_1 _ _ _ _ Hallb Hb) as [Hz2 _].
  cbn in Hz1, Hz2. subst za zb.
  destruct Hord as [Hpq|[-> Hij']].
  - left. exact (StronglySorted_lookup Z.gt _ p q z1 z2 (bucket_order_descending g)
                   Hpq Hp Hq).
  - right. rewrite Hp in Hq. injection Hq as <-. split; [done|].
    destruct (sublist_lookup_order _ _ i' j' k1 k2 Hsub Hij')
      as (a & b & Hab & Hka & Hkb).
    { by rewrite list_lookup_fmap, Ha. }
    { by rewrite list_lookup_fmap, Hb. }
    apply reverse_lookup_Some in Hka as [Hka Hla].
    apply reverse_lookup_Some in Hkb as [Hkb Hlb].
    exists (length ORDER - S a)%nat, (length ORDER - S b)%nat.
    split; [lia|done].
Qed.

(** A visit replays the hit-detection stream of the executor, unless the
    executor is put aside for decluttering. *)
Lemma visit_executor_replays (env : HitEnv (T := T)) z replayType executor st :
  (hs_declutterReplays st = None \/ is_image_or_text replayType = false ->
   visit_executor env z replayType executor st
   = (r <-- executeHitDetection (he_fuel env) executor (hs_context st)
              (transform2D (ex_coordinates executor) (he_transform env))
              (he_skippedFeaturesHash env) (Some (featureCallback env replayType))
              (he_hitExtent env) ;;
      Ret (fst r, {| hs_size := hs_size st; hs_context := rs_context (snd r);
                     hs_declutterReplays := hs_declutterReplays st |})))
  /\ (forall declutterReplays,
        hs_declutterReplays st = Some declutterReplays ->
        is_image_or_text replayType = true ->
        visit_executor env z replayType executor st
        = Ret (None,
               {| hs_size := hs_size st; hs_context := hs_context st;
                  hs_declutterReplays :=
                    Some (<[z := default [] (declutterReplays !! z)
                                    ++ [(executor, he_transform env)]]>
                            declutterReplays) |})).
Proof.
  unfold visit_executor, run_executor. split.
  - intros [-> | Hk]; [done|]. rewrite Hk. by destruct (hs_declutterReplays st).
  - intros declutterReplays -> ->. done.
Qed.

(** C6: [forEachFeatureAtCoordinate] goes through the executors of the
    group in the order of [traversal] and returns the first truthy result
    of their hit-detection replays.  The traversal holds every executor of
    the group that is filed under a kind of ORDER, and nothing else; what
    comes earlier in it has the strictly higher z-index or, at the same
    z-index, the later place in ORDER.  A visit calls [executeHitDetection]
    of the executor on the hit-detection context, unless declutter replays
    are collected and the kind is image or text, in which case the executor
    is put aside and not replayed.  If the visits before an executor end
    without a truthy result and the replay of that executor returns one,
    this result is what [forEachFeatureAtCoordinate] returns, the executors
    behind it in the traversal being left alone. *)
Theorem forEachFeatureAtCoordinate_order (fuel : nat) (g : ExecutorGroup)
    (coordinate : Q * Q) (resolution rotation hitTolerance : Q)
    (skippedFeaturesHash : gmap string bool) (callback : Feature -> option T)
    (st : HitState) (store : CircleStore) :
  forEachFeatureAtCoordinate fuel g coordinate resolution rotation hitTolerance
    skippedFeaturesHash callback st store
  = (s <-- hit_test_setup fuel g coordinate resolution rotation hitTolerance
             skippedFeaturesHash callback st store ;;
     let '(env, st1, store1) := s in
     r <-- first_hit env (traversal g) st1 ;;
     Ret (fst r, snd r, store1))
  /\ StronglySorted Z.gt (bucket_order g)
  /\ (forall z,
        (fun v => snd (fst v)) <$> bucket_visits g z `sublist_of` reverse ORDER
        /\ Forall (fun v => fst (fst v) = z
                             /\ executorsByZIndex_ g !! z ≫= (.!! snd (fst v))
                                = Some (snd v))
             (bucket_visits g z))
  /\ (forall (env : HitEnv (T := T)) visited later st',
        first_hit env (visited ++ later) st'
        = (r <-- first_hit env visited st' ;;
           match fst r with
           | Some result => Ret (Some result, snd r)
           | None => first_hit env later (snd r)
           end))
  /\ (forall z replayType executor,
        (z, replayType, executor) ∈ traversal g
        <-> replayType ∈ ORDER
            /\ executorsByZIndex_ g !! z ≫= (.!! replayType) = Some executor)
  /\ (forall (i j : nat) z1 k1 e1 z2 k2 e2,
        (i < j)%nat ->
        traversal g !! i = Some (z1, k1, e1) ->
        traversal g !! j = Some (z2, k2, e2) ->
        z1 > z2
        \/ (z1 = z2
            /\ exists a b,
                 (b < a)%nat /\ ORDER !! a = Some k1 /\ ORDER !! b = Some k2))
  /\ (forall (env : HitEnv (T := T)) z replayType executor st',
        (hs_declutterReplays st' = None \/ is_image_or_text replayType = false ->
         visit_executor env z replayType executor st'
         = (r <-- executeHitDetection (he_fuel env) executor (hs_context st')
                    (transform2D (ex_coordinates executor) (he_transform env))
                    (he_skippedFeaturesHash env)
                    (Some (featureCallback env replayType)) (he_hitExtent env) ;;
            Ret (fst r, {| hs_size := hs_size st'; hs_context := rs_context (snd r);
                           hs_declutterReplays := hs_declutterReplays st' |})))
        /\ (forall declutterReplays,
              hs_declutterReplays st' = Some declutterReplays ->
              is_image_or_text replayType = true ->
              visit_executor env z replayType executor st'
              = Ret (None,
                     {| hs_size := hs_size st'; hs_context := hs_context st';
                        hs_declutterReplays :=
                          Some (<[z := default [] (declutterReplays !! z)
                                          ++ [(executor, he_transform env)]]>
                                  declutterReplays) |})))
  /\ (forall (env : HitEnv (T := T)) st',
        first_hit env [] st' = Ret (None, st')
        /\ forall z replayType executor rest,
             first_hit env ((z, replayType, executor) :: rest) st'
             = (r <-- visit_executor env z replayType executor st' ;;
                match fst r with
                | Some result => Ret (Some result, snd r)
                | None => first_hit env rest (snd r)
                end))
  /\ (forall (env : HitEnv (T := T)) st1 store1 before z replayType executor after
             st2 result rst,
        hit_test_setup fuel g coordinate resolution rotation hitTolerance
          skippedFeaturesHash callback st store = Ret (env, st1, store1) ->
        traversal g = before ++ (z, replayType, executor) :: after ->
        first_hit env before st1 = Ret (None, st2) ->
        hs_declutterReplays st2 = None \/ is_image_or_text replayType = false ->
        executeHitDetection (he_fuel env) executor (hs_context st2)
          (transform2D (ex_coordinates executor) (he_transform env))
          (he_skippedFeaturesHash env) (Some (featureCallback env replayType))
          (he_hitExtent env)
        = Ret (Some result, rst) ->
        forEachFeatureAtCoordinate fuel g coordinate resolution rotation hitTolerance
          skippedFeaturesHash callback st store
        = Ret (Some result,
               {| hs_size := hs_size st2; hs_context := rs_context rst;
                  hs_declutterReplays := hs_declutterReplays st2 |},
               store1)).
Proof.
  assert (Hloops :
    forEachFeatureAtCoordinate fuel g coordinate resolution rotation hitTolerance
      skippedFeaturesHash callback st store
    = (s <-- hit_test_setup fuel g coordinate resolution rotation hitTolerance
               skippedFeaturesHash callback st store ;;
       let '(env, st1, store1) := s in
       r <-- first_hit env (traversal g) st1 ;;
       Ret (fst r, snd r, store1))).
  { unfold forEachFeatureAtCoordinate.
    destruct (hit_test_setup _ _ _ _ _ _ _ _ _ _) as [[[env st1] store1]| |];
      simpl; try done.
    rewrite zs_loop_first_hit by (apply sorted_zs_keys || lia).
    by rewrite firstn_all. }
  split; [exact Hloops|].
  split; [apply bucket_order_descending|].
  split; [apply bucket_visits_order|].
  split; [apply first_hit_app|].
  split; [apply traversal_elem|].
  split; [apply traversal_order|].
  split; [apply visit_executor_replays|].
  split; [intros env st'; split; [done|by intros z replayType executor rest]|].
  intros env st1 store1 before z replayType executor after st2 result rst
    Hsetup Htrav Hbefore Hcase Hreplay.
  rewrite Hloops, Hsetup. cbn [rbind].
  rewrite Htrav, first_hit_app, Hbefore. cbn [rbind fst snd first_hit].
  rewrite (proj1 (visit_executor_replays env z replayType executor st2) Hcase).
  rewrite Hreplay. done.
Qed.

End ExecutorGroupProofs.

(** Three stacked features and a callback that accepts every feature: the
    hit test returns the line string at the highest z-index, which comes
    before the polygon of that z-index, and has then replayed that one
    executor only; its traversal has the four executors in the order of
    falling z-index and kind. *)
Example forEachFeatureAtCoordinate_stacked :
  (fun v => (fst (fst v), snd (fst v)))
    <$> traversal (rops := ol_render) stacked_group
  = [(2, LineString); (2, Polygon); (1, Polygon); (0, Polygon)]
  /\ exists st store,
       forEachFeatureAtCoordinate (ops := ol_extent) (fops := example_foreign)
           (rops := ol_render) 20
         stacked_group (5, 5)%Q 1 0 1 ∅ (fun f => Some (getUid f))
         empty_hit_state initial_circle_store
       = Ret (Some "1"%string, st, store)
       /\ hs_context st
          = [CtxResize 3; CtxFillStyle (Some "black"); CtxBeginPath;
             CtxMoveTo (Some 1%Q) (Some 1%Q); CtxLineTo (Some 20%Q) (Some 1%Q);
             CtxLineTo (Some 5%Q) (Some 5%Q); CtxFill].
Proof.
  split; [by vm_compute|].
  eexists _, _. split; [vm_compute; reflexivity|reflexivity].
Qed.

(** ** The pipeline on examples *)

(** Two line strings through [drawLineString] and
    [reverseHitDetectionInstructions]: the block of the second feature comes
    first, each block is in drawing order, and each BEGIN_GEOMETRY points at
    its END_GEOMETRY. *)
Example drawLineString_hit_stream_reversed :
  exists b,
    two_lines = Ret b
    /\ instruction_summary <$> reverseHitDetectionInstructions (hitDetectionInstructions b)
       = [(Some BEGIN_GEOMETRY, "2", 5); (Some SET_STROKE_STYLE, "", 0);
          (Some BEGIN_PATH, "", 0); (Some MOVE_TO_LINE_TO, "", 0);
          (Some STROKE, "", 0); (Some END_GEOMETRY, "2", 0);
          (Some BEGIN_GEOMETRY, "1", 11); (Some SET_STROKE_STYLE, "", 0);
          (Some BEGIN_PATH, "", 0); (Some MOVE_TO_LINE_TO, "", 0);
          (Some STROKE, "", 0); (Some END_GEOMETRY, "1", 0)]%string
    /\ instruction_summary <$> instructions b
       = [(Some SET_STROKE_STYLE, "", 0); (Some BEGIN_PATH, "", 0);
          (Some BEGIN_GEOMETRY, "1", 4); (Some MOVE_TO_LINE_TO, "", 0);
          (Some END_GEOMETRY, "1", 0); (Some BEGIN_GEOMETRY, "2", 7);
          (Some MOVE_TO_LINE_TO, "", 0); (Some END_GEOMETRY, "2", 0)]%string.
Proof.
  eexists. split; [vm_compute; reflexivity|]. split; reflexivity.
Qed.

(** The mask of radius 2. *)
Example getCircleArray_radius_2 :
  exists store,
    getCircleArray 3 2 initial_circle_store = Ret (1%nat, store)
    /\ cs_masks store !! 1%nat
       = Some [[None; None; None; None; None];
               [None; None; Some true; None; None];
               [None; Some true; Some true; Some true; None];
               [None; None; Some true; None; None];
               [None; None; None; None; None]].
Proof.
  eexists. split; [vm_compute; reflexivity|reflexivity].
Qed.

(** * Further properties *)

(** ** Styles and the buffered extent *)

Lemma Qlt_b_true a b : Qlt_b a b = true -> Qlt a b.
Proof.
  unfold Qlt_b. intros H. apply negb_true_iff in H.
  apply Qnot_le_lt. intros Hle. apply Qle_bool_iff in Hle. congruence.
Qed.

Lemma Qlt_b_false a b : Qlt_b a b = false -> Qle b a.
Proof.
  unfold Qlt_b. intros H. apply negb_false_iff in H. by apply Qle_bool_iff.
Qed.

Section StyleProofs.
Context {ops : ExtentOps} {defaults : CanvasDefaults}.

Lemma getBufferedMaxExtent_ok b :
  buffered_extent_ok b ->
  fst (getBufferedMaxExtent b) = buffered_extent_of b
  /\ bufferedMaxExtent_ (snd (getBufferedMaxExtent b)) = Some (buffered_extent_of b)
  /\ buffered_extent_ok (snd (getBufferedMaxExtent b))
  /\ maxLineWidth (snd (getBufferedMaxExtent b)) = maxLineWidth b.
Proof.
  intros Hok. unfold getBufferedMaxExtent.
  destruct (bufferedMaxExtent_ b) as [e|] eqn:He; cbn [fst snd].
  - rewrite (Hok e He). rewrite He, (Hok e He). done.
  - unfold buffered_extent_ok, buffered_extent_of. cbn.
    repeat split; try done. intros e [= <-]. done.
Qed.

(** X1: The extent the clipper works with follows the widest stroke set so
    far.  [setFillStrokeStyle] drops the cached extent exactly when the new
    stroke is wider than every stroke before: then the maximal line width
    becomes the width of the stroke and the cache is null; with a stroke
    that is not wider, and without a stroke, both stay as they are.  The
    maximal line width never shrinks and bounds the line width of the
    state, and the next [getBufferedMaxExtent] returns, and caches, the
    extent of the present maximal line width. *)
Theorem setFillStrokeStyle_buffered_extent (b : CanvasBuilder)
    (fillStyle' : option FillStyle) (strokeStyle' : option StrokeStyle) :
  buffered_extent_ok b ->
  let b1 := setFillStrokeStyle b fillStyle' strokeStyle' in
  let extent := fst (getBufferedMaxExtent b1) in
  let b2 := snd (getBufferedMaxExtent b1) in
  buffered_extent_ok b1
  /\ extent = buffered_extent_of b1
  /\ bufferedMaxExtent_ b2 = Some extent
  /\ buffered_extent_ok b2
  /\ Qle (maxLineWidth b) (maxLineWidth b1)
  /\ (forall w, lineWidth (state b1) = Some w -> Qle w (maxLineWidth b1))
  /\ (Qlt (maxLineWidth b) (maxLineWidth b1) -> bufferedMaxExtent_ b1 = None)
  /\ (~ Qlt (maxLineWidth b) (maxLineWidth b1) ->
      bufferedMaxExtent_ b1 = bufferedMaxExtent_ b
      /\ maxLineWidth b1 = maxLineWidth b)
  /\ (strokeStyle' = None ->
      bufferedMaxExtent_ b1 = bufferedMaxExtent_ b
      /\ maxLineWidth b1 = maxLineWidth b)
  /\ (forall k, strokeStyle' = Some k ->
        let width := default defaultLineWidth (getWidth k) in
        lineWidth (state b1) = Some width
        /\ (Qlt (maxLineWidth b) width ->
            maxLineWidth b1 = width /\ bufferedMaxExtent_ b1 = None)
        /\ (Qle width (maxLineWidth b) ->
            maxLineWidth b1 = maxLineWidth b
            /\ bufferedMaxExtent_ b1 = bufferedMaxExtent_ b)).
Proof.
  intros Hok b1 extent b2.
  assert (Hok1 : buffered_extent_ok b1).
  { subst b1. unfold setFillStrokeStyle. cbv zeta.
    destruct strokeStyle' as [k|].
    - destruct (Qlt_b (maxLineWidth b) (default defaultLineWidth (getWidth k))) eqn:Hw.
      + intros e. cbn. done.
      + intros e He. cbn in He. by rewrite (Hok e He).
    - intros e He. cbn in He. by rewrite (Hok e He). }
  destruct (getBufferedMaxExtent_ok b1 Hok1) as (H1 & H2 & H3 & _).
  split; [done|]. split; [done|]. split; [by subst extent b2; rewrite H1|].
  split; [done|].
  subst b1. unfold setFillStrokeStyle. cbv zeta.
  destruct strokeStyle' as [k|]; cbn.
  - destruct (Qlt_b (maxLineWidth b) (default defaultLineWidth (getWidth k))) eqn:Hw.
    + pose proof (Qlt_b_true _ _ Hw) as Hlt.
      split; [by apply Qlt_le_weak|].
      split; [intros w [= <-]; apply Qle_refl|].
      split; [done|].
      split; [intros Hn; by destruct Hn|].
      split; [done|].
      intros k' [= <-]. split; [done|]. split; [done|].
      intros Hle. by apply Qle_not_lt in Hle.
    + pose proof (Qlt_b_false _ _ Hw) as Hle.
      split; [apply Qle_refl|].
      split; [intros w [= <-]; done|].
      split; [intros Hlt; by apply Qlt_irrefl in Hlt|].
      split; [done|].
      split; [done|].
      intros k' [= <-]. split; [done|]. split; [|done].
      intros Hlt. by apply Qlt_not_le in Hlt.
  - split; [apply Qle_refl|]. split; [done|].
    split; [intros Hlt; by apply Qlt_irrefl in Hlt|].
    split; [done|]. split; [done|].
    intros k' Hk. discriminate Hk.
Qed.

End StyleProofs.

(** ** Emitting the stroke style *)

Lemma Qeq_bool_refl q : Qeq_bool q q = true.
Proof. apply Qeq_bool_iff. reflexivity. Qed.

Lemma neq_number_refl x : neq_number x x = false.
Proof. destruct x; simpl; [by rewrite Qeq_bool_refl|done]. Qed.

Lemma neq_string_refl x : neq_string x x = false.
Proof. unfold neq_string. by apply bool_decide_eq_false; intros []. Qed.

Lemma neq_lineDash_refl l : neq_lineDash l l = Ret false.
Proof.
  destruct l as [l|]; simpl; [|done].
  rewrite bool_decide_eq_true_2 by done. simpl.
  replace (forallb (fun p => Qeq_bool p.1 p.2) (zip l l)) with true; [done|].
  symmetry. induction l as [|x l IH]; simpl; [done|].
  by rewrite Qeq_bool_refl.
Qed.

Lemma set_current_stroke_is_current s : stroke_is_current (set_current_stroke s).
Proof.
  unfold stroke_is_current. cbn.
  rewrite !neq_string_refl, !neq_number_refl, neq_lineDash_refl. done.
Qed.

Section StrokeProofs.
Context {ops : ExtentOps}.

Lemma applyPixelRatio_Some b l :
  exists l', applyPixelRatio b (Some l) = Ret (Some l').
Proof. unfold applyPixelRatio. destruct (Qeq_bool (pixelRatio b) 1); eauto. Qed.

Lemma CanvasBuilder_applyStroke_applies : applies_stroke CanvasBuilder_applyStroke.
Proof.
  intros b [l Hl]. unfold CanvasBuilder_applyStroke, createStroke.
  rewrite Hl. destruct (applyPixelRatio_Some b l) as [l' ->]. cbn.
  eexists _, _. split; [reflexivity|]. done.
Qed.

Lemma CanvasLineStringBuilder_applyStroke_applies :
  applies_stroke CanvasLineStringBuilder_applyStroke.
Proof.
  intros b [l Hl]. unfold CanvasLineStringBuilder_applyStroke.
  set (b1 := match lastStroke (state b) with Some _ => _ | None => _ end).
  assert (H1 : stroke_fields (state b1) = stroke_fields (state b)
               /\ current_stroke_fields (state b1) = current_stroke_fields (state b)
               /\ (exists pushed, instructions b1 = instructions b ++ pushed)
               /\ hitDetectionInstructions b1 = hitDetectionInstructions b
               /\ coordinates b1 = coordinates b).
  { subst b1. destruct (lastStroke (state b)).
    - case_bool_decide; cbn; repeat split; try done;
        [by eexists | exists []; by rewrite app_nil_r].
    - repeat split; try done. exists []. by rewrite app_nil_r. }
  destruct H1 as (H1 & H1' & [pushed Hp] & Hh & Hc).
  set (b2 := set_state b1 _).
  assert (Hl2 : lineDash (state b2) = Some l).
  { subst b2. cbn. unfold stroke_fields in H1. congruence. }
  destruct (CanvasBuilder_applyStroke_applies b2 (ex_intro _ l Hl2))
    as (b3 & pushed3 & -> & H3 & H3' & Hp3 & Hh3 & Hc3). cbn.
  eexists _, _. split; [reflexivity|]. cbn. rewrite H3, H3', Hp3, Hh3, Hc3.
  subst b2. cbn. rewrite Hp, <- !app_assoc. done.
Qed.

Lemma updateStrokeStyle_returns (b : CanvasBuilder)
    (applyStroke : CanvasBuilder -> Result CanvasBuilder) :
  applies_stroke applyStroke ->
  stroke_state_ok (state b) ->
  exists b1 pushed,
    updateStrokeStyle b applyStroke = Ret b1
    /\ stroke_state_ok (state b1)
    /\ stroke_is_current (state b1)
    /\ stroke_fields (state b1) = stroke_fields (state b)
    /\ updateStrokeStyle b1 applyStroke = Ret b1
    /\ instructions b1 = instructions b ++ pushed
    /\ hitDetectionInstructions b1 = hitDetectionInstructions b
    /\ coordinates b1 = coordinates b.
Proof.
  intros Happly [Hok Hokc].
  assert (Hagain : forall b1, stroke_is_current (state b1) ->
            updateStrokeStyle b1 applyStroke = Ret b1).
  { intros b1 (H1 & H2 & H3 & H4 & H5 & H6 & H7). unfold updateStrokeStyle.
    rewrite H1, H2, H3, H4, H5, H6, H7. done. }
  assert (Hchanged : forall b1,
            stroke_fields (state b1) = stroke_fields (state b) ->
            stroke_state_ok (set_current_stroke (state b1))).
  { intros b1 Hf. unfold stroke_fields in Hf. unfold stroke_state_ok. cbn.
    assert (strokeStyle (state b1) = strokeStyle (state b)) as -> by congruence.
    assert (lineDash (state b1) = lineDash (state b)) as -> by congruence.
    done. }
  assert (Hyes : exists b1 pushed,
            (b1' <-- match strokeStyle (state b) with
                     | Some _ => applyStroke b
                     | None => Ret b
                     end ;;
             Ret (set_state b1' (set_current_stroke (state b1')))) = Ret b1
            /\ stroke_state_ok (state b1)
            /\ stroke_is_current (state b1)
            /\ stroke_fields (state b1) = stroke_fields (state b)
            /\ updateStrokeStyle b1 applyStroke = Ret b1
            /\ instructions b1 = instructions b ++ pushed
            /\ hitDetectionInstructions b1 = hitDetectionInstructions b
            /\ coordinates b1 = coordinates b).
  { destruct (strokeStyle (state b)) as [c|] eqn:Hc.
    - assert (Hl : is_Some (lineDash (state b))).
      { destruct (lineDash (state b)) eqn:Hd; [by eexists|].
        destruct Hok as [_ Hok]. discriminate (Hok eq_refl). }
      destruct (Happly b Hl) as (b' & pushed & -> & Hf & Hfc & Hp & Hh & Hco). cbn.
      eexists _, pushed. split; [reflexivity|]. cbn.
      split; [by apply Hchanged|]. split; [apply set_current_stroke_is_current|].
      split; [by rewrite <- Hf|].
      split; [apply Hagain; cbn; apply set_current_stroke_is_current|].
      done.
    - cbn. eexists _, []. split; [reflexivity|]. cbn.
      split; [by apply Hchanged|]. split; [apply set_current_stroke_is_current|].
      split; [done|].
      split; [apply Hagain; cbn; apply set_current_stroke_is_current|].
      by rewrite app_nil_r. }
  unfold updateStrokeStyle at 1.
  destruct (neq_string (currentStrokeStyle (state b)) (strokeStyle (state b))) eqn:E1;
    [exact Hyes|].
  destruct (neq_string (currentLineCap (state b)) (lineCap (state b))) eqn:E2;
    [exact Hyes|].
  assert (Heq : currentStrokeStyle (state b) = strokeStyle (state b)).
  { unfold neq_string in E1. apply bool_decide_eq_false in E1.
    destruct (decide (currentStrokeStyle (state b) = strokeStyle (state b))); [done|].
    by destruct E1. }
  assert (Hdash : exists d, neq_lineDash (lineDash (state b)) (currentLineDash (state b)) = Ret d).
  { destruct (lineDash (state b)) as [l|] eqn:Hl,
             (currentLineDash (state b)) as [cl|] eqn:Hcl; simpl; eauto.
    - exfalso. destruct Hokc as [_ Hokc]. specialize (Hokc eq_refl).
      rewrite Heq in Hokc. apply Hok in Hokc. congruence.
    - exfalso. destruct Hok as [_ Hok']. specialize (Hok' eq_refl).
      rewrite <- Heq in Hok'. apply Hokc in Hok'. congruence. }
  destruct Hdash as [d Hd]. rewrite Hd. cbn [rbind].
  destruct (d || neq_number (currentLineDashOffset (state b)) (lineDashOffset (state b))
            || neq_string (currentLineJoin (state b)) (lineJoin (state b))
            || neq_number (currentLineWidth (state b)) (lineWidth (state b))
            || neq_number (currentMiterLimit (state b)) (miterLimit (state b))) eqn:E3;
    [exact Hyes|].
  apply orb_false_iff in E3 as [E3 E7]. apply orb_false_iff in E3 as [E3 E6].
  apply orb_false_iff in E3 as [E3 E5]. apply orb_false_iff in E3 as [E3 E4]. subst d.
  assert (Hcur : stroke_is_current (state b)) by done.
  exists b, []. split; [done|]. split; [done|]. split; [done|]. split; [done|].
  split; [by apply Hagain|]. by rewrite app_nil_r.
Qed.

(** [updateStrokeStyle] applies the stroke exactly when the requested
    stroke is not the current one. *)
Lemma updateStrokeStyle_cases (b : CanvasBuilder)
    (applyStroke : CanvasBuilder -> Result CanvasBuilder) :
  stroke_state_ok (state b) ->
  (stroke_is_current (state b) /\ updateStrokeStyle b applyStroke = Ret b)
  \/ (~ stroke_is_current (state b)
      /\ updateStrokeStyle b applyStroke
         = (b1 <-- match strokeStyle (state b) with
                   | Some _ => applyStroke b
                   | None => Ret b
                   end ;;
            Ret (set_state b1 (set_current_stroke (state b1))))).
Proof.
  intros [Hok Hokc]. unfold updateStrokeStyle, stroke_is_current.
  destruct (neq_string (currentStrokeStyle (state b)) (strokeStyle (state b))) eqn:E1;
    [right; split; [by intros [? _]|done]|].
  destruct (neq_string (currentLineCap (state b)) (lineCap (state b))) eqn:E2;
    [right; split; [by intros (_ & ? & _)|done]|].
  assert (Heq : currentStrokeStyle (state b) = strokeStyle (state b)).
  { unfold neq_string in E1. apply bool_decide_eq_false in E1.
    destruct (decide (currentStrokeStyle (state b) = strokeStyle (state b))); [done|].
    by destruct E1. }
  assert (Hdash : exists d, neq_lineDash (lineDash (state b)) (currentLineDash (state b)) = Ret d).
  { destruct (lineDash (state b)) as [l|] eqn:Hl,
             (currentLineDash (state b)) as [cl|] eqn:Hcl; simpl; eauto.
    - exfalso. destruct Hokc as [_ Hokc]. specialize (Hokc eq_refl).
      rewrite Heq in Hokc. apply Hok in Hokc. congruence.
    - exfalso. destruct Hok as [_ Hok']. specialize (Hok' eq_refl).
      rewrite <- Heq in Hok'. apply Hokc in Hok'. congruence. }
  destruct Hdash as [d Hd]. rewrite Hd. cbn [rbind].
  destruct (d || neq_number (currentLineDashOffset (state b)) (lineDashOffset (state b))
            || neq_string (currentLineJoin (state b)) (lineJoin (state b))
            || neq_number (currentLineWidth (state b)) (lineWidth (state b))
            || neq_number (currentMiterLimit (state b)) (miterLimit (state b))) eqn:E3.
  - right. split; [|done].
    intros (_ & _ & H3 & H4 & H5 & H6 & H7). injection H3 as ->.
    rewrite H4, H5, H6, H7 in E3. discriminate E3.
  - apply orb_false_iff in E3 as [E3 E7]. apply orb_false_iff in E3 as [E3 E6].
    apply orb_false_iff in E3 as [E3 E5]. apply orb_false_iff in E3 as [E3 E4]. subst d.
    left. done.
Qed.

(** What the two [applyStroke] methods push when there is a dash array. *)
Lemma CanvasBuilder_applyStroke_pushes (b : CanvasBuilder) (l : list Q) :
  lineDash (state b) = Some l ->
  exists payload,
    createStroke b (state b) = Ret (ISetStrokeStyle payload)
    /\ sp_strokeStyle payload = strokeStyle (state b)
    /\ CanvasBuilder_applyStroke b
       = Ret (set_instructions b (instructions b ++ [ISetStrokeStyle payload])).
Proof.
  intros Hl. unfold CanvasBuilder_applyStroke, createStroke. rewrite Hl.
  destruct (applyPixelRatio_Some b l) as [l' ->]. cbn [rbind].
  eexists. split; [reflexivity|]. split; reflexivity.
Qed.

Lemma CanvasLineStringBuilder_applyStroke_pushes (b : CanvasBuilder) (l : list Q) :
  lineDash (state b) = Some l ->
  let closing :=
    match lastStroke (state b) with
    | Some ls =>
      if bool_decide (ls <> Z.of_nat (length (coordinates b)))
      then [strokeInstruction] else []
    | None => []
    end in
  exists payload b1,
    createStroke b (state b) = Ret (ISetStrokeStyle payload)
    /\ sp_strokeStyle payload = strokeStyle (state b)
    /\ CanvasLineStringBuilder_applyStroke b = Ret b1
    /\ instructions b1
       = instructions b ++ closing ++ [ISetStrokeStyle payload; beginPathInstruction]
    /\ lastStroke (state b1) = Some 0.
Proof.
  intros Hl closing. subst closing.
  destruct (CanvasBuilder_applyStroke_pushes b l Hl) as (payload & Hcreate & Hsp & _).
  exists payload.
  unfold CanvasLineStringBuilder_applyStroke, CanvasBuilder_applyStroke.
  unfold createStroke in Hcreate |- *. rewrite Hl in Hcreate.
  destruct (applyPixelRatio b (Some l)) as [dash| |] eqn:Hdash; try discriminate Hcreate.
  cbn [rbind] in Hcreate.
  assert (Hratio : forall b', pixelRatio b' = pixelRatio b ->
            applyPixelRatio b' (Some l) = Ret dash).
  { intros b' Hb'. unfold applyPixelRatio in Hdash |- *. by rewrite Hb'. }
  destruct (lastStroke (state b)) as [ls|]; [case_bool_decide|];
    cbn [state set_state set_instructions set_lastStroke lineDash instructions];
    rewrite ?Hl, !Hratio by done; cbn [rbind];
    (eexists; split; [exact Hcreate|]; split; [exact Hsp|]; split; [reflexivity|]);
    cbn; rewrite <- ?app_assoc; cbn; (split; [|done]).
  - injection Hcreate as <-. done.
  - injection Hcreate as <-. done.
  - injection Hcreate as <-. done.
Qed.

(** X2: [updateStrokeStyle] on a state whose stroke fields were set together,
    as [setFillStrokeStyle] sets them, returns, pushes on the render stream
    only, and leaves a state of the same kind that has the requested stroke
    as its current one.  When the requested stroke is already the current
    one, nothing is pushed and the builder stays as it is.  When it is not
    and there is a stroke style, the stroke is applied once: the builder
    pushes one SET_STROKE_STYLE, the instruction [createStroke] makes of the
    state; the line-string builder pushes, after a STROKE that closes a
    path left open, one SET_STROKE_STYLE and one BEGIN_PATH, and sets
    [lastStroke] to 0.  Without a stroke style nothing is pushed.  A second
    call right after the first changes nothing, so that the stroke style is
    emitted once for geometries that follow each other with one style. *)
Theorem updateStrokeStyle_twice (b : CanvasBuilder) :
  stroke_state_ok (state b) ->
  (exists b1 pushed,
     updateStrokeStyle b CanvasLineStringBuilder_applyStroke = Ret b1
     /\ stroke_state_ok (state b1)
     /\ stroke_is_current (state b1)
     /\ stroke_fields (state b1) = stroke_fields (state b)
     /\ updateStrokeStyle b1 CanvasLineStringBuilder_applyStroke = Ret b1
     /\ instructions b1 = instructions b ++ pushed
     /\ hitDetectionInstructions b1 = hitDetectionInstructions b
     /\ coordinates b1 = coordinates b
     /\ (stroke_is_current (state b) -> b1 = b /\ pushed = [])
     /\ (~ stroke_is_current (state b) -> strokeStyle (state b) = None ->
         pushed = [])
     /\ (~ stroke_is_current (state b) -> is_Some (strokeStyle (state b)) ->
         exists payload,
           createStroke b (state b) = Ret (ISetStrokeStyle payload)
           /\ sp_strokeStyle payload = strokeStyle (state b)
           /\ pushed
              = match lastStroke (state b) with
                | Some ls =>
                  if bool_decide (ls <> Z.of_nat (length (coordinates b)))
                  then [strokeInstruction] else []
                | None => []
                end ++ [ISetStrokeStyle payload; beginPathInstruction]
           /\ lastStroke (state b1) = Some 0))
  /\ (exists b1 pushed,
        updateStrokeStyle b CanvasBuilder_applyStroke = Ret b1
        /\ stroke_state_ok (state b1)
        /\ stroke_is_current (state b1)
        /\ stroke_fields (state b1) = stroke_fields (state b)
        /\ updateStrokeStyle b1 CanvasBuilder_applyStroke = Ret b1
        /\ instructions b1 = instructions b ++ pushed
        /\ hitDetectionInstructions b1 = hitDetectionInstructions b
        /\ coordinates b1 = coordinates b
        /\ (stroke_is_current (state b) -> b1 = b /\ pushed = [])
        /\ (~ stroke_is_current (state b) -> strokeStyle (state b) = None ->
            pushed = [])
        /\ (~ stroke_is_current (state b) -> is_Some (strokeStyle (state b)) ->
            exists payload,
              createStroke b (state b) = Ret (ISetStrokeStyle payload)
              /\ sp_strokeStyle payload = strokeStyle (state b)
              /\ pushed = [ISetStrokeStyle payload])).
Proof.
  intros Hok.
  assert (Hdash : is_Some (strokeStyle (state b)) -> exists l, lineDash (state b) = Some l).
  { intros [c Hc]. destruct (lineDash (state b)) as [l|] eqn:Hl; [by eexists|].
    destruct Hok as [[_ Hok] _]. specialize (Hok Hl). congruence. }
  split.
  - destruct (updateStrokeStyle_returns b CanvasLineStringBuilder_applyStroke
                CanvasLineStringBuilder_applyStroke_applies Hok)
      as (b1 & pushed & Hup & H1 & H2 & H3 & H4 & Hins & H6 & H7).
    exists b1, pushed. do 8 (split; [done|]).
    destruct (updateStrokeStyle_cases b CanvasLineStringBuilder_applyStroke Hok)
      as [[Hcur Hsame]|[Hncur Hchanged]].
    + rewrite Hsame in Hup. injection Hup as <-.
      assert (Hnil : pushed = []).
      { apply (app_inv_head (instructions b)). by rewrite app_nil_r. }
      split; [done|]. split; intros Hn; by destruct Hn.
    + split; [intros Hcur; by destruct Hncur|]. rewrite Hchanged in Hup. split.
      * intros _ Hnone. rewrite Hnone in Hup. cbn in Hup. injection Hup as <-.
        cbn in Hins. apply (app_inv_head (instructions b)). by rewrite app_nil_r.
      * intros _ Hsome. destruct (Hdash Hsome) as [l Hl]. destruct Hsome as [c Hc].
        rewrite Hc in Hup.
        destruct (CanvasLineStringBuilder_applyStroke_pushes b l Hl)
          as (payload & b' & Hcreate & Hsp & Happly & Hins' & Hlast).
        rewrite Happly in Hup. cbn in Hup. injection Hup as <-.
        exists payload. split; [done|]. split; [done|]. split; [|done].
        cbn in Hins. rewrite Hins' in Hins.
        by apply (app_inv_head (instructions b)).
  - destruct (updateStrokeStyle_returns b CanvasBuilder_applyStroke
                CanvasBuilder_applyStroke_applies Hok)
      as (b1 & pushed & Hup & H1 & H2 & H3 & H4 & Hins & H6 & H7).
    exists b1, pushed. do 8 (split; [done|]).
    destruct (updateStrokeStyle_cases b CanvasBuilder_applyStroke Hok)
      as [[Hcur Hsame]|[Hncur Hchanged]].
    + rewrite Hsame in Hup. injection Hup as <-.
      assert (Hnil : pushed = []).
      { apply (app_inv_head (instructions b)). by rewrite app_nil_r. }
      split; [done|]. split; intros Hn; by destruct Hn.
    + split; [intros Hcur; by destruct Hncur|]. rewrite Hchanged in Hup. split.
      * intros _ Hnone. rewrite Hnone in Hup. cbn in Hup. injection Hup as <-.
        cbn in Hins. apply (app_inv_head (instructions b)). by rewrite app_nil_r.
      * intros _ Hsome. destruct (Hdash Hsome) as [l Hl]. destruct Hsome as [c Hc].
        rewrite Hc in Hup.
        destruct (CanvasBuilder_applyStroke_pushes b l Hl)
          as (payload & Hcreate & Hsp & Happly).
        rewrite Happly in Hup. cbn in Hup. injection Hup as <-.
        exists payload. split; [done|]. split; [done|].
        cbn in Hins. by apply (app_inv_head (instructions b)).
Qed.

End StrokeProofs.

(** ** Opening and closing a geometry *)

Lemma alter_at_middle {A} (f : A -> A) (pre post : list A) (x : A) :
  alter f (length pre) (pre ++ x :: post) = pre ++ f x :: post.
Proof.
  rewrite alter_app_r_alt by lia. by rewrite Nat.sub_diag.
Qed.

Lemma zlookup_app_end {A} (l : list A) (x : A) (i : Z) :
  i = Z.of_nat (length l) -> zlookup (l ++ [x]) i = Some x.
Proof. intros ->. apply zlookup_middle. Qed.

Section GeometryProofs.
Context {ops : ExtentOps}.

(** X3: [endGeometry] after [beginGeometry], with [mid1] and [mid2] pushed on
    the two streams in between: each stream has gained the block of the
    feature, and the skip index of its BEGIN_GEOMETRY is the index of its
    END_GEOMETRY.  The references to the open BEGIN_GEOMETRY instructions
    are null afterwards, as they are on a new builder: an [endGeometry]
    without a [beginGeometry] before it is a TypeError. *)
Theorem endGeometry_pairs (b : CanvasBuilder) (feature : Feature)
    (mid1 mid2 : list Instruction) :
  let b1 := beginGeometry b feature in
  let b2 := set_hitDetectionInstructions
              (set_instructions b1 (instructions b1 ++ mid1))
              (hitDetectionInstructions b1 ++ mid2) in
  let skip1 := Z.of_nat (length (instructions b)) + Z.of_nat (length mid1) + 1 in
  let skip2 := Z.of_nat (length (hitDetectionInstructions b)) + Z.of_nat (length mid2) + 1 in
  (exists b3,
     endGeometry b2 feature = Ret b3
     /\ instructions b3
        = instructions b
          ++ block_instructions {| b_feature := feature; b_skip := skip1;
                                   b_body := mid1; b_end_feature := feature |}
     /\ hitDetectionInstructions b3
        = hitDetectionInstructions b
          ++ block_instructions {| b_feature := feature; b_skip := skip2;
                                   b_body := mid2; b_end_feature := feature |}
     /\ zlookup (instructions b3) skip1 = Some (IEndGeometry feature)
     /\ zlookup (hitDetectionInstructions b3) skip2 = Some (IEndGeometry feature)
     /\ coordinates b3 = coordinates b
     /\ state b3 = state b
     /\ endGeometry b3 feature = Throw TypeError)
  /\ (forall c t e r p o d,
        endGeometry (new_builder c t e r p o d) feature = Throw TypeError).
Proof.
  intros b1 b2 skip1 skip2. split; [|done].
  unfold endGeometry. subst b2 b1. unfold beginGeometry.
  cbn [set_hitDetectionInstructions set_instructions set_beginGeometryInstructions
       beginGeometryInstruction1_ beginGeometryInstruction2_
       instructions hitDetectionInstructions].
  rewrite <- !app_assoc. cbn [app].
  rewrite !alter_at_middle. cbn [set_skip].
  rewrite !length_app. cbn [length].
  eexists. split; [reflexivity|].
  cbn [set_hitDetectionInstructions set_instructions set_beginGeometryInstructions
       beginGeometryInstruction1_ beginGeometryInstruction2_
       instructions hitDetectionInstructions coordinates state].
  unfold block_instructions. cbn [b_feature b_skip b_body b_end_feature].
  assert (E1 : Z.of_nat (length (instructions b) + S (length mid1)) = skip1)
    by (subst skip1; lia).
  assert (E2 : Z.of_nat (length (hitDetectionInstructions b) + S (length mid2)) = skip2)
    by (subst skip2; lia).
  rewrite E1, E2.
  split; [by rewrite <- app_assoc|]. split; [by rewrite <- app_assoc|].
  split.
  { apply zlookup_app_end. rewrite length_app. cbn [length]. lia. }
  split.
  { apply zlookup_app_end. rewrite length_app. cbn [length]. lia. }
  done.
Qed.

End GeometryProofs.

(** ** What [drawLineString] emits *)

Section LineStringProofs.
Context {ops : ExtentOps}.

Lemma appendFlatCoordinates_loop_returns extent fc end_ stride :
  0 < stride ->
  forall fuel st,
    (Z.to_nat (end_ - as_i st) <= fuel)%nat ->
    exists st', appendFlatCoordinates_loop fuel extent fc end_ stride st = Ret st'.
Proof.
  intros Hstride fuel. induction fuel as [|fuel IH]; intros st Hfuel.
  - simpl. rewrite decide_False by lia. by eexists.
  - simpl. destruct (decide (as_i st < end_)); [|by eexists].
    apply IH. unfold appendFlatCoordinates_body. cbv zeta.
    destruct (decide (Some _ <> _)) as [?|?];
      [destruct (as_skipped st)|destruct (decide (_ = Relationship_INTERSECTING))];
      cbn; lia.
Qed.

Lemma getBufferedMaxExtent_frame b :
  let b' := snd (getBufferedMaxExtent b) in
  instructions b' = instructions b
  /\ hitDetectionInstructions b' = hitDetectionInstructions b
  /\ coordinates b' = coordinates b
  /\ state b' = state b
  /\ beginGeometryInstruction1_ b' = beginGeometryInstruction1_ b
  /\ beginGeometryInstruction2_ b' = beginGeometryInstruction2_ b.
Proof. unfold getBufferedMaxExtent. by destruct (bufferedMaxExtent_ b). Qed.

Lemma appendFlatCoordinates_returns fuel b fc (offset end_ stride : Z)
    (closed skipFirst : bool) :
  0 < stride ->
  (Z.to_nat (end_ - offset) <= fuel)%nat ->
  exists myEnd coords,
    appendFlatCoordinates fuel b fc offset end_ stride closed skipFirst
    = Ret (myEnd, set_coordinates (snd (getBufferedMaxExtent b)) coords).
Proof.
  intros Hstride Hfuel. unfold appendFlatCoordinates.
  destruct (getBufferedMaxExtent b) as [extent b1]. cbn [snd].
  match goal with
  | |- context [appendFlatCoordinates_loop fuel extent fc end_ stride ?st0] =>
    destruct (appendFlatCoordinates_loop_returns extent fc end_ stride Hstride fuel st0)
      as [st' ->]
  end.
  { cbn. destruct skipFirst; lia. }
  cbn [rbind].
  unfold put_coord. destruct (_ || _); by eexists _, _.
Qed.

Lemma drawFlatCoordinates__returns fuel b fc (offset end_ stride : Z) :
  0 < stride ->
  (Z.to_nat (end_ - offset) <= fuel)%nat ->
  exists myEnd b',
    drawFlatCoordinates_ fuel b fc offset end_ stride = Ret (end_, b')
    /\ instructions b'
       = instructions b ++ [IMoveToLineTo (Z.of_nat (length (coordinates b))) myEnd]
    /\ hitDetectionInstructions b'
       = hitDetectionInstructions b
         ++ [IMoveToLineTo (Z.of_nat (length (coordinates b))) myEnd]
    /\ state b' = state b
    /\ beginGeometryInstruction1_ b' = beginGeometryInstruction1_ b
    /\ beginGeometryInstruction2_ b' = beginGeometryInstruction2_ b.
Proof.
  intros Hstride Hfuel. unfold drawFlatCoordinates_.
  destruct (appendFlatCoordinates_returns fuel b fc offset end_ stride false false
              Hstride Hfuel) as (myEnd & coords & ->).
  cbn [rbind]. destruct (getBufferedMaxExtent_frame b) as (H1 & H2 & H3 & H4 & H5 & H6).
  eexists myEnd, _. split; [reflexivity|]. cbn. rewrite H1, H2. done.
Qed.

Lemma hit_stroke_instruction_fields s s' :
  stroke_fields s' = stroke_fields s ->
  hit_stroke_instruction s' = hit_stroke_instruction s.
Proof.
  unfold stroke_fields, hit_stroke_instruction. intros [= -> -> -> -> -> -> ->]. done.
Qed.

(** [endGeometry] on a builder whose two streams hold an open
    BEGIN_GEOMETRY. *)
Lemma endGeometry_open (b : CanvasBuilder) (feature : Feature)
    (pre1 mid1 pre2 mid2 : list Instruction) (s1 s2 : Z) :
  beginGeometryInstruction1_ b = Some (length pre1) ->
  beginGeometryInstruction2_ b = Some (length pre2) ->
  instructions b = pre1 ++ IBeginGeometry feature s1 :: mid1 ->
  hitDetectionInstructions b = pre2 ++ IBeginGeometry feature s2 :: mid2 ->
  exists b',
    endGeometry b feature = Ret b'
    /\ instructions b'
       = pre1 ++ block_instructions
                   {| b_feature := feature;
                      b_skip := Z.of_nat (length pre1) + Z.of_nat (length mid1) + 1;
                      b_body := mid1; b_end_feature := feature |}
    /\ hitDetectionInstructions b'
       = pre2 ++ block_instructions
                   {| b_feature := feature;
                      b_skip := Z.of_nat (length pre2) + Z.of_nat (length mid2) + 1;
                      b_body := mid2; b_end_feature := feature |}
    /\ coordinates b' = coordinates b
    /\ state b' = state b
    /\ beginGeometryInstruction1_ b' = None
    /\ beginGeometryInstruction2_ b' = None.
Proof.
  intros Hr1 Hr2 Hi Hh. unfold endGeometry. rewrite Hr1, Hr2, Hi, Hh.
  rewrite !alter_at_middle. cbn [set_skip].
  rewrite !length_app. cbn [length].
  eexists. split; [reflexivity|]. cbn.
  unfold block_instructions. cbn.
  replace (Z.of_nat (length pre1 + S (length mid1)))
    with (Z.of_nat (length pre1) + Z.of_nat (length mid1) + 1) by lia.
  replace (Z.of_nat (length pre2 + S (length mid2)))
    with (Z.of_nat (length pre2) + Z.of_nat (length mid2) + 1) by lia.
  rewrite <- !app_assoc. done.
Qed.

Lemma drawLineString_block fuel (b : CanvasBuilder) (geometry : Geometry)
    (feature : Feature) :
  stroke_state_ok (state b) ->
  is_Some (strokeStyle (state b)) ->
  is_Some (lineWidth (state b)) ->
  0 < getStride geometry ->
  (length (getFlatCoordinates geometry) <= fuel)%nat ->
  exists b' pushed myBegin myEnd,
    drawLineString fuel b geometry feature = Ret b'
    /\ hitDetectionInstructions b'
       = hitDetectionInstructions b
         ++ block_instructions
              (line_block (state b) feature
                 (Z.of_nat (length (hitDetectionInstructions b)) + 5) myBegin myEnd)
    /\ instructions b'
       = (instructions b ++ pushed)
         ++ block_instructions
              {| b_feature := feature;
                 b_skip := Z.of_nat (length (instructions b ++ pushed)) + 2;
                 b_body := [IMoveToLineTo myBegin myEnd];
                 b_end_feature := feature |}
    /\ (stroke_is_current (state b) -> pushed = [] /\ state b' = state b)
    /\ myBegin = Z.of_nat (length (coordinates b))
    /\ stroke_state_ok (state b')
    /\ stroke_is_current (state b')
    /\ stroke_fields (state b') = stroke_fields (state b).
Proof.
  intros Hok [c Hc] [w Hw] Hstride Hfuel. unfold drawLineString.
  rewrite Hc, Hw.
  assert (Hcur : stroke_is_current (state b) ->
            updateStrokeStyle b CanvasLineStringBuilder_applyStroke = Ret b).
  { intros (H1 & H2 & H3 & H4 & H5 & H6 & H7). unfold updateStrokeStyle.
    rewrite H1, H2, H3, H4, H5, H6, H7. done. }
  destruct (updateStrokeStyle_returns b CanvasLineStringBuilder_applyStroke
              CanvasLineStringBuilder_applyStroke_applies Hok)
    as (b1 & pushed & Hup & Hok1 & Hcur1 & Hf1 & _ & Hi1 & Hh1 & Hc1).
  rewrite Hup. cbn [rbind].
  set (b2 := beginGeometry b1 feature).
  set (b3 := set_hitDetectionInstructions b2 _).
  destruct (drawFlatCoordinates__returns fuel b3 (getFlatCoordinates geometry) 0
              (Z.of_nat (length (getFlatCoordinates geometry))) (getStride geometry)
              Hstride ltac:(lia))
    as (myEnd & b4 & -> & Hi4 & Hh4 & Hs4 & Hr4 & Hr4').
  cbn [rbind snd].
  set (b5 := set_hitDetectionInstructions b4 _).
  assert (Hhit5 : hitDetectionInstructions b5
                  = hitDetectionInstructions b
                    ++ IBeginGeometry feature 0
                    :: [hit_stroke_instruction (state b); beginPathInstruction;
                        IMoveToLineTo (Z.of_nat (length (coordinates b))) myEnd;
                        strokeInstruction]).
  { subst b5. cbn. rewrite Hh4. subst b3 b2. unfold beginGeometry. cbn.
    rewrite Hh1, Hc1, <- !app_assoc. cbn.
    by rewrite (hit_stroke_instruction_fields _ _ Hf1). }
  assert (Hins5 : instructions b5
                  = (instructions b ++ pushed)
                    ++ IBeginGeometry feature 0
                    :: [IMoveToLineTo (Z.of_nat (length (coordinates b))) myEnd]).
  { subst b5. cbn. rewrite Hi4. subst b3 b2. unfold beginGeometry. cbn.
    rewrite Hi1, Hc1, <- !app_assoc. done. }
  destruct (endGeometry_open b5 feature _ _ _ _ 0 0
              ltac:(subst b5; cbn; rewrite Hr4; subst b3 b2; cbn; by rewrite Hi1)
              ltac:(subst b5; cbn; rewrite Hr4'; subst b3 b2; cbn; by rewrite Hh1)
              Hins5 Hhit5)
    as (b6 & -> & Hi6 & Hh6 & Hc6 & Hs6 & _).
  assert (Hs5 : state b5 = state b1).
  { subst b5. cbn. rewrite Hs4. by subst b3 b2. }
  exists b6, pushed, (Z.of_nat (length (coordinates b))), myEnd.
  split; [done|]. split.
  { rewrite Hh6. unfold line_block. cbn [length]. do 3 f_equal. lia. }
  split.
  { rewrite Hi6. cbn [length]. do 3 f_equal. lia. }
  split.
  { intros Hcurb. rewrite (Hcur Hcurb) in Hup. inversion Hup; subst b1.
    split; [|by rewrite Hs6, Hs5].
    apply (app_inv_head (instructions b)). by rewrite app_nil_r. }
  rewrite Hs6, Hs5. done.
Qed.

End LineStringProofs.

(** ** From drawing to the finished hit-detection stream *)

(** A block as [drawLineString] emits it with the stroke of [s]. *)
Lemma line_block_ok s feature skip myBegin myEnd :
  block_ok (line_block s feature skip myBegin myEnd).
Proof. repeat constructor. Qed.

Lemma stream_of_blocks_app bs1 bs2 :
  stream_of_blocks (bs1 ++ bs2) = stream_of_blocks bs1 ++ stream_of_blocks bs2.
Proof. unfold stream_of_blocks. by rewrite fmap_app, concat_app. Qed.

Lemma relocate_lookup bs : forall off j bl,
  relocate off bs !! j = Some bl ->
  exists bl0, bs !! j = Some bl0
    /\ b_feature bl = b_feature bl0 /\ b_body bl = b_body bl0
    /\ b_end_feature bl = b_end_feature bl0.
Proof.
  induction bs as [|b0 bs IH]; intros off j bl Hj; [done|].
  destruct j as [|j]; cbn in Hj.
  - inversion Hj; subst. by exists b0.
  - by apply IH in Hj.
Qed.

Lemma length_stream_of_line_blocks (bs : list Block) (j : nat) :
  Forall (fun bl => length (b_body bl) = 4%nat) bs ->
  (j <= length bs)%nat ->
  length (stream_of_blocks (take j bs)) = (6 * j)%nat.
Proof.
  revert j. induction bs as [|b0 bs IH]; intros j Hall Hj.
  - cbn in Hj. by replace j with O by lia.
  - inversion Hall as [|? ? H0 Hrest]; subst.
    destruct j as [|j]; [done|].
    cbn [take]. unfold stream_of_blocks in *. rewrite fmap_cons, concat_cons, length_app.
    rewrite length_block_instructions, H0, IH; [lia|done|cbn in Hj; lia].
Qed.

Section PipelineProofs.
Context {ops : ExtentOps}.

Lemma drawLineStrings_blocks fuel items : forall (b : CanvasBuilder),
  stroke_state_ok (state b) ->
  is_Some (strokeStyle (state b)) ->
  is_Some (lineWidth (state b)) ->
  Forall (fun item : Geometry * Feature =>
            0 < getStride item.1
            /\ (length (getFlatCoordinates item.1) <= fuel)%nat) items ->
  exists b' bs,
    drawLineStrings fuel b items = Ret b'
    /\ hitDetectionInstructions b' = hitDetectionInstructions b ++ stream_of_blocks bs
    /\ b_feature <$> bs = snd <$> items
    /\ Forall (fun bl =>
                 b_end_feature bl = b_feature bl
                 /\ exists myBegin myEnd,
                      b_body bl = [hit_stroke_instruction (state b); beginPathInstruction;
                                   IMoveToLineTo myBegin myEnd; strokeInstruction]) bs.
Proof.
  induction items as [|[geometry feature] items IH]; intros b Hok Hs Hw Hall.
  - exists b, []. cbn. by rewrite app_nil_r.
  - inversion Hall as [|? ? [Hstride Hfuel] Hrest]; subst. cbn in Hstride, Hfuel.
    destruct (drawLineString_block fuel b geometry feature Hok Hs Hw Hstride Hfuel)
      as (b1 & pushed & myBegin & myEnd & Hrun & Hhit & _ & _ & _ & Hok1 & _ & Hf1).
    assert (Hs1 : is_Some (strokeStyle (state b1))).
    { unfold stroke_fields in Hf1. by replace (strokeStyle (state b1))
        with (strokeStyle (state b)) by congruence. }
    assert (Hw1 : is_Some (lineWidth (state b1))).
    { unfold stroke_fields in Hf1. by replace (lineWidth (state b1))
        with (lineWidth (state b)) by congruence. }
    destruct (IH b1 Hok1 Hs1 Hw1 Hrest) as (b' & bs & Hrun' & Hhit' & Hfeat & Hbodies).
    exists b', (line_block (state b) feature
                  (Z.of_nat (length (hitDetectionInstructions b)) + 5) myBegin myEnd :: bs).
    cbn [drawLineStrings]. rewrite Hrun. cbn [rbind].
    split; [done|]. split.
    { rewrite Hhit', Hhit, <- app_assoc. f_equal. }
    split; [cbn; by rewrite Hfeat|].
    constructor.
    + split; [done|]. by eexists _, _.
    + rewrite (hit_stroke_instruction_fields _ _ Hf1) in Hbodies. exact Hbodies.
Qed.

(** X4: Line strings drawn by a line-string builder whose hit-detection
    stream is empty and whose state holds a stroke, then [finish]: the drawing returns for every list of
    geometries of positive stride, and the hit-detection stream of the
    finished builder holds one block of six instructions per feature, the
    feature drawn last coming first; in every block the skip index of the
    BEGIN_GEOMETRY is the index of the END_GEOMETRY of the same feature, and
    the four instructions between them are in drawing order. *)
Theorem drawLineStrings_finish_order fuel (b : CanvasBuilder)
    (items : list (Geometry * Feature)) :
  hitDetectionInstructions b = [] ->
  stroke_state_ok (state b) ->
  is_Some (strokeStyle (state b)) ->
  is_Some (lineWidth (state b)) ->
  Forall (fun item : Geometry * Feature =>
            0 < getStride item.1
            /\ (length (getFlatCoordinates item.1) <= fuel)%nat) items ->
  exists b' bs,
    drawLineStrings fuel b items = Ret b'
    /\ si_hitDetectionInstructions (CanvasLineStringBuilder_finish b') = stream_of_blocks bs
    /\ b_feature <$> bs = reverse (snd <$> items)
    /\ forall j bl, bs !! j = Some bl ->
         zlookup (stream_of_blocks bs) (6 * Z.of_nat j)
         = Some (IBeginGeometry (b_feature bl) (6 * Z.of_nat j + 5))
         /\ (exists myBegin myEnd,
               b_body bl = [hit_stroke_instruction (state b); beginPathInstruction;
                            IMoveToLineTo myBegin myEnd; strokeInstruction])
         /\ zlookup (stream_of_blocks bs) (6 * Z.of_nat j + 5)
            = Some (IEndGeometry (b_feature bl)).
Proof.
  intros Hempty Hok Hs Hw Hall.
  destruct (drawLineStrings_blocks fuel items b Hok Hs Hw Hall)
    as (b' & bs0 & Hrun & Hhit & Hfeat & Hbodies).
  rewrite Hempty in Hhit. cbn in Hhit.
  assert (Hblocks : Forall block_ok bs0).
  { eapply Forall_impl; [exact Hbodies|]. intros bl [_ (mb & me & Hb)].
    unfold block_ok. rewrite Hb. repeat constructor. }
  exists b', (relocate 0 (reverse bs0)).
  split; [done|].
  assert (Hfin : si_hitDetectionInstructions (CanvasLineStringBuilder_finish b')
                 = stream_of_blocks (relocate 0 (reverse bs0))).
  { unfold CanvasLineStringBuilder_finish. cbn.
    rewrite <- reverseHitDetectionInstructions_relocate by done. rewrite <- Hhit.
    destruct (lastStroke (state b')); [case_bool_decide|]; done. }
  split; [done|].
  pose proof (proj2 (Forall_reverse _ _) Hbodies) as Hbodies_rev.
  assert (Hbodies' : Forall (fun bl => length (b_body bl) = 4%nat)
                       (relocate 0 (reverse bs0))).
  { apply Forall_lookup_2. intros j bl Hj.
    destruct (relocate_lookup _ _ _ _ Hj) as (bl0 & Hj0 & _ & Hb & _).
    pose proof (Forall_lookup_1 _ _ _ _ Hbodies_rev Hj0) as [_ (mb & me & Hb0)].
    by rewrite Hb, Hb0. }
  split.
  { assert (Hc : block_content <$> relocate 0 (reverse bs0) = block_content <$> reverse bs0)
      by apply relocate_content.
    apply (f_equal (fmap (fun c : Feature * list Instruction * Feature => c.1.1))) in Hc.
    rewrite <- !list_fmap_compose in Hc.
    change ((fun c : Feature * list Instruction * Feature => c.1.1) ∘ block_content)
      with b_feature in Hc.
    rewrite Hc, fmap_reverse, Hfeat. done. }
  intros j bl Hj.
  pose proof (relocate_positions (reverse bs0) [] j bl Hj) as Hpos. cbv zeta in Hpos.
  change (Z.of_nat (@length Instruction [])) with 0 in Hpos. cbn [app] in Hpos.
  rewrite (length_stream_of_line_blocks _ j Hbodies') in Hpos
    by (apply lookup_lt_Some in Hj; lia).
  destruct (relocate_lookup _ _ _ _ Hj) as (bl0 & Hj0 & Hf0 & Hb0 & He0).
  pose proof (Forall_lookup_1 _ _ _ _ Hbodies_rev Hj0) as [Hend (mb & me & Hbody)].
  destruct Hpos as (Hbegin & Hskip & Hendpos).
  rewrite Hb0, Hbody in Hskip. cbn [length] in Hskip.
  replace (Z.of_nat (6 * j)) with (6 * Z.of_nat j) in * by lia.
  replace (b_skip bl) with (6 * Z.of_nat j + 5) in * by lia.
  split; [done|]. split; [rewrite Hb0; by eexists _, _|].
  rewrite Hendpos. by rewrite He0, Hend, Hf0.
Qed.

End PipelineProofs.

(** ** Termination of the replay *)

Section ReplayProofs.
Context {ops : ExtentOps} {fops : ForeignReplay} {T : Type}.










(** ** Paths and skipped features in the replay *)

Lemma line_to_calls (env : ReplayEnv (T := T)) dd st d :
  exists calls,
    rs_context (line_to env dd st d) = rs_context st ++ calls
    /\ (length calls <= 1)%nat.
Proof.
  unfold line_to. destruct (_ || _).
  - eexists [_]. split; [reflexivity|cbn; lia].
  - exists []. rewrite app_nil_r. split; [done|cbn; lia].
Qed.

Lemma foldl_line_to_calls (env : ReplayEnv (T := T)) dd ds : forall st,
  exists calls,
    rs_context (foldl (line_to env dd) st ds) = rs_context st ++ calls
    /\ (length calls <= length ds)%nat.
Proof.
  induction ds as [|d ds IH]; intros st.
  - exists []. by rewrite app_nil_r.
  - cbn [foldl]. destruct (line_to_calls env dd st d) as (c1 & H1 & L1).
    destruct (IH (line_to env dd st d)) as (c2 & H2 & L2).
    exists (c1 ++ c2). rewrite H2, H1, <- app_assoc. split; [done|].
    rewrite length_app. cbn [length]. lia.
Qed.

(** X6: MOVE_TO_LINE_TO on a range of [k + 2] points: whatever was drawn
    before and however the points round, the last call on the surface is
    the line to the last point of the range, which also becomes the
    previous point; before it there are at most [k + 1] calls, so that a
    range never costs more calls than it has points. *)
Theorem move_to_line_to_last_point (env : ReplayEnv (T := T)) (st : ReplayState)
    (d : Z) (k : nat) :
  let dd := d + 2 * (Z.of_nat k + 2) in
  let pc := re_pixelCoordinates env in
  let st' := move_to_line_to env d dd st in
  exists calls,
    rs_context st'
    = rs_context st ++ calls ++ [CtxLineTo (zlookup pc (dd - 2)) (zlookup pc (dd - 1))]
    /\ (length calls <= k + 1)%nat
    /\ rs_prev st'
       = Some (round_pixel (zlookup pc (dd - 2)), round_pixel (zlookup pc (dd - 1)))
    /\ rs_i st' = rs_i st + 1.
Proof.
  intros dd pc st'. subst st'. unfold move_to_line_to.
  set (st1 := if negb _ then _ else st).
  assert (H1 : exists c1, rs_context st1 = rs_context st ++ c1 /\ (length c1 <= 1)%nat
                          /\ rs_i st1 = rs_i st).
  { subst st1. destruct (negb _).
    - eexists [_]. split; [reflexivity|]. split; [cbn; lia|done].
    - exists []. rewrite app_nil_r. split; [done|]. split; [cbn; lia|done]. }
  destruct H1 as (c1 & Hc1 & Hl1 & Hi1).
  assert (Hidx : line_to_indices d dd
                 = ((fun j => d + 2 + 2 * j) <$> seqZ 0 (Z.of_nat k)) ++ [dd - 2]).
  { unfold line_to_indices.
    replace ((dd - d - 1) / 2) with (Z.of_nat (S k)).
    - rewrite seqZ_S, fmap_app. cbn. do 2 f_equal. subst dd. lia.
    - subst dd. apply (Z.div_unique _ _ _ 1); lia. }
  rewrite Hidx, foldl_app. cbn [foldl].
  set (st2 := foldl (line_to env dd) st1 _).
  destruct (foldl_line_to_calls env dd
              ((fun j => d + 2 + 2 * j) <$> seqZ 0 (Z.of_nat k)) st1) as (c2 & Hc2 & Hl2).
  fold st2 in Hc2.
  destruct (foldl_line_to_same_batch env dd
              ((fun j => d + 2 + 2 * j) <$> seqZ 0 (Z.of_nat k)) st1) as [_ Hi2].
  fold st2 in Hi2.
  rewrite length_fmap, length_seqZ in Hl2.
  unfold line_to. rewrite bool_decide_eq_true_2 by done. cbn [orb].
  exists (c1 ++ c2). replay_fields.
  replace (dd - 2 + 1) with (dd - 1) by lia. fold pc.
  split; [by rewrite Hc2, Hc1, <- !app_assoc|].
  split; [rewrite length_app; lia|].
  split; [done|]. lia.
Qed.

(** X7: A feature that is listed in skippedFeaturesHash, or has no geometry,
    is not drawn: in a replay without feature callback, on a feature block
    whose BEGIN_GEOMETRY points at its END_GEOMETRY, two passes take the
    cursor behind the block, and the surface, the deferred fills and
    strokes and everything else stay as they are. *)
Theorem skipped_feature_not_drawn (env : ReplayEnv (T := T)) (st : ReplayState)
    (pre post : list Instruction) (b : Block) (fuel : nat) :
  re_instructions env = pre ++ block_instructions b ++ post ->
  rs_i st = Z.of_nat (length pre) ->
  b_skip b = Z.of_nat (length pre) + Z.of_nat (length (b_body b)) + 1 ->
  re_featureCallback env = None ->
  is_skipped env (b_feature b) = true \/ getGeometry (b_feature b) = None ->
  execute_loop (S (S fuel)) env st
  = execute_loop fuel env
      (set_cursor st (Z.of_nat (length (pre ++ block_instructions b)))).
Proof.
  intros Hins Hi Hskip Hcb Hfeat.
  assert (Hstep : execute_instruction env (IBeginGeometry (b_feature b) (b_skip b)) st
                  = Continue (set_cursor st (b_skip b))).
  { cbn [execute_instruction]. unfold begin_geometry.
    replace (is_skipped env (b_feature b)
             || negb (bool_decide (is_Some (getGeometry (b_feature b))))) with true; [done|].
    symmetry. destruct Hfeat as [->|Hg]; [done|].
    rewrite Hg, bool_decide_eq_false_2 by (by intros [? ?]). apply orb_true_r. }
  rewrite (execute_loop_step (S fuel) env st _ _
             ltac:(rewrite Hins, Hi; apply zlookup_block_begin) Hstep).
  rewrite (execute_loop_step fuel env (set_cursor st (b_skip b))
             (IEndGeometry (b_end_feature b)) (next (set_cursor st (b_skip b)))).
  - f_equal. unfold next, set_cursor. cbn. f_equal.
    rewrite Hskip, length_app, length_block_instructions. lia.
  - cbn [set_cursor rs_i]. rewrite Hins, Hskip. apply zlookup_block_end.
  - cbn [execute_instruction]. unfold end_geometry. by rewrite Hcb.
Qed.

End ReplayProofs.

(** ** The caches of the WebGL helper *)

Lemma bindBuffer_calls (h : WebGLHelper) (target : Z) (buf : WebGLArrayBuffer) :
  let h1 := bindBuffer h target buf in
  exists entry created,
    bufferCache_ h1 !! buf_uid buf = Some entry
    /\ bufferCache_ h1 = <[buf_uid buf := entry]> (bufferCache_ h)
    /\ gl_calls (gl_ h1)
       = gl_calls (gl_ h) ++ created
         ++ [GLBindBuffer target (bce_buffer entry);
             GLBufferData target (typed_array_of h target) (buf_usage buf)]
    /\ created = match bufferCache_ h !! buf_uid buf with
                 | Some _ => []
                 | None => [GLCreateBuffer (bce_buffer entry)]
                 end
    /\ (bufferCache_ h !! buf_uid buf = None ->
        entry = {| bce_buf := buf;
                   bce_buffer := if isContextLost (gl_ h) then None
                                 else Some (gl_next (gl_ h)) |})
    /\ isContextLost (gl_ h1) = isContextLost (gl_ h)
    /\ hasOESElementIndexUint h1 = hasOESElementIndexUint h
    /\ shaderCache_ h1 = shaderCache_ h
    /\ programCache_ h1 = programCache_ h
    /\ currentProgram_ h1 = currentProgram_ h.
Proof.
  intros h1. subst h1. unfold bindBuffer, typed_array_of.
  destruct (bufferCache_ h !! buf_uid buf) as [entry|] eqn:Hc.
  - exists entry, []. cbn. rewrite Hc, insert_id by done.
    rewrite <- !app_assoc. done.
  - unfold gl_create. destruct (isContextLost (gl_ h)) eqn:Hl.
    + exists {| bce_buf := buf; bce_buffer := None |}, [GLCreateBuffer None].
      cbn. rewrite lookup_insert_eq, <- !app_assoc, Hl. cbn.
      repeat split; done.
    + exists {| bce_buf := buf; bce_buffer := Some (gl_next (gl_ h)) |},
             [GLCreateBuffer (Some (gl_next (gl_ h)))].
      cbn. rewrite lookup_insert_eq, <- !app_assoc. cbn.
      repeat split; done.
Qed.

(** X8: [bindBuffer] followed by [deleteBuffer] of the same buffer: the
    deletion returns, on an active context it deletes the very buffer that
    was bound, and the buffer cache is what it was before the two calls,
    without the entry of the buffer; a second [deleteBuffer] then finds no
    entry, which is a TypeError on an active context. *)
Theorem bindBuffer_deleteBuffer (h : WebGLHelper) (target : Z) (buf : WebGLArrayBuffer) :
  let h1 := bindBuffer h target buf in
  exists entry h2,
    bufferCache_ h1 !! buf_uid buf = Some entry
    /\ deleteBuffer h1 buf = Ret h2
    /\ bufferCache_ h2 = delete (buf_uid buf) (bufferCache_ h)
    /\ gl_calls (gl_ h2)
       = gl_calls (gl_ h1)
         ++ (if isContextLost (gl_ h) then [] else [GLDeleteBuffer (bce_buffer entry)])
    /\ deleteBuffer h2 buf
       = (if isContextLost (gl_ h) then Ret h2 else Throw TypeError).
Proof.
  intros h1.
  destruct (bindBuffer_calls h target buf)
    as (entry & created & Hlook & Hcache & Hcalls & _ & _ & Hlost & _).
  fold h1 in Hlook, Hcache, Hcalls, Hlost.
  unfold deleteBuffer. rewrite Hlook, Hlost.
  destruct (isContextLost (gl_ h)) eqn:Hl; cbn [negb rbind].
  - eexists entry, _. split; [done|]. split; [reflexivity|].
    cbn. rewrite Hcache, delete_insert_eq, app_nil_r.
    split; [done|]. split; [done|].
    rewrite Hlost. cbn. by rewrite delete_delete_eq.
  - eexists entry, _. split; [done|]. split; [reflexivity|].
    cbn. rewrite Hcache, delete_insert_eq.
    split; [done|]. split; [done|].
    rewrite Hlost. cbn. by rewrite lookup_delete_eq.
Qed.

(** X9: A buffer is created once: a second [bindBuffer] of a buffer, for
    whatever target, issues the bind and the upload on the handle the first
    one cached, creates nothing and leaves the cache as it is. *)
Theorem bindBuffer_creates_once (h : WebGLHelper) (target1 target2 : Z)
    (buf : WebGLArrayBuffer) :
  let h1 := bindBuffer h target1 buf in
  let h2 := bindBuffer h1 target2 buf in
  exists entry,
    bufferCache_ h1 !! buf_uid buf = Some entry
    /\ bufferCache_ h2 = bufferCache_ h1
    /\ gl_calls (gl_ h2)
       = gl_calls (gl_ h1)
         ++ [GLBindBuffer target2 (bce_buffer entry);
             GLBufferData target2 (typed_array_of h target2) (buf_usage buf)]
    /\ gl_next (gl_ h2) = gl_next (gl_ h1).
Proof.
  intros h1 h2.
  destruct (bindBuffer_calls h target1 buf)
    as (entry & created & Hlook & _ & _ & _ & _ & _ & Hoes & _).
  fold h1 in Hlook, Hoes.
  exists entry. split; [done|].
  subst h2. unfold bindBuffer at 1 2 3. rewrite Hlook. cbn.
  fold (typed_array_of h1 target2). unfold typed_array_of. rewrite Hoes.
  rewrite <- !app_assoc. done.
Qed.

Lemma getShader_cached (h : WebGLHelper) (shaderObject : WebGLShaderObject) :
  exists shader h',
    getShader h shaderObject = (shader, h')
    /\ shaderCache_ h' !! sh_uid shaderObject = Some shader
    /\ (forall key s, shaderCache_ h !! key = Some s -> key <> sh_uid shaderObject ->
          shaderCache_ h' !! key = Some s)
    /\ (forall s, shaderCache_ h !! sh_uid shaderObject = Some s -> h' = h /\ shader = s)
    /\ programCache_ h' = programCache_ h
    /\ currentProgram_ h' = currentProgram_ h
    /\ bufferCache_ h' = bufferCache_ h
    /\ hasOESElementIndexUint h' = hasOESElementIndexUint h.
Proof.
  unfold getShader. destruct (shaderCache_ h !! sh_uid shaderObject) as [s|] eqn:Hc.
  - exists s, h. split; [done|]. split; [done|]. split; [done|].
    split; [by intros s' [= ->]|done].
  - destruct (gl_create (gl_ h) (GLCreateShader (sh_type shaderObject))) as [shader gl1].
    eexists _, _. split; [reflexivity|]. cbn. rewrite lookup_insert_eq.
    split; [done|]. split; [|done].
    intros key s Hs Hne. by rewrite lookup_insert_ne.
Qed.

(** X10: The caches of shaders and programs and the current program work as
    memos: right after [getProgram] the same request returns the same
    program and leaves the helper, and with it the context, untouched; when
    the program had to be created, its two shaders are in the shader cache
    afterwards, so that [getShader] returns them without compiling; the same
    holds for [getShader] alone; and [useProgram] of the program in use
    returns false and makes no call. *)
Theorem getProgram_memoized (h : WebGLHelper)
    (fragmentShaderObject vertexShaderObject : WebGLShaderObject) :
  let programKey := (sh_uid fragmentShaderObject +:+ "/" +:+ sh_uid vertexShaderObject)%string in
  (let '(program, h1) := getProgram h fragmentShaderObject vertexShaderObject in
   getProgram h1 fragmentShaderObject vertexShaderObject = (program, h1)
   /\ programCache_ h1 !! programKey = Some program
   /\ (programCache_ h !! programKey = None ->
       exists fragmentShader vertexShader,
         getShader h1 fragmentShaderObject = (fragmentShader, h1)
         /\ getShader h1 vertexShaderObject = (vertexShader, h1))
   /\ (let '(changed, h2) := useProgram h1 program in
       currentProgram_ h2 = program
       /\ useProgram h2 program = (false, h2)))
  /\ (let '(shader, h1) := getShader h fragmentShaderObject in
      getShader h1 fragmentShaderObject = (shader, h1)).
Proof.
  intros programKey. split.
  - assert (Huse : forall h1 program,
              let '(changed, h2) := useProgram h1 program in
              currentProgram_ h2 = program /\ useProgram h2 program = (false, h2)).
    { intros h1 program. unfold useProgram.
      destruct (decide (program = currentProgram_ h1)) as [->|Hne].
      - by rewrite decide_True.
      - cbn. by rewrite decide_True. }
    unfold getProgram. fold programKey.
    destruct (programCache_ h !! programKey) as [program|] eqn:Hc.
    + rewrite Hc. split; [done|]. split; [done|]. split; [done|]. apply Huse.
    + destruct (gl_create (gl_ h) GLCreateProgram) as [program gl1].
      destruct (getShader_cached (set_gl h gl1) fragmentShaderObject)
        as (fs & ha & -> & Hfa & _ & _ & Hpa & _).
      set (hb := set_gl ha _).
      destruct (getShader_cached hb vertexShaderObject)
        as (vs & hc & -> & Hvc & Hkeep & Hsame & Hpc & _).
      cbn [programCache_ set_programCache set_gl].
      rewrite lookup_insert_eq.
      split; [done|]. split; [done|]. split; [|apply Huse].
      intros _.
      assert (Hfc : shaderCache_ hc !! sh_uid fragmentShaderObject = Some fs
                    \/ sh_uid fragmentShaderObject = sh_uid vertexShaderObject).
      { destruct (decide (sh_uid fragmentShaderObject = sh_uid vertexShaderObject));
          [by right|left]. apply Hkeep; [|done]. subst hb. done. }
      exists (default fs (shaderCache_ hc !! sh_uid fragmentShaderObject)), vs.
      unfold getShader. cbn [shaderCache_ set_programCache set_gl].
      rewrite Hvc.
      destruct Hfc as [-> | Heq]; [done|]. by rewrite Heq, Hvc.
  - destruct (getShader_cached h fragmentShaderObject) as (s & h1 & -> & Hs & _).
    unfold getShader. by rewrite Hs.
Qed.

(** X11: What is requested while the context is lost stays null when the context
    is back: the buffer bound and the program requested during the loss are
    cached with the null handles the lost context handed out, the restored
    handler clears nothing, and so, on the working context, [getProgram]
    returns null and [bindBuffer] binds null, neither creating anything. *)
Theorem lost_context_resources_stay_null (h : WebGLHelper) (target : Z)
    (buf : WebGLArrayBuffer)
    (fragmentShaderObject vertexShaderObject : WebGLShaderObject) :
  let h1 := bindBuffer (lose_context h) target buf in
  let '(program, h2) := getProgram h1 fragmentShaderObject vertexShaderObject in
  let h3 := restore_context h2 in
  bufferCache_ h1 !! buf_uid buf = Some {| bce_buf := buf; bce_buffer := None |}
  /\ program = None
  /\ isContextLost (gl_ h3) = false
  /\ getProgram h3 fragmentShaderObject vertexShaderObject = (None, h3)
  /\ bufferCache_ (bindBuffer h3 target buf) = bufferCache_ h3
  /\ gl_calls (gl_ (bindBuffer h3 target buf))
     = gl_calls (gl_ h3)
       ++ [GLBindBuffer target None;
           GLBufferData target (typed_array_of h target) (buf_usage buf)].
Proof.
  intros h1.
  destruct (bindBuffer_calls (lose_context h) target buf)
    as (entry & created & Hlook & _ & _ & _ & Hentry & Hlost & Hoes & Hs1 & Hp1 & _).
  fold h1 in Hlook, Hlost, Hoes, Hs1, Hp1.
  specialize (Hentry eq_refl). cbn in Hentry, Hlost, Hoes, Hs1, Hp1. subst entry.
  unfold getProgram.
  replace (programCache_ h1 !! _) with (@None Handle) by (by rewrite Hp1).
  unfold gl_create at 1. rewrite Hlost.
  destruct (getShader_cached (set_gl h1 (gl_call (gl_ h1) (GLCreateProgram None)))
              fragmentShaderObject) as (fs & ha & -> & _ & _ & _ & Hpa & _ & Hba & Hoa).
  set (hb := set_gl ha _).
  destruct (getShader_cached hb vertexShaderObject)
    as (vs & hc & -> & _ & _ & _ & Hpc & _ & Hbc & Hoc).
  cbv zeta.
  split; [done|]. split; [done|]. split; [done|].
  split.
  { unfold restore_context, handleWebGLContextRestored. cbn.
    by rewrite lookup_insert_eq. }
  assert (Hb3 : bufferCache_ hc !! buf_uid buf
                = Some {| bce_buf := buf; bce_buffer := None |}).
  { rewrite Hbc. subst hb. cbn. by rewrite Hba. }
  unfold restore_context, handleWebGLContextRestored, bindBuffer. cbn.
  rewrite Hb3. cbn. rewrite <- !app_assoc.
  split; [done|].
  do 3 f_equal. unfold typed_array_of.
  rewrite Hoc. subst hb. cbn. rewrite Hoa. cbn. by rewrite Hoes.
Qed.

(** ** Hit detection on what a line-string builder has built *)

Section HitReplayProofs.
Context {ops : ExtentOps} {fops : ForeignReplay} {T : Type}.

Lemma execute_loop_step_at (env : ReplayEnv (T := T)) pre ins post st st' fuel :
  re_instructions env = pre ++ ins :: post ->
  rs_i st = Z.of_nat (length pre) ->
  execute_instruction env ins st = Continue st' ->
  execute_loop (S fuel) env st = execute_loop fuel env st'.
Proof.
  intros Hins Hi Hstep. apply (execute_loop_step fuel env st ins st'); [|done].
  rewrite Hins, Hi. apply zlookup_middle.
Qed.

(** The replay of one block of a stroked line, with no feature skipped, no
    hit extent, no batching and a callback that returns nothing. *)
Lemma execute_loop_line_block (env : ReplayEnv (T := T)) (b : Block)
    effect payload d dd pre post st fuel :
  re_instructions env = pre ++ block_instructions b ++ post ->
  b_body b = [ISetStrokeStyle payload; IBeginPath; IMoveToLineTo d dd; IStroke] ->
  is_Some (getGeometry (b_feature b)) ->
  re_skippedFeaturesHash env = ∅ ->
  re_hitExtent env = None ->
  re_batchSize env = 0 ->
  re_featureCallback env = Some (falsy_callback effect) ->
  rs_i st = Z.of_nat (length pre) ->
  rs_pendingFill st = 0 ->
  rs_pendingStroke st = 0 ->
  exists st',
    execute_loop (6 + fuel) env st = execute_loop fuel env st'
    /\ rs_i st' = Z.of_nat (length pre) + 6
    /\ rs_pendingFill st' = 0
    /\ rs_pendingStroke st' = 0
    /\ rs_callbacks st' = rs_callbacks st ++ [b_end_feature b].
Proof.
  intros Hins Hbody Hgeom Hskip Hhit HB Hcb Hi Hpf Hps.
  unfold block_instructions in Hins. rewrite Hbody in Hins. cbn [app] in Hins.
  set (i0 := IBeginGeometry (b_feature b) (b_skip b)) in *.
  set (i5 := IEndGeometry (b_end_feature b)) in *.
  (* BEGIN_GEOMETRY *)
  change (6 + fuel)%nat with (S (S (S (S (S (S fuel)))))).
  set (i1 := ISetStrokeStyle payload) in *.
  set (i3 := IMoveToLineTo d dd) in *.
  rewrite (execute_loop_step_at env pre i0 (i1 :: IBeginPath :: i3 :: IStroke :: i5 :: post)
             st (next st) _ Hins Hi); cycle 1.
  { subst i0. cbn [execute_instruction]. unfold begin_geometry, is_skipped.
    rewrite Hskip, bool_decide_eq_true_2 by done. cbn [negb andb orb].
    rewrite bool_decide_eq_true_2 by done. cbn [negb]. rewrite Hhit.
    by destruct (getGeometry (b_feature b)). }
  (* SET_STROKE_STYLE *)
  set (st1 := next st).
  set (st2 := set_stroke_style i1 payload st1).
  assert (H2 : rs_i st2 = Z.of_nat (length pre) + 2 /\ rs_pendingFill st2 = 0
               /\ rs_pendingStroke st2 = 0 /\ rs_callbacks st2 = rs_callbacks st).
  { subst st2 st1. unfold set_stroke_style. replay_fields.
    rewrite decide_False by lia. replay_fields. repeat split; try done. lia. }
  destruct H2 as (Hi2 & Hpf2 & Hps2 & Hcb2).
  rewrite (execute_loop_step_at env (pre ++ [i0]) i1
             (IBeginPath :: i3 :: IStroke :: i5 :: post) st1 st2);
    [|by rewrite Hins, <- app_assoc
     |subst st1; replay_fields; rewrite length_app; cbn [length]; lia
     |done].
  (* BEGIN_PATH *)
  set (st3 := begin_path env st2).
  assert (H3 : rs_i st3 = Z.of_nat (length pre) + 3 /\ rs_pendingFill st3 = 0
               /\ rs_pendingStroke st3 = 0 /\ rs_callbacks st3 = rs_callbacks st).
  { subst st3.
    destruct (begin_path_batch env st2 Hps2 ltac:(lia)) as (E1 & E2 & E3 & _ & _ & E6).
    rewrite E1, E2, E3, E6, Hpf2, Hi2, Hcb2.
    split; [lia|]. split; [by destruct (decide (0 > re_batchSize env))|done]. }
  destruct H3 as (Hi3 & Hpf3 & Hps3 & Hcb3).
  rewrite (execute_loop_step_at env (pre ++ [i0; i1]) IBeginPath
             (i3 :: IStroke :: i5 :: post) st2 st3);
    [|by rewrite Hins, <- app_assoc
     |rewrite Hi2, length_app; cbn [length]; lia
     |done].
  (* MOVE_TO_LINE_TO *)
  destruct (path_instruction_step env i3 st3 eq_refl)
    as (st4 & Hstep4 & Hi4 & (Hpf4 & Hps4 & _ & _ & Hcb4)).
  rewrite (execute_loop_step_at env (pre ++ [i0; i1; IBeginPath]) i3
             (IStroke :: i5 :: post) st3 st4);
    [|by rewrite Hins, <- app_assoc
     |rewrite Hi3, length_app; cbn [length]; lia
     |done].
  (* STROKE *)
  set (st5 := next (emit st4 [CtxStroke])).
  rewrite (execute_loop_step_at env (pre ++ [i0; i1; IBeginPath; i3]) IStroke
             (i5 :: post) st4 st5);
    [|by rewrite Hins, <- app_assoc
     |rewrite Hi4, Hi3, length_app; cbn [length]; lia
     |cbn [execute_instruction]; by rewrite HB, decide_False by lia].
  (* END_GEOMETRY *)
  set (st6 := next (set_callbacks (set_context st5 (effect (b_end_feature b) (rs_context st5)))
                      (rs_callbacks st5 ++ [b_end_feature b]))).
  rewrite (execute_loop_step_at env (pre ++ [i0; i1; IBeginPath; i3; IStroke]) i5
             post st5 st6);
    [|by rewrite Hins, <- app_assoc
     |subst st5; replay_fields; rewrite Hi4, Hi3, length_app; cbn [length]; lia
     |subst i5; cbn [execute_instruction]; unfold end_geometry; by rewrite Hcb].
  exists st6. split; [done|]. subst st6 st5. replay_fields.
  rewrite Hi4, Hi3, Hpf4, Hps4, Hpf3, Hps3, Hcb4, Hcb3.
  repeat split; try done. lia.
Qed.

Lemma execute_loop_line_blocks (env : ReplayEnv (T := T)) effect bs :
  forall pre post st fuel,
  re_instructions env = pre ++ stream_of_blocks bs ++ post ->
  Forall (fun bl =>
            is_Some (getGeometry (b_feature bl))
            /\ exists payload d dd,
                 b_body bl = [ISetStrokeStyle payload; IBeginPath;
                              IMoveToLineTo d dd; IStroke]) bs ->
  re_skippedFeaturesHash env = ∅ ->
  re_hitExtent env = None ->
  re_batchSize env = 0 ->
  re_featureCallback env = Some (falsy_callback effect) ->
  rs_i st = Z.of_nat (length pre) ->
  rs_pendingFill st = 0 ->
  rs_pendingStroke st = 0 ->
  exists st',
    execute_loop (6 * length bs + fuel) env st = execute_loop fuel env st'
    /\ rs_i st' = Z.of_nat (length pre) + 6 * Z.of_nat (length bs)
    /\ rs_pendingFill st' = 0
    /\ rs_pendingStroke st' = 0
    /\ rs_callbacks st' = rs_callbacks st ++ (b_end_feature <$> bs).
Proof.
  induction bs as [|bl bs IH]; intros pre post st fuel Hins Hall Hskip Hhit HB Hcb Hi Hpf Hps.
  - exists st. cbn. rewrite app_nil_r. repeat split; try done. lia.
  - inversion Hall as [|? ? [Hgeom (payload & d & dd & Hbody)] Hrest]; subst.
    unfold stream_of_blocks in Hins. rewrite fmap_cons, concat_cons, <- app_assoc in Hins.
    fold (stream_of_blocks bs) in Hins.
    replace (6 * length (bl :: bs) + fuel)%nat with (6 + (6 * length bs + fuel))%nat
      by (cbn [length]; lia).
    destruct (execute_loop_line_block env bl effect payload d dd pre
                (stream_of_blocks bs ++ post) st (6 * length bs + fuel)
                Hins Hbody Hgeom Hskip Hhit HB Hcb Hi Hpf Hps)
      as (st1 & Hrun1 & Hi1 & Hpf1 & Hps1 & Hcb1).
    destruct (IH (pre ++ block_instructions bl) post st1 fuel)
      as (st' & Hrun & Hi' & Hpf' & Hps' & Hcb'); try done.
    { by rewrite Hins, <- app_assoc. }
    { rewrite Hi1, length_app, length_block_instructions, Hbody. cbn [length]. lia. }
    exists st'. rewrite Hrun1, Hrun. split; [done|].
    rewrite Hi', Hcb', Hcb1, length_app, length_block_instructions, Hbody, <- app_assoc.
    cbn [length fmap list_fmap app]. repeat split; try done. lia.
Qed.

(** X12: Line strings drawn by a line-string builder whose hit-detection
    stream is empty and whose state holds a stroke, [finish], an executor made of what [finish] returns, and a hit
    detection with no feature skipped, no hit extent and a callback that
    never returns a truthy value: the drawing and the replay return, and the
    callback has been called once for every feature, the feature drawn last
    first and the feature drawn first last. *)
Theorem hit_detection_reverse_order (fuel : nat) (b : CanvasBuilder)
    (items : list (Geometry * Feature))
    (effect : Feature -> list ContextCall -> list ContextCall)
    (context : list ContextCall) (pixelCoordinates : list Q) :
  hitDetectionInstructions b = [] ->
  stroke_state_ok (state b) ->
  is_Some (strokeStyle (state b)) ->
  is_Some (lineWidth (state b)) ->
  Forall (fun item : Geometry * Feature =>
            0 < getStride item.1
            /\ (length (getFlatCoordinates item.1) <= fuel)%nat) items ->
  Forall (fun item : Geometry * Feature => is_Some (getGeometry item.2)) items ->
  (6 * length items <= fuel)%nat ->
  exists b' st,
    drawLineStrings fuel b items = Ret b'
    /\ executeHitDetection (T := T) fuel
         (new_CanvasExecutor (pixelRatio b') (overlaps b')
            (CanvasLineStringBuilder_finish b'))
         context pixelCoordinates ∅ (Some (falsy_callback effect)) None
       = Ret (None, st)
    /\ rs_callbacks st = reverse (snd <$> items).
Proof.
  intros Hempty Hok Hs Hw Hall Hgeoms Hfuel.
  destruct (drawLineStrings_blocks fuel items b Hok Hs Hw Hall)
    as (b' & bs0 & Hrun & Hhit & Hfeat & Hbodies).
  rewrite Hempty in Hhit. cbn in Hhit.
  assert (Hblocks : Forall block_ok bs0).
  { eapply Forall_impl; [exact Hbodies|]. intros bl [_ (mb & me & Hb)].
    unfold block_ok. rewrite Hb. repeat constructor. }
  assert (Hfin : si_hitDetectionInstructions (CanvasLineStringBuilder_finish b')
                 = stream_of_blocks (relocate 0 (reverse bs0))).
  { unfold CanvasLineStringBuilder_finish. cbn.
    rewrite <- reverseHitDetectionInstructions_relocate by done. rewrite <- Hhit.
    destruct (lastStroke (state b')); [case_bool_decide|]; done. }
  set (bs := relocate 0 (reverse bs0)) in *.
  assert (Hlen : length bs = length items).
  { apply (f_equal length) in Hfeat. rewrite !length_fmap in Hfeat.
    assert (Hc : length (block_content <$> bs) = length (block_content <$> reverse bs0))
      by (subst bs; by rewrite relocate_content).
    rewrite !length_fmap, length_reverse in Hc. lia. }
  assert (Hgeom_bs0 : Forall (fun bl => is_Some (getGeometry (b_feature bl))) bs0).
  { apply Forall_lookup_2. intros j bl Hj.
    assert (Hf : (snd <$> items) !! j = Some (b_feature bl))
      by (by rewrite <- Hfeat, list_lookup_fmap, Hj).
    rewrite list_lookup_fmap in Hf.
    destruct (items !! j) as [item|] eqn:Hitem; [|done].
    cbn in Hf. injection Hf as <-.
    exact (Forall_lookup_1 _ _ _ _ Hgeoms Hitem). }
  pose proof (proj2 (Forall_reverse _ _) Hbodies) as Hbodies_rev.
  pose proof (proj2 (Forall_reverse _ _) Hgeom_bs0) as Hgeom_rev.
  assert (Hline : Forall (fun bl =>
                    is_Some (getGeometry (b_feature bl))
                    /\ exists payload d dd,
                         b_body bl = [ISetStrokeStyle payload; IBeginPath;
                                      IMoveToLineTo d dd; IStroke]) bs).
  { apply Forall_lookup_2. intros j bl Hj. subst bs.
    destruct (relocate_lookup _ _ _ _ Hj) as (bl0 & Hj0 & Hf0 & Hb0 & _).
    pose proof (Forall_lookup_1 _ _ _ _ Hbodies_rev Hj0) as [_ (mb & me & Hb)].
    pose proof (Forall_lookup_1 _ _ _ _ Hgeom_rev Hj0) as Hg.
    rewrite Hf0, Hb0, Hb. split; [done|]. by eexists _, _, _. }
  assert (Hends : b_end_feature <$> bs = reverse (snd <$> items)).
  { assert (Hc : block_content <$> bs = block_content <$> reverse bs0)
      by (subst bs; apply relocate_content).
    apply (f_equal (fmap (fun c : Feature * list Instruction * Feature => c.2))) in Hc.
    rewrite <- !list_fmap_compose in Hc.
    change ((fun c : Feature * list Instruction * Feature => c.2) ∘ block_content)
      with b_end_feature in Hc.
    rewrite Hc, fmap_reverse. f_equal. rewrite <- Hfeat.
    apply list_eq. intros j. rewrite !list_lookup_fmap.
    destruct (bs0 !! j) as [bl|] eqn:Hj; [|done]. cbn.
    by pose proof (Forall_lookup_1 _ _ _ _ Hbodies Hj) as [-> _]. }
  exists b'.
  unfold executeHitDetection, execute_. cbn [new_CanvasExecutor ex_hitDetectionInstructions
    ex_instructions ex_overlaps ex_alignFill_ array_items array_id batchSize_of].
  rewrite Hfin.
  set (env := {| re_pixelCoordinates := pixelCoordinates;
                 re_skippedFeaturesHash := ∅;
                 re_instructions := stream_of_blocks bs;
                 re_featureCallback := Some (falsy_callback effect);
                 re_hitExtent := None;
                 re_batchSize := _ |}).
  set (st0 := {| rs_i := 0; rs_pendingFill := 0; rs_pendingStroke := 0; rs_prev := None;
                 rs_lastFillInstruction := None; rs_lastStrokeInstruction := None;
                 rs_alignFill_ := false; rs_context := context; rs_callbacks := [] |}).
  destruct (execute_loop_line_blocks env effect bs [] [] st0 (fuel - 6 * length bs))
    as (st' & Hexec & Hi' & Hpf' & Hps' & Hcb'); try done.
  { cbn. by rewrite app_nil_r. }
  replace (6 * length bs + (fuel - 6 * length bs))%nat with fuel in Hexec by lia.
  rewrite Hexec.
  assert (Hend : execute_loop (fuel - 6 * length bs) env st' = Ret (None, st')).
  { assert (Hlast : ~ rs_i st' < Z.of_nat (length (re_instructions env))).
    { rewrite Hi'. cbn [re_instructions env length].
      replace bs with (take (length bs) bs) at 2 by apply firstn_all.
      rewrite (length_stream_of_line_blocks bs (length bs)); [lia| |done].
      eapply Forall_impl; [exact Hline|]. intros bl [_ (p & d & dd & ->)]. done. }
    assert (Hflush : flush_pending st' = st').
    { unfold flush_pending. rewrite Hpf'. destruct (decide (0 <> 0)); [lia|].
      rewrite Hps'. by destruct (decide (0 <> 0)). }
    destruct (fuel - 6 * length bs)%nat; cbn [execute_loop];
      rewrite decide_False by done; by rewrite Hflush. }
  exists st'. rewrite Hend. split; [done|]. split; [done|].
  by rewrite Hcb', Hends.
Qed.

End HitReplayProofs.

(** ** The builders of a group *)

Lemma builder_of_getBuilder (g : CanvasBuilderGroup) (zIndex : option Z)
    (replayType : ReplayType) :
  let '(r, g1) := getBuilder g zIndex replayType in
  (forall key t,
     builder_of g1 key t
     = if decide (key = zIndexKey zIndex /\ t = replayType) then Some r
       else builder_of g key t)
  /\ ((builder_of g (zIndexKey zIndex) replayType = Some r
       /\ bg_builders g1 = bg_builders g)
      \/ (builder_of g (zIndexKey zIndex) replayType = None
          /\ r = length (bg_builders g)
          /\ bg_builders g1
             = bg_builders g
               ++ [new_builder (BATCH_CONSTRUCTORS replayType) (bg_tolerance_ g)
                     (bg_maxExtent_ g) (bg_resolution_ g) (bg_pixelRatio_ g)
                     (bg_overlaps_ g) (bg_declutterTree_ g)])).
Proof.
  unfold getBuilder, builder_of.
  destruct (buildersByZIndex_ g !! zIndexKey zIndex) as [replays|] eqn:Hm.
  - destruct (replays !! replayType) as [replay|] eqn:Hr.
    + cbn. split; [|left; by rewrite Hr].
      intros key t. case_decide as Hk; [|done].
      destruct Hk as [-> ->]. rewrite Hm. cbn. done.
    + cbn. split; [|right; by rewrite Hr].
      intros key t. case_decide as Hk.
      * destruct Hk as [-> ->]. rewrite lookup_insert_eq. cbn.
        by rewrite lookup_insert_eq.
      * destruct (decide (key = zIndexKey zIndex)) as [->|Hne].
        -- rewrite lookup_insert_eq, Hm. cbn.
           rewrite lookup_insert_ne; [done|]. intros ->. by apply Hk.
        -- by rewrite lookup_insert_ne.
  - rewrite lookup_empty. cbn. split; [|by right].
    intros key t. case_decide as Hk.
    + destruct Hk as [-> ->]. rewrite lookup_insert_eq. cbn.
      by rewrite lookup_insert_eq.
    + destruct (decide (key = zIndexKey zIndex)) as [->|Hne].
      * rewrite lookup_insert_eq, Hm. cbn.
        rewrite lookup_insert_ne; [done|]. intros ->. by apply Hk.
      * rewrite !lookup_insert_ne by done. done.
Qed.

Lemma getBuilder_group_ok (g : CanvasBuilderGroup) (zIndex : option Z)
    (replayType : ReplayType) :
  group_ok g ->
  group_ok (snd (getBuilder g zIndex replayType))
  /\ bg_builders g `prefix_of` bg_builders (snd (getBuilder g zIndex replayType))
  /\ builder_of (snd (getBuilder g zIndex replayType)) (zIndexKey zIndex) replayType
     = Some (fst (getBuilder g zIndex replayType)).
Proof.
  intros [Hlt Hinj].
  pose proof (builder_of_getBuilder g zIndex replayType) as H.
  destruct (getBuilder g zIndex replayType) as [r g1]. cbn [fst snd].
  destruct H as [Hof Hcase].
  assert (Hpre : bg_builders g `prefix_of` bg_builders g1).
  { destruct Hcase as [[_ ->]|(_ & _ & ->)]; [done|]. by eexists. }
  assert (Hr : (r < length (bg_builders g1))%nat
               /\ (forall key t, builder_of g key t = Some r ->
                     key = zIndexKey zIndex /\ t = replayType)).
  { destruct Hcase as [[Hex Hb]|(Hnone & -> & Hb)].
    - rewrite Hb. split; [by eapply Hlt|].
      intros key t Hkt. by eapply Hinj.
    - rewrite Hb, length_app. cbn. split; [lia|].
      intros key t Hkt. apply Hlt in Hkt. lia. }
  destruct Hr as [Hr Hfresh].
  split; [|split; [done|]].
  - split.
    + intros key t r'. rewrite Hof. case_decide.
      * by intros [= <-].
      * intros Hkt. apply Hlt in Hkt.
        destruct Hpre as [k ->]. rewrite length_app. lia.
    + intros key t key' t' r'. rewrite !Hof.
      repeat case_decide.
      * intros _ _. destruct H as [-> ->], H0 as [-> ->]. done.
      * intros [= <-] Hkt. apply Hfresh in Hkt. done.
      * intros Hkt [= <-]. apply Hfresh in Hkt. done.
      * apply Hinj.
  - rewrite Hof. by rewrite decide_True.
Qed.

Lemma zIndexKey_inj (zIndex1 zIndex2 : option Z) :
  zIndexKey zIndex1 = zIndexKey zIndex2 <-> default 0 zIndex1 = default 0 zIndex2.
Proof.
  assert (H0 : zIndexKey None = pretty 0) by reflexivity.
  destruct zIndex1 as [z1|], zIndex2 as [z2|]; rewrite ?H0; cbn [zIndexKey default from_option id];
    (split; [apply pretty_Z_inj|congruence]).
Qed.

(** X13: Every pair of a z-index and a kind owns its builder.  On a group
    whose references are sound (every reference points at a builder that
    exists and no builder has two references, as in a new group) two calls
    of [getBuilder] leave the group sound and the builders that existed in
    place, and they return the same builder exactly when they are made
    with the same z-index, the undefined one counting as 0, and the same
    kind; a builder that [getBuilder] had to
    create is a new builder of the class BATCH_CONSTRUCTORS gives for the
    kind, made with the parameters of the group; and the group is not empty
    afterwards. *)
Theorem getBuilder_owns (g : CanvasBuilderGroup) (zIndex1 zIndex2 : option Z)
    (replayType1 replayType2 : ReplayType) :
  group_ok g ->
  let '(r1, g1) := getBuilder g zIndex1 replayType1 in
  let '(r2, g2) := getBuilder g1 zIndex2 replayType2 in
  group_ok g2
  /\ bg_builders g `prefix_of` bg_builders g2
  /\ (r1 = r2 <-> default 0 zIndex1 = default 0 zIndex2 /\ replayType1 = replayType2)
  /\ (builder_of g (zIndexKey zIndex1) replayType1 = None ->
      bg_builders g2 !! r1
      = Some (new_builder (BATCH_CONSTRUCTORS replayType1) (bg_tolerance_ g)
                (bg_maxExtent_ g) (bg_resolution_ g) (bg_pixelRatio_ g)
                (bg_overlaps_ g) (bg_declutterTree_ g)))
  /\ CanvasBuilderGroup_isEmpty g2 = false.
Proof.
  intros Hok.
  pose proof (getBuilder_group_ok g zIndex1 replayType1 Hok) as H1.
  pose proof (builder_of_getBuilder g zIndex1 replayType1) as H1'.
  destruct (getBuilder g zIndex1 replayType1) as [r1 g1]. cbn [fst snd] in H1.
  destruct H1 as (Hok1 & Hpre1 & Hof1). destruct H1' as [_ Hcase1].
  pose proof (getBuilder_group_ok g1 zIndex2 replayType2 Hok1) as H2.
  pose proof (builder_of_getBuilder g1 zIndex2 replayType2) as H2'.
  destruct (getBuilder g1 zIndex2 replayType2) as [r2 g2]. cbn [fst snd] in H2.
  destruct H2 as (Hok2 & Hpre2 & Hof2). destruct H2' as [Hof2' Hcase2].
  split; [done|]. split; [by etrans|].
  assert (Hkeep : builder_of g2 (zIndexKey zIndex1) replayType1
                  = Some (if decide (zIndexKey zIndex1 = zIndexKey zIndex2
                                     /\ replayType1 = replayType2) then r2 else r1)).
  { rewrite Hof2'. by case_decide. }
  split; [|split].
  - rewrite <- zIndexKey_inj. split.
    + intros <-. apply (proj2 Hok2 _ _ _ _ r1); [|done].
      rewrite Hkeep. by case_decide.
    + intros [Hk ->]. rewrite Hk in Hof1.
      destruct Hcase2 as [[Hsome _]|[Hnone _]]; congruence.
  - intros Hnone. destruct Hcase1 as [[Hsome _]|(_ & -> & Hb)]; [congruence|].
    destruct Hpre2 as [k ->]. rewrite Hb.
    rewrite lookup_app_l by (rewrite length_app; cbn; lia).
    by rewrite list_lookup_middle.
  - unfold CanvasBuilderGroup_isEmpty. apply bool_decide_eq_false. intros Hempty.
    unfold builder_of in Hof2. rewrite Hempty, lookup_empty in Hof2. done.
Qed.

(** ** Declutter groups *)

Section DeclutterProofs.
Context {ops : ExtentOps}.

Lemma addDeclutter_continued_counts (g : CanvasBuilderGroup) (tree : nat)
    (groups : list DeclutterGroup) (e : Extent) (count : Z) (n : nat) :
  bg_declutterTree_ g = Some tree ->
  addDeclutter_continued n g
    {| declutter_groups := groups ++ [{| dg_extent := e; dg_count := count |}];
       declutterGroup_ := Some (length groups) |}
  = Ret (replicate n (Some (length groups)),
         {| declutter_groups :=
              groups ++ [{| dg_extent := e; dg_count := count + Z.of_nat n |}];
            declutterGroup_ := Some (length groups) |}).
Proof.
  intros Htree. revert count. induction n as [|n IH]; intros count.
  - cbn. by rewrite Z.add_0_r.
  - cbn [addDeclutter_continued]. unfold addDeclutter at 1. rewrite Htree.
    cbn [declutterGroup_ declutter_groups fst snd].
    rewrite alter_app_r_alt by done. rewrite Nat.sub_diag.
    cbn [alter list_alter dg_extent dg_count rbind fst snd].
    rewrite IH. cbn [rbind fst snd replicate].
    replace (count + 1 + Z.of_nat n) with (count + Z.of_nat (S n)) by lia. done.
Qed.

(** X14: The count of a declutter group is the number of calls that joined it.
    In a group with a declutter tree [addDeclutter(false)] opens a new
    group of count 1 around the empty extent, the [n] calls
    [addDeclutter(true)] that follow all return that same group, and the
    group then counts [1 + n]; the groups opened before are not touched.
    Joining a group before one was opened throws a TypeError, the group of
    a new builder group being null. *)
Theorem addDeclutter_counts (g : CanvasBuilderGroup) (tree : nat)
    (ds : DeclutterState) (n : nat) :
  bg_declutterTree_ g = Some tree ->
  let declutter := length (declutter_groups ds) in
  (exists ds1 ds2,
     addDeclutter g ds false = Ret (Some declutter, ds1)
     /\ addDeclutter_continued n g ds1 = Ret (replicate n (Some declutter), ds2)
     /\ declutter_groups ds2
        = declutter_groups ds
          ++ [{| dg_extent := createEmpty; dg_count := 1 + Z.of_nat n |}]
     /\ declutterGroup_ ds2 = Some declutter)
  /\ addDeclutter g
       {| declutter_groups := declutter_groups ds; declutterGroup_ := None |} true
     = Throw TypeError.
Proof.
  intros Htree declutter. split.
  - eexists _, _. unfold addDeclutter at 1. rewrite Htree.
    split; [reflexivity|].
    rewrite (addDeclutter_continued_counts g tree _ _ _ n Htree).
    by repeat split.
  - unfold addDeclutter. by rewrite Htree.
Qed.

End DeclutterProofs.

(** ** The buffers of the points renderer *)

Section PointsLayerProofs.
Variable sizeCallback_ : Feature -> Q.
Variable coordCallback_ : Feature -> Z -> Q.

Lemma base_index_vertex (m : nat) :
  (inject_Z (Z.of_nat (24 * m)) / 6 == inject_Z (4 * Z.of_nat m))%Q.
Proof.
  unfold Qeq, Qdiv, Qmult, Qinv, inject_Z. cbn. lia.
Qed.

Lemma quad_indices_proper (b b' : Q) :
  (b == b')%Q -> Forall2 Qeq (quad_indices b) (quad_indices b').
Proof.
  intros Hb. unfold quad_indices.
  repeat (constructor; [by rewrite Hb|]). constructor.
Qed.

Lemma length_quads_vertices (points : list Feature) :
  length (quads_vertices sizeCallback_ coordCallback_ points)
  = (24 * length points)%nat.
Proof.
  induction points as [|p points IH]; [done|].
  unfold quads_vertices in *. cbn [flat_map]. rewrite length_app, IH. cbn. lia.
Qed.

Lemma length_quads_indices (first n : nat) :
  length (quads_indices first n) = (6 * n)%nat.
Proof.
  revert first. induction n as [|n IH]; intros first; [done|].
  unfold quads_indices in *. cbn [seq flat_map]. rewrite length_app, IH. cbn. lia.
Qed.

Lemma foldl_prepareFrame_feature (features : list Feature)
    (r : WebGLPointsLayerRenderer) (m : nat) :
  length (buf_array (verticesBuffer_ r)) = (24 * m)%nat ->
  let r' := foldl (prepareFrame_feature sizeCallback_ coordCallback_) r features in
  let points := filter is_point_feature features in
  sourceRevision_ r' = sourceRevision_ r
  /\ verticesBuffer_ r'
     = array_push (verticesBuffer_ r)
         (quads_vertices sizeCallback_ coordCallback_ points)
  /\ exists indices,
       indicesBuffer_ r' = array_push (indicesBuffer_ r) indices
       /\ Forall2 Qeq indices (quads_indices m (length points)).
Proof.
  revert r m. induction features as [|feature features IH]; intros r m Hlen.
  - cbn. unfold array_push. rewrite app_nil_r. split; [done|].
    split; [by destruct (verticesBuffer_ r)|].
    exists []. rewrite app_nil_r. split; [by destruct (indicesBuffer_ r)|constructor].
  - assert (Hstep :
      prepareFrame_feature sizeCallback_ coordCallback_ r feature
      = if is_point_feature feature then
          {| sourceRevision_ := sourceRevision_ r;
             verticesBuffer_ :=
               array_push (verticesBuffer_ r)
                 (quad_vertices (coordCallback_ feature 0) (coordCallback_ feature 1)
                    (sizeCallback_ feature));
             indicesBuffer_ :=
               array_push (indicesBuffer_ r)
                 (quad_indices
                    (inject_Z (Z.of_nat (length (buf_array (verticesBuffer_ r)))) / 6)) |}
        else r).
    { unfold prepareFrame_feature. by destruct (is_point_feature feature). }
    cbn [foldl]. rewrite Hstep, filter_cons. clear Hstep.
    destruct (is_point_feature feature) eqn:Hp.
    + rewrite decide_True by done.
      set (r1 := {| sourceRevision_ := _ |}).
      destruct (IH r1 (S m)) as (Hrev & Hv & indices & Hi & Hall).
      { subst r1. cbn. rewrite length_app, Hlen. cbn. lia. }
      cbn zeta. split; [by rewrite Hrev|]. split.
      * rewrite Hv. subst r1. unfold array_push, quads_vertices. cbn.
        by rewrite <- app_assoc.
      * eexists (quad_indices _ ++ indices). split.
        -- rewrite Hi. subst r1. unfold array_push.
           cbn [indicesBuffer_ buf_uid buf_array buf_usage].
           by rewrite <- app_assoc.
        -- cbn [length]. unfold quads_indices. cbn [seq flat_map].
           apply Forall2_app; [|done].
           apply quad_indices_proper. rewrite Hlen. apply base_index_vertex.
    + rewrite decide_False by (intros []).
      by apply IH.
Qed.

(** X15: The buffers of the points renderer hold whole quads.  When the
    vertices buffer holds [m] quads, that is [24 m] numbers, and the source
    has a newer revision, [prepareFrame] leaves what the two buffers held in
    place and appends, for every feature with a point geometry and in the
    order of the source, the four vertices of the feature, six numbers each,
    and six indices, which are the numbers of these four vertices: the
    [k]-th point added gets the vertices [4 (m + k)] to [4 (m + k) + 3].  The
    vertices buffer then holds [m + n] quads and the indices buffer has grown
    by [6 n], [n] being the number of point features; the revision of the
    source is recorded, and a second [prepareFrame] with the same source
    changes nothing. *)
Theorem prepareFrame_buffers_quads (r : WebGLPointsLayerRenderer)
    (vectorSource : VectorSource) (m : nat) :
  length (buf_array (verticesBuffer_ r)) = (24 * m)%nat ->
  sourceRevision_ r < getRevision vectorSource ->
  let r' := prepareFrame_buffers sizeCallback_ coordCallback_ r vectorSource in
  let points := filter is_point_feature (getFeatures vectorSource) in
  exists indices,
    buf_array (verticesBuffer_ r')
    = buf_array (verticesBuffer_ r) ++ quads_vertices sizeCallback_ coordCallback_ points
    /\ buf_array (indicesBuffer_ r') = buf_array (indicesBuffer_ r) ++ indices
    /\ Forall2 Qeq indices (quads_indices m (length points))
    /\ length (buf_array (verticesBuffer_ r')) = (24 * (m + length points))%nat
    /\ length indices = (6 * length points)%nat
    /\ sourceRevision_ r' = getRevision vectorSource
    /\ prepareFrame_buffers sizeCallback_ coordCallback_ r' vectorSource = r'.
Proof.
  intros Hlen Hrev r' points.
  destruct (foldl_prepareFrame_feature (getFeatures vectorSource)
              {| sourceRevision_ := getRevision vectorSource;
                 verticesBuffer_ := verticesBuffer_ r;
                 indicesBuffer_ := indicesBuffer_ r |} m Hlen)
    as (Hr & Hv & indices & Hi & Hall).
  assert (Hr' : r' = foldl (prepareFrame_feature sizeCallback_ coordCallback_)
                       {| sourceRevision_ := getRevision vectorSource;
                          verticesBuffer_ := verticesBuffer_ r;
                          indicesBuffer_ := indicesBuffer_ r |}
                       (getFeatures vectorSource)).
  { subst r'. unfold prepareFrame_buffers. by rewrite decide_True. }
  rewrite <- Hr' in Hr, Hv, Hi. fold points in Hv, Hall.
  cbn [sourceRevision_ verticesBuffer_ indicesBuffer_] in Hr, Hv, Hi.
  clearbody r'. clear Hr'.
  exists indices. rewrite Hv, Hi. cbn [array_push buf_array].
  split; [done|]. split; [done|]. split; [done|].
  split; [rewrite length_app, Hlen, length_quads_vertices; lia|].
  split; [by rewrite (Forall2_length _ _ _ Hall), length_quads_indices|].
  split; [done|].
  unfold prepareFrame_buffers. rewrite decide_False by lia. done.
Qed.

End PointsLayerProofs.

(** ** Layers at a pixel *)

Section CompositeProofs.
Context {LayerState Layer LayerRenderer Pixel Data T St : Type}.
Variable layer_of : LayerState -> Layer.
Variable visibleAtResolution : LayerState -> Q -> bool.
Variable getLayerRenderer : Layer -> option LayerRenderer.
Variable getDataAtPixel : LayerRenderer -> Pixel -> Q -> option Data.
Variable pixel : Pixel.
Variables viewResolution hitTolerance : Q.
Variable callback : Layer -> Data -> St -> option T * St.
Variable layerFilter : Layer -> bool.

Local Abbreviation candidate :=
  (layer_candidate layer_of visibleAtResolution getLayerRenderer getDataAtPixel
     pixel viewResolution hitTolerance layerFilter).

Lemma forEachLayerAtPixel_body_candidate (layerState : LayerState) (s : St) :
  forEachLayerAtPixel_body layer_of visibleAtResolution getLayerRenderer
    getDataAtPixel pixel viewResolution hitTolerance callback layerFilter layerState s
  = match candidate layerState with
    | Some (layer, data) => callback layer data s
    | None => (None, s)
    end.
Proof.
  unfold forEachLayerAtPixel_body, layer_candidate.
  destruct (_ && _); [|done].
  destruct (getLayerRenderer _) as [layerRenderer|]; [|done]. cbn.
  by destruct (getDataAtPixel _ _ _).
Qed.

Lemma forEachLayerAtPixel_loop_first (layerStates : list LayerState) (k fuel : nat)
    (s : St) :
  (k <= length layerStates)%nat -> (k < fuel)%nat ->
  forEachLayerAtPixel_loop layer_of visibleAtResolution getLayerRenderer
    getDataAtPixel fuel pixel viewResolution hitTolerance callback layerFilter
    layerStates (Z.of_nat k - 1) s
  = Ret (first_layer_result callback (omap candidate (reverse (take k layerStates))) s).
Proof.
  revert fuel s. induction k as [|k IH]; intros fuel s Hk Hfuel.
  - destruct fuel as [|fuel]; [lia|]. cbn [forEachLayerAtPixel_loop].
    rewrite decide_False by lia. done.
  - destruct fuel as [|fuel]; [lia|]. cbn [forEachLayerAtPixel_loop].
    rewrite decide_True by lia.
    destruct (lookup_lt_is_Some_2 layerStates k) as [layerState Hl]; [lia|].
    replace (Z.of_nat (S k) - 1) with (Z.of_nat k) by lia.
    rewrite zlookup_of_nat, Hl.
    rewrite (take_S_r _ _ _ Hl), reverse_app. cbn [reverse rev_append app omap list_omap].
    change (rev_append [layerState] []) with [layerState]. cbn [app omap list_omap].
    rewrite forEachLayerAtPixel_body_candidate.
    destruct (candidate layerState) as [[layer data]|].
    + cbn [first_layer_result]. destruct (callback layer data s) as [[r|] s1]; [done|].
      apply IH; lia.
    + apply IH; lia.
Qed.

(** X16: [forEachLayerAtPixel] tries the layers from the last layer state, the
    topmost layer, to the first.  With more fuel than layer states it
    returns, and what it returns is the first truthy result of the callback
    along the candidates in that order, the callback not being called for
    the candidates that come after it, or undefined when no result is
    truthy; a candidate is a layer that is visible at the view resolution,
    passes the layer filter, has a renderer, and for which this renderer
    finds data at the pixel. *)
Theorem forEachLayerAtPixel_topmost_first (fuel : nat) (layerStates : list LayerState)
    (s : St) :
  (length layerStates < fuel)%nat ->
  forEachLayerAtPixel layer_of visibleAtResolution getLayerRenderer getDataAtPixel
    fuel pixel viewResolution layerStates hitTolerance callback layerFilter s
  = Ret (first_layer_result callback (omap candidate (reverse layerStates)) s)
  /\ (forall before layer data after r s1,
        omap candidate (reverse layerStates) = before ++ (layer, data) :: after ->
        first_layer_result callback before s = (None, s1) ->
        fst (callback layer data s1) = Some r ->
        forEachLayerAtPixel layer_of visibleAtResolution getLayerRenderer
          getDataAtPixel fuel pixel viewResolution layerStates hitTolerance callback
          layerFilter s
        = Ret (callback layer data s1)).
Proof.
  intros Hfuel.
  assert (Hrun : forEachLayerAtPixel layer_of visibleAtResolution getLayerRenderer
            getDataAtPixel fuel pixel viewResolution layerStates hitTolerance callback
            layerFilter s
          = Ret (first_layer_result callback (omap candidate (reverse layerStates)) s)).
  { unfold forEachLayerAtPixel.
    rewrite forEachLayerAtPixel_loop_first by (done || lia).
    by rewrite firstn_all. }
  split; [done|].
  intros before layer data after r s1 Hsplit Hbefore Hr.
  rewrite Hrun, Hsplit. f_equal. clear Hsplit Hrun.
  revert s Hbefore. induction before as [|[l d] before IH]; intros s Hbefore.
  - cbn in Hbefore. injection Hbefore as <-. cbn.
    destruct (callback layer data s) as [[r'|] s2]; [done|]. cbn in Hr. done.
  - cbn in Hbefore |- *. destruct (callback l d s) as [[r'|] s2]; [done|].
    by apply IH.
Qed.

End CompositeProofs.

(** ** From drawing to the strokes on the surface *)

Section RenderPipelineProofs.
Context {ops : ExtentOps} {fops : ForeignReplay} {T : Type}.

Lemma updateStrokeStyle_current (b : CanvasBuilder)
    (applyStroke : CanvasBuilder -> Result CanvasBuilder) :
  stroke_is_current (state b) -> updateStrokeStyle b applyStroke = Ret b.
Proof.
  intros (H1 & H2 & H3 & H4 & H5 & H6 & H7). unfold updateStrokeStyle.
  rewrite H1, H2, H3, H4, H5, H6, H7. done.
Qed.

(** The first stroke of a line-string builder: the style and the start of
    a path are pushed, and [lastStroke] is 0. *)
Lemma updateStrokeStyle_first (b : CanvasBuilder) (c : string) :
  stroke_state_ok (state b) ->
  strokeStyle (state b) = Some c ->
  currentStrokeStyle (state b) = None ->
  lastStroke (state b) = None ->
  exists b1 payload,
    updateStrokeStyle b CanvasLineStringBuilder_applyStroke = Ret b1
    /\ instructions b1 = instructions b ++ [ISetStrokeStyle payload; IBeginPath]
    /\ hitDetectionInstructions b1 = hitDetectionInstructions b
    /\ coordinates b1 = coordinates b
    /\ lastStroke (state b1) = Some 0
    /\ stroke_state_ok (state b1)
    /\ stroke_is_current (state b1)
    /\ stroke_fields (state b1) = stroke_fields (state b).
Proof.
  intros [Hok Hokc] Hc Hcur Hlast.
  assert (Hl : exists l, lineDash (state b) = Some l).
  { destruct (lineDash (state b)) as [l|] eqn:Hd; [by eexists|].
    destruct Hok as [_ Hok]. specialize (Hok eq_refl). congruence. }
  destruct Hl as [l Hl].
  unfold updateStrokeStyle. rewrite Hcur, Hc.
  unfold neq_string at 1. rewrite bool_decide_eq_true_2 by done. cbn [rbind].
  unfold CanvasLineStringBuilder_applyStroke. rewrite Hlast.
  unfold CanvasBuilder_applyStroke, createStroke.
  cbn [state set_state set_lastStroke lineDash].
  rewrite Hl.
  match goal with
  | |- context [applyPixelRatio ?b0 (Some l)] =>
    destruct (applyPixelRatio_Some b0 l) as [l' ->]
  end.
  cbn [rbind]. eexists _, _. split; [reflexivity|].
  cbn. rewrite <- app_assoc. split; [done|]. split; [done|]. split; [done|].
  split; [done|]. split.
  { unfold stroke_state_ok. cbn. rewrite Hc, Hl. done. }
  split; [apply set_current_stroke_is_current|done].
Qed.

Lemma drawLineString_after_update fuel (b b1 : CanvasBuilder) (geometry : Geometry)
    (feature : Feature) :
  updateStrokeStyle b CanvasLineStringBuilder_applyStroke = Ret b1 ->
  stroke_is_current (state b1) ->
  stroke_fields (state b1) = stroke_fields (state b) ->
  is_Some (strokeStyle (state b)) ->
  is_Some (lineWidth (state b)) ->
  drawLineString fuel b geometry feature = drawLineString fuel b1 geometry feature.
Proof.
  intros Hup Hcur Hf [c Hc] [w Hw]. unfold drawLineString.
  assert (strokeStyle (state b1) = strokeStyle (state b)) as ->
    by (unfold stroke_fields in Hf; congruence).
  assert (lineWidth (state b1) = lineWidth (state b)) as ->
    by (unfold stroke_fields in Hf; congruence).
  rewrite Hc, Hw.
  by rewrite Hup, (updateStrokeStyle_current b1 _ Hcur).
Qed.

(** Line strings drawn while the requested stroke is the current one: the
    render stream gains one block of three instructions per feature and
    nothing else, and the state stays as it is. *)
Lemma drawLineStrings_render_blocks fuel items : forall (b : CanvasBuilder),
  stroke_is_current (state b) ->
  stroke_state_ok (state b) ->
  is_Some (strokeStyle (state b)) ->
  is_Some (lineWidth (state b)) ->
  Forall (fun item : Geometry * Feature =>
            0 < getStride item.1
            /\ (length (getFlatCoordinates item.1) <= fuel)%nat) items ->
  exists b' bs,
    drawLineStrings fuel b items = Ret b'
    /\ instructions b' = instructions b ++ stream_of_blocks bs
    /\ b_feature <$> bs = snd <$> items
    /\ Forall (fun bl => exists d dd, b_body bl = [IMoveToLineTo d dd]) bs
    /\ state b' = state b.
Proof.
  induction items as [|[geometry feature] items IH]; intros b Hcur Hok Hs Hw Hall.
  - exists b, []. cbn. by rewrite app_nil_r.
  - inversion Hall as [|? ? [Hstride Hfuel] Hrest]; subst. cbn in Hstride, Hfuel.
    destruct (drawLineString_block fuel b geometry feature Hok Hs Hw Hstride Hfuel)
      as (b1 & pushed & myBegin & myEnd & Hrun & _ & Hins & Hpushed & _ & _ & _ & _).
    destruct (Hpushed Hcur) as [-> Hstate]. rewrite app_nil_r in Hins.
    destruct (IH b1 ltac:(by rewrite Hstate) ltac:(by rewrite Hstate)
                ltac:(by rewrite Hstate) ltac:(by rewrite Hstate) Hrest)
      as (b' & bs & Hrun' & Hins' & Hfeat & Hbodies & Hstate').
    eexists b', (_ :: bs).
    cbn [drawLineStrings]. rewrite Hrun. cbn [rbind].
    split; [done|]. split.
    { rewrite Hins', Hins, <- app_assoc. reflexivity. }
    split; [cbn; by rewrite Hfeat|].
    split; [|by rewrite Hstate', Hstate].
    constructor; [by eexists _, _|done].
Qed.

Lemma line_to_line_calls (env : ReplayEnv (T := T)) dd st d :
  exists calls,
    rs_context (line_to env dd st d) = rs_context st ++ calls
    /\ forallb is_line_call calls = true.
Proof.
  unfold line_to. destruct (_ || _).
  - eexists [_]. split; reflexivity.
  - exists []. by rewrite app_nil_r.
Qed.

Lemma foldl_line_to_line_calls (env : ReplayEnv (T := T)) dd ds : forall st,
  exists calls,
    rs_context (foldl (line_to env dd) st ds) = rs_context st ++ calls
    /\ forallb is_line_call calls = true.
Proof.
  induction ds as [|d ds IH]; intros st.
  - exists []. by rewrite app_nil_r.
  - cbn [foldl]. destruct (line_to_line_calls env dd st d) as (c1 & H1 & L1).
    destruct (IH (line_to env dd st d)) as (c2 & H2 & L2).
    exists (c1 ++ c2). rewrite H2, H1, <- app_assoc. split; [done|].
    by rewrite forallb_app, L1, L2.
Qed.

Lemma move_to_line_to_line_calls (env : ReplayEnv (T := T)) d dd st :
  exists calls,
    rs_context (move_to_line_to env d dd st) = rs_context st ++ calls
    /\ forallb is_line_call calls = true.
Proof.
  unfold move_to_line_to.
  set (st1 := if negb _ then _ else st).
  assert (H1 : exists c1, rs_context st1 = rs_context st ++ c1
                          /\ forallb is_line_call c1 = true).
  { subst st1. destruct (negb _).
    - eexists [_]. split; reflexivity.
    - exists []. by rewrite app_nil_r. }
  destruct H1 as (c1 & H1 & L1).
  destruct (foldl_line_to_line_calls env dd (line_to_indices d dd) st1) as (c2 & H2 & L2).
  exists (c1 ++ c2). replay_fields. rewrite H2, H1, <- app_assoc. split; [done|].
  by rewrite forallb_app, L1, L2.
Qed.

(** The render replay of the block of one line, with no feature skipped, no
    hit extent and no callback: the path is extended and nothing else
    happens. *)
Lemma execute_loop_render_block (env : ReplayEnv (T := T)) (b : Block) d dd pre post
    st fuel :
  re_instructions env = pre ++ block_instructions b ++ post ->
  b_body b = [IMoveToLineTo d dd] ->
  is_Some (getGeometry (b_feature b)) ->
  re_skippedFeaturesHash env = ∅ ->
  re_hitExtent env = None ->
  re_featureCallback env = None ->
  rs_i st = Z.of_nat (length pre) ->
  exists st' calls,
    execute_loop (3 + fuel) env st = execute_loop fuel env st'
    /\ rs_i st' = Z.of_nat (length pre) + 3
    /\ rs_pendingFill st' = rs_pendingFill st
    /\ rs_pendingStroke st' = rs_pendingStroke st
    /\ rs_context st' = rs_context st ++ calls
    /\ forallb is_line_call calls = true.
Proof.
  intros Hins Hbody Hgeom Hskip Hhit Hcb Hi.
  unfold block_instructions in Hins. rewrite Hbody in Hins. cbn [app] in Hins.
  set (i0 := IBeginGeometry (b_feature b) (b_skip b)) in *.
  set (i1 := IMoveToLineTo d dd) in *.
  set (i2 := IEndGeometry (b_end_feature b)) in *.
  change (3 + fuel)%nat with (S (S (S fuel))).
  rewrite (execute_loop_step_at env pre i0 (i1 :: i2 :: post) st (next st) _ Hins Hi);
    cycle 1.
  { subst i0. cbn [execute_instruction]. unfold begin_geometry, is_skipped.
    rewrite Hskip, bool_decide_eq_true_2 by done. cbn [negb andb orb].
    rewrite bool_decide_eq_true_2 by done. cbn [negb]. rewrite Hhit.
    by destruct (getGeometry (b_feature b)). }
  set (st1 := next st).
  destruct (path_instruction_step env i1 st1 eq_refl)
    as (st2 & Hstep2 & Hi2 & (Hpf2 & Hps2 & _ & _ & _)).
  destruct (move_to_line_to_line_calls env d dd st1) as (calls & Hcalls & Hline).
  assert (Hst2 : st2 = move_to_line_to env d dd st1).
  { subst i1. cbn [execute_instruction] in Hstep2. by injection Hstep2 as <-. }
  rewrite (execute_loop_step_at env (pre ++ [i0]) i1 (i2 :: post) st1 st2);
    [|by rewrite Hins, <- app_assoc
     |subst st1; replay_fields; rewrite length_app; cbn [length]; lia
     |done].
  rewrite (execute_loop_step_at env (pre ++ [i0; i1]) i2 post st2 (next st2));
    [|by rewrite Hins, <- app_assoc
     |rewrite Hi2; subst st1; replay_fields; rewrite length_app; cbn [length]; lia
     |subst i2; cbn [execute_instruction]; unfold end_geometry; by rewrite Hcb].
  exists (next st2), calls. split; [done|]. replay_fields.
  rewrite Hi2, Hpf2, Hps2, Hst2, Hcalls. subst st1. replay_fields.
  repeat split; try done. lia.
Qed.

Lemma execute_loop_render_blocks (env : ReplayEnv (T := T)) bs :
  forall pre post st fuel,
  re_instructions env = pre ++ stream_of_blocks bs ++ post ->
  Forall (fun bl =>
            is_Some (getGeometry (b_feature bl))
            /\ exists d dd, b_body bl = [IMoveToLineTo d dd]) bs ->
  re_skippedFeaturesHash env = ∅ ->
  re_hitExtent env = None ->
  re_featureCallback env = None ->
  rs_i st = Z.of_nat (length pre) ->
  exists st' calls,
    execute_loop (3 * length bs + fuel) env st = execute_loop fuel env st'
    /\ rs_i st' = Z.of_nat (length pre) + 3 * Z.of_nat (length bs)
    /\ rs_pendingFill st' = rs_pendingFill st
    /\ rs_pendingStroke st' = rs_pendingStroke st
    /\ rs_context st' = rs_context st ++ calls
    /\ forallb is_line_call calls = true.
Proof.
  induction bs as [|bl bs IH]; intros pre post st fuel Hins Hall Hskip Hhit Hcb Hi.
  - exists st, []. cbn. rewrite app_nil_r. repeat split; try done. lia.
  - inversion Hall as [|? ? [Hgeom (d & dd & Hbody)] Hrest]; subst.
    unfold stream_of_blocks in Hins. rewrite fmap_cons, concat_cons, <- app_assoc in Hins.
    fold (stream_of_blocks bs) in Hins.
    replace (3 * length (bl :: bs) + fuel)%nat with (3 + (3 * length bs + fuel))%nat
      by (cbn [length]; lia).
    destruct (execute_loop_render_block env bl d dd pre (stream_of_blocks bs ++ post)
                st (3 * length bs + fuel) Hins Hbody Hgeom Hskip Hhit Hcb Hi)
      as (st1 & c1 & Hrun1 & Hi1 & Hpf1 & Hps1 & Hc1 & Hl1).
    destruct (IH (pre ++ block_instructions bl) post st1 fuel)
      as (st' & c2 & Hrun & Hi' & Hpf' & Hps' & Hc' & Hl'); try done.
    { by rewrite Hins, <- app_assoc. }
    { rewrite Hi1, length_app, length_block_instructions, Hbody. cbn [length]. lia. }
    exists st', (c1 ++ c2). rewrite Hrun1, Hrun. split; [done|].
    rewrite Hi', Hpf', Hps', Hc', Hpf1, Hps1, Hc1, length_app,
      length_block_instructions, Hbody, <- app_assoc, forallb_app, Hl1, Hl'.
    cbn [length]. repeat split; try done. lia.
Qed.

Lemma flush_pending_idle (st : ReplayState) :
  rs_pendingFill st = 0 -> rs_pendingStroke st = 0 -> flush_pending st = st.
Proof.
  intros Hpf Hps. unfold flush_pending.
  destruct (decide (rs_pendingFill st <> 0)); [lia|].
  destruct (decide (rs_pendingStroke st <> 0)); [lia|done].
Qed.

Lemma flush_pending_stroke (st : ReplayState) :
  rs_pendingFill st = 0 -> rs_pendingStroke st <> 0 ->
  flush_pending st = emit st [CtxStroke].
Proof.
  intros Hpf Hps. unfold flush_pending.
  destruct (decide (rs_pendingFill st <> 0)); [lia|].
  destruct (decide (rs_pendingStroke st <> 0)); [done|lia].
Qed.

Lemma length_stream_of_render_blocks (bs : list Block) :
  Forall (fun bl => exists d dd, b_body bl = [IMoveToLineTo d dd]) bs ->
  length (stream_of_blocks bs) = (3 * length bs)%nat.
Proof.
  induction 1 as [|bl bs (d & dd & Hbody) _ IH]; [done|].
  unfold stream_of_blocks in *. rewrite fmap_cons, concat_cons, length_app.
  rewrite length_block_instructions, Hbody, IH. cbn [length]. lia.
Qed.

(** X17: Line strings of one style are stroked together.  A line-string builder
    that has emitted nothing yet and whose state holds a stroke draws one
    line string or more; [finish]; an executor made of what [finish]
    returns replays the render stream with no feature skipped.  Drawing and
    replay return, and the surface receives the stroke style, one
    [beginPath], the moves and lines of all the line strings, and then one
    [stroke], which is the last call; there is no call in between that
    strokes or starts a path, whether the executor batches or not.  Only
    when the builder holds no coordinate at all is the final [stroke] left
    out. *)
Theorem line_strings_stroked_once (fuel : nat) (b : CanvasBuilder)
    (item : Geometry * Feature) (items : list (Geometry * Feature))
    (context : list ContextCall) (pixelCoordinates : list Q) :
  instructions b = [] ->
  lastStroke (state b) = None ->
  currentStrokeStyle (state b) = None ->
  stroke_state_ok (state b) ->
  is_Some (strokeStyle (state b)) ->
  is_Some (lineWidth (state b)) ->
  Forall (fun item : Geometry * Feature =>
            0 < getStride item.1
            /\ (length (getFlatCoordinates item.1) <= fuel)%nat) (item :: items) ->
  Forall (fun item : Geometry * Feature => is_Some (getGeometry item.2))
    (item :: items) ->
  (3 * length (item :: items) + 3 <= fuel)%nat ->
  exists b' st payload path,
    drawLineStrings fuel b (item :: items) = Ret b'
    /\ execute (T := T) fuel
         (new_CanvasExecutor (pixelRatio b') (overlaps b')
            (CanvasLineStringBuilder_finish b'))
         context pixelCoordinates ∅
       = Ret (None, st)
    /\ rs_context st
       = context ++ [CtxStrokeStyle payload; CtxBeginPath] ++ path
         ++ (if decide (coordinates b' = []) then [] else [CtxStroke])
    /\ forallb is_line_call path = true.
Proof.
  intros Hempty Hlast Hcurrent Hok [c Hc] Hw Hall Hgeoms Hfuel.
  destruct (updateStrokeStyle_first b c Hok Hc Hcurrent Hlast)
    as (b1 & payload & Hup & Hi1 & Hh1 & Hc1 & Hlast1 & Hok1 & Hcur1 & Hf1).
  assert (Hs1 : is_Some (strokeStyle (state b1))).
  { unfold stroke_fields in Hf1. replace (strokeStyle (state b1))
      with (strokeStyle (state b)) by congruence. by eexists. }
  assert (Hw1 : is_Some (lineWidth (state b1))).
  { unfold stroke_fields in Hf1. by replace (lineWidth (state b1))
      with (lineWidth (state b)) by congruence. }
  destruct (drawLineStrings_render_blocks fuel (item :: items) b1 Hcur1 Hok1 Hs1 Hw1 Hall)
    as (b' & bs & Hrun & Hins & Hfeat & Hbodies & Hstate).
  assert (Hsame : drawLineStrings fuel b (item :: items)
                  = drawLineStrings fuel b1 (item :: items)).
  { destruct item as [geometry feature]. cbn [drawLineStrings].
    by rewrite (drawLineString_after_update fuel b b1 geometry feature Hup Hcur1 Hf1
                  (mk_is_Some _ _ Hc) Hw). }
  rewrite <- Hsame in Hrun. clear Hsame.
  rewrite Hi1, Hempty in Hins. cbn [app] in Hins.
  set (i0 := ISetStrokeStyle payload) in *.
  set (final := if decide (coordinates b' = []) then [] else [IStroke]).
  assert (Hfin : si_instructions (CanvasLineStringBuilder_finish b')
                  = [i0; IBeginPath] ++ stream_of_blocks bs ++ final).
  { unfold CanvasLineStringBuilder_finish. rewrite Hstate, Hlast1. subst final.
    destruct (decide (coordinates b' = [])) as [Hnil|Hnil].
    - rewrite bool_decide_eq_false_2 by (rewrite Hnil; cbn; lia).
      cbn. by rewrite Hins, app_nil_r.
    - rewrite bool_decide_eq_true_2
        by (destruct (coordinates b'); [done|cbn; lia]).
      cbn. by rewrite Hins. }
  assert (Hline : Forall (fun bl =>
                    is_Some (getGeometry (b_feature bl))
                    /\ exists d dd, b_body bl = [IMoveToLineTo d dd]) bs).
  { apply Forall_and. split; [|done].
    apply Forall_lookup_2. intros j bl Hj.
    assert (Hf : (snd <$> item :: items) !! j = Some (b_feature bl))
      by (by rewrite <- Hfeat, list_lookup_fmap, Hj).
    rewrite list_lookup_fmap in Hf.
    destruct ((item :: items) !! j) as [it|] eqn:Hitem; [|done].
    cbn in Hf. injection Hf as <-.
    exact (Forall_lookup_1 _ _ _ _ Hgeoms Hitem). }
  assert (Hlen : length bs = length (item :: items)).
  { apply (f_equal length) in Hfeat. by rewrite !length_fmap in Hfeat. }
  exists b'. unfold execute, execute_.
  cbn [new_CanvasExecutor ex_instructions ex_overlaps ex_alignFill_ array_items array_id].
  rewrite Hfin.
  set (B := batchSize_of _ _).
  assert (HB : B = if overlaps b' then 0 else 200).
  { subst B. unfold batchSize_of. cbn [ex_instructions ex_overlaps array_id].
    rewrite bool_decide_eq_false_2 by (intros H; by apply H). done. }
  clearbody B.
  set (env := {| re_pixelCoordinates := pixelCoordinates;
                 re_skippedFeaturesHash := ∅;
                 re_instructions := [i0; IBeginPath] ++ stream_of_blocks bs ++ final;
                 re_featureCallback := None;
                 re_hitExtent := None;
                 re_batchSize := B |}).
  set (st0 := {| rs_i := 0; rs_pendingFill := 0; rs_pendingStroke := 0; rs_prev := None;
                 rs_lastFillInstruction := None; rs_lastStrokeInstruction := None;
                 rs_alignFill_ := false; rs_context := context; rs_callbacks := [] |}).
  (* SET_STROKE_STYLE *)
  set (st1 := next (emit (set_lastStrokeInstruction st0 i0) [CtxStrokeStyle payload])).
  (* BEGIN_PATH *)
  set (st2 := next (set_prev (emit st1 [CtxBeginPath]) None)).
  assert (Hstep1 : execute_instruction env i0 st0 = Continue st1).
  { subst i0. cbn [execute_instruction]. unfold set_stroke_style. replay_fields.
    by rewrite decide_False by (intros H; by apply H). }
  assert (Hstep2 : execute_instruction env IBeginPath st1 = Continue st2).
  { cbn [execute_instruction]. unfold begin_path. subst st2 st1 st0.
    cbn [re_batchSize env]. rewrite HB. by destruct (overlaps b'). }
  revert Hrun. generalize (drawLineStrings fuel b (item :: items)). intros drawn Hrun.
  replace fuel with (S (S (3 * length bs + (fuel - 2 - 3 * length bs))))%nat
    by (rewrite Hlen; lia).
  rewrite (execute_loop_step_at env [] i0 (IBeginPath :: stream_of_blocks bs ++ final)
             st0 st1 _ eq_refl eq_refl Hstep1).
  rewrite (execute_loop_step_at env [i0] IBeginPath (stream_of_blocks bs ++ final)
             st1 st2 _ eq_refl eq_refl Hstep2).
  destruct (execute_loop_render_blocks env bs [i0; IBeginPath] final st2
              (fuel - 2 - 3 * length bs) eq_refl Hline eq_refl eq_refl eq_refl eq_refl)
    as (st3 & path & Hexec & Hi3 & Hpf3 & Hps3 & Hc3 & Hpath).
  rewrite Hexec.
  assert (Hcontext : rs_context st3
                     = context ++ [CtxStrokeStyle payload; CtxBeginPath] ++ path).
  { rewrite Hc3. subst st2 st1 st0. replay_fields. by rewrite <- !app_assoc. }
  assert (Hpf : rs_pendingFill st3 = 0) by (rewrite Hpf3; by subst st2 st1 st0).
  assert (Hps : rs_pendingStroke st3 = 0) by (rewrite Hps3; by subst st2 st1 st0).
  assert (Hlength : length (re_instructions env)
                    = (2 + 3 * length bs + length final)%nat).
  { cbn [re_instructions env app length].
    rewrite length_app, (length_stream_of_render_blocks bs Hbodies). lia. }
  assert (Hdone : forall k st,
            rs_i st = Z.of_nat (length (re_instructions env)) ->
            execute_loop k env st = Ret (None, flush_pending st)).
  { intros k st Hi. destruct k; cbn [execute_loop]; by rewrite decide_False by lia. }
  cbn [length] in Hi3.
  subst final. destruct (decide (coordinates b' = [])) as [Hnil|Hnil].
  - rewrite Hdone by (rewrite Hi3, Hlength; cbn [length]; lia).
    eexists _, payload, path. split; [done|]. split; [reflexivity|].
    split; [|done].
    rewrite (flush_pending_idle st3 Hpf Hps).
    by rewrite Hcontext, app_nil_r.
  - destruct (fuel - 2 - 3 * length bs)%nat as [|k] eqn:Hk; [lia|].
    set (st4 := if decide (B <> 0)
                then next (set_pending st3 (rs_pendingFill st3) (rs_pendingStroke st3 + 1))
                else next (emit st3 [CtxStroke])).
    rewrite (execute_loop_step_at env ([i0; IBeginPath] ++ stream_of_blocks bs) IStroke []
               st3 st4);
      [|by rewrite <- app_assoc
       |rewrite Hi3, length_app, (length_stream_of_render_blocks bs Hbodies);
        cbn [length]; lia
       |cbn [execute_instruction re_batchSize env]; subst st4;
        by destruct (decide (B <> 0))].
    rewrite Hdone; cycle 1.
    { subst st4. destruct (decide (B <> 0)); replay_fields;
        rewrite Hi3, Hlength; cbn [length]; lia. }
    eexists _, payload, path. split; [done|]. split; [reflexivity|].
    split; [|done].
    subst st4. destruct (decide (B <> 0)).
    + rewrite flush_pending_stroke by (replay_fields; lia). replay_fields.
      by rewrite Hcontext, <- !app_assoc.
    + rewrite flush_pending_idle by (replay_fields; lia). replay_fields.
      by rewrite Hcontext, <- !app_assoc.
Qed.

End RenderPipelineProofs.

(** ** The theorems at example data *)

Lemma setFillStrokeStyle_buffered_extent_witness :
  buffered_extent_ok (ops := ol_extent) example_builder
  /\ (let b1 := setFillStrokeStyle (defaults := example_canvas_defaults)
                  example_builder None (Some example_stroke_style) in
      buffered_extent_ok (ops := ol_extent) b1
      /\ bufferedMaxExtent_ (snd (getBufferedMaxExtent (ops := ol_extent) b1))
         = Some (fst (getBufferedMaxExtent (ops := ol_extent) b1))
      /\ (maxLineWidth example_builder <= maxLineWidth b1)%Q).
Proof.
  assert (Hok : buffered_extent_ok (ops := ol_extent) example_builder).
  { intros e He. cbn in He. discriminate He. }
  split; [exact Hok|].
  destruct (setFillStrokeStyle_buffered_extent (ops := ol_extent)
              (defaults := example_canvas_defaults) example_builder None
              (Some example_stroke_style) Hok) as (H1 & _ & H3 & _ & H5 & _ & _).
  split; [exact H1|]. split; [exact H3|exact H5].
Defined.

Lemma updateStrokeStyle_twice_witness :
  stroke_state_ok (state stroked_builder)
  /\ exists b1,
       updateStrokeStyle stroked_builder
         CanvasLineStringBuilder_applyStroke = Ret b1
       /\ updateStrokeStyle b1 CanvasLineStringBuilder_applyStroke
          = Ret b1.
Proof.
  assert (Hok : stroke_state_ok (state stroked_builder)).
  { split; split; intros H; cbn in H |- *; first [discriminate H|reflexivity]. }
  split; [exact Hok|].
  destruct (updateStrokeStyle_twice stroked_builder Hok)
    as [(b1 & pushed & H1 & _ & _ & _ & H2 & _) _].
  exists b1. split; [exact H1|exact H2].
Defined.

Lemma drawLineStrings_finish_order_witness :
  exists b' bs,
    drawLineStrings (ops := ol_extent) 10 stroked_builder example_items = Ret b'
    /\ si_hitDetectionInstructions (CanvasLineStringBuilder_finish b')
       = stream_of_blocks bs
    /\ b_feature <$> bs = [feature_c; feature_a].
Proof.
  assert (Hok : stroke_state_ok (state stroked_builder)).
  { split; split; intros H; cbn in H |- *; first [discriminate H|reflexivity]. }
  assert (Hitems : Forall (fun item : Geometry * Feature =>
                     0 < getStride (fst item)
                     /\ (length (getFlatCoordinates (fst item)) <= 10)%nat)
                     example_items).
  { repeat constructor; cbn; lia. }
  destruct (drawLineStrings_finish_order (ops := ol_extent) 10 stroked_builder
              example_items eq_refl Hok (mk_is_Some _ _ eq_refl)
              (mk_is_Some _ _ eq_refl) Hitems)
    as (b' & bs & H1 & H2 & H3 & _).
  exists b', bs. split; [exact H1|]. split; [exact H2|exact H3].
Defined.


Lemma skipped_feature_not_drawn_witness :
  is_skipped example_render_env feature_b = true
  /\ execute_loop (ops := ol_extent) (fops := example_foreign)
      2 example_render_env (initial_replay_state [])
     = execute_loop (ops := ol_extent) (fops := example_foreign) 0 example_render_env
         (set_cursor (initial_replay_state []) 3).
Proof.
  split; [reflexivity|].
  exact (skipped_feature_not_drawn (ops := ol_extent) (fops := example_foreign)
      example_render_env
           (initial_replay_state []) [] [] example_block 0
           eq_refl eq_refl eq_refl eq_refl (or_introl eq_refl)).
Defined.

Lemma hit_detection_reverse_order_witness :
  exists b' st,
    drawLineStrings (ops := ol_extent) 12 stroked_builder example_items = Ret b'
    /\ executeHitDetection (ops := ol_extent) (fops := example_foreign) (T := unit) 12
         (new_CanvasExecutor (pixelRatio b') (overlaps b')
            (CanvasLineStringBuilder_finish b'))
         [] [] ∅ (Some (falsy_callback (fun _ calls => calls))) None
       = Ret (None, st)
    /\ rs_callbacks st = [feature_c; feature_a].
Proof.
  assert (Hok : stroke_state_ok (state stroked_builder)).
  { split; split; intros H; cbn in H |- *; first [discriminate H|reflexivity]. }
  assert (Hitems : Forall (fun item : Geometry * Feature =>
                     0 < getStride (fst item)
                     /\ (length (getFlatCoordinates (fst item)) <= 12)%nat)
                     example_items).
  { repeat constructor; cbn; lia. }
  assert (Hgeoms : Forall (fun item : Geometry * Feature =>
                     is_Some (getGeometry (snd item))) example_items).
  { repeat constructor; by eexists. }
  destruct (hit_detection_reverse_order (ops := ol_extent) (fops := example_foreign)
      (T := unit) 12
              stroked_builder example_items (fun _ calls => calls) [] []
              eq_refl Hok (mk_is_Some _ _ eq_refl) (mk_is_Some _ _ eq_refl)
              Hitems Hgeoms) as (b' & st & H1 & H2 & H3).
  - cbn. lia.
  - exists b', st. split; [exact H1|]. split; [exact H2|exact H3].
Defined.

Lemma appendFlatCoordinates_simplification_witness :
  exists myEnd b' out,
    appendFlatCoordinates (ops := ol_extent) 3 example_builder
      (getFlatCoordinates example_geometry) 0 6 2 false false
    = Ret (myEnd, b')
    /\ coordinates b' = coordinates example_builder ++ out
    /\ Z.of_nat (length out) <= 6.
Proof.
  destruct (appendFlatCoordinates_simplification (ops := ol_extent) 3 example_builder
              (getFlatCoordinates example_geometry) 0 6 2 false false 3)
    as (myEnd & b' & out & H1 & H2 & H3 & _).
  - lia.
  - lia.
  - reflexivity.
  - lia.
  - exists myEnd, b', out. split; [exact H1|]. split; [exact H2|exact H3].
Defined.

Lemma getBuilder_owns_witness :
  group_ok example_group
  /\ (let '(r1, g1) := getBuilder example_group None LineString in
      let '(r2, g2) := getBuilder g1 (Some 1) LineString in
      group_ok g2 /\ r1 <> r2).
Proof.
  assert (Hok : group_ok example_group).
  { split.
    - intros key t r H. unfold builder_of in H. cbn in H.
      rewrite lookup_empty in H. discriminate H.
    - intros key t key' t' r H. unfold builder_of in H. cbn in H.
      rewrite lookup_empty in H. discriminate H. }
  split; [exact Hok|].
  pose proof (getBuilder_owns example_group None (Some 1) LineString LineString Hok)
    as H.
  destruct (getBuilder example_group None LineString) as [r1 g1].
  destruct (getBuilder g1 (Some 1) LineString) as [r2 g2].
  destruct H as (H1 & _ & H3 & _).
  split; [exact H1|].
  intros Heq. apply H3 in Heq. destruct Heq as [Hz _]. cbn in Hz. discriminate Hz.
Defined.

Lemma addDeclutter_counts_witness :
  exists ds1 ds2,
    addDeclutter (ops := ol_extent) example_declutter_group
      {| declutter_groups := []; declutterGroup_ := None |} false
    = Ret (Some 0%nat, ds1)
    /\ addDeclutter_continued (ops := ol_extent) 2 example_declutter_group ds1
       = Ret ([Some 0%nat; Some 0%nat], ds2)
    /\ declutter_groups ds2 = [{| dg_extent := ol_createEmpty; dg_count := 3 |}].
Proof.
  destruct (addDeclutter_counts (ops := ol_extent) example_declutter_group 0
              {| declutter_groups := []; declutterGroup_ := None |} 2 eq_refl)
    as [(ds1 & ds2 & H1 & H2 & H3 & _) _].
  exists ds1, ds2. split; [exact H1|]. split; [exact H2|exact H3].
Defined.

Lemma prepareFrame_buffers_quads_witness :
  let r' := prepareFrame_buffers (fun _ => 1%Q) (fun _ _ => 50%Q)
              (new_WebGLPointsLayerRenderer "1" "2") example_source in
  length (buf_array (verticesBuffer_ r')) = 24%nat
  /\ prepareFrame_buffers (fun _ => 1%Q) (fun _ _ => 50%Q) r' example_source = r'.
Proof.
  destruct (prepareFrame_buffers_quads (fun _ => 1%Q) (fun _ _ => 50%Q)
              (new_WebGLPointsLayerRenderer "1" "2") example_source 0 eq_refl)
    as (indices & _ & _ & _ & H4 & _ & _ & H7).
  - cbn. lia.
  - split; [exact H4|exact H7].
Defined.

Lemma forEachLayerAtPixel_topmost_first_witness :
  forEachLayerAtPixel (fun layerState : nat => layerState) (fun _ _ => true)
    (fun layer => Some layer) (fun (layerRenderer : nat) (_ : unit) _ => Some layerRenderer)
    3 tt 1 [1; 2]%nat 0
    (fun layer _ (visited : list nat) => (Some layer, visited ++ [layer]))
    (fun _ => true) []
  = Ret (Some 2%nat, [2%nat]).
Proof.
  refine (proj1 (forEachLayerAtPixel_topmost_first (fun layerState : nat => layerState)
                   (fun _ _ => true) (fun layer => Some layer)
                   (fun (layerRenderer : nat) (_ : unit) _ => Some layerRenderer)
                   tt 1 0
                   (fun layer _ (visited : list nat) => (Some layer, visited ++ [layer]))
                   (fun _ => true) 3 [1; 2]%nat [] _)).
  cbn. lia.
Defined.

Lemma line_strings_stroked_once_witness :
  exists b' st payload path,
    drawLineStrings (ops := ol_extent) 12 stroked_builder example_items = Ret b'
    /\ execute (ops := ol_extent) (fops := example_foreign) (T := unit) 12
         (new_CanvasExecutor (pixelRatio b') (overlaps b')
            (CanvasLineStringBuilder_finish b'))
         [] [] ∅
       = Ret (None, st)
    /\ rs_context st
       = [] ++ [CtxStrokeStyle payload; CtxBeginPath] ++ path
         ++ (if decide (coordinates b' = []) then [] else [CtxStroke]).
Proof.
  assert (Hok : stroke_state_ok (state stroked_builder)).
  { split; split; intros H; cbn in H |- *; first [discriminate H|reflexivity]. }
  assert (Hitems : Forall (fun item : Geometry * Feature =>
                     0 < getStride (fst item)
                     /\ (length (getFlatCoordinates (fst item)) <= 12)%nat)
                     example_items).
  { repeat constructor; cbn; lia. }
  assert (Hgeoms : Forall (fun item : Geometry * Feature =>
                     is_Some (getGeometry (snd item))) example_items).
  { repeat constructor; by eexists. }
  destruct (line_strings_stroked_once (ops := ol_extent) (fops := example_foreign)
      (T := unit) 12 stroked_builder
              (example_geometry, feature_a) [(example_geometry, feature_c)] [] []
              eq_refl eq_refl eq_refl Hok (mk_is_Some _ _ eq_refl)
              (mk_is_Some _ _ eq_refl) Hitems Hgeoms)
    as (b' & st & payload & path & H1 & H2 & H3 & _).
  - cbn. lia.
  - exists b', st, payload, path. split; [exact H1|]. split; [exact H2|exact H3].
Defined.
